(** * Message correlation and processing pipeline

    A shallow embedding of the session correlator
    ([correlation/sessionCorrelator.js]), of the extraction client
    ([llm/groqClient.js]), of the processing stage ([kafka/processor.js])
    and of what they rest on in the WhatsApp client, the queue client and
    the stores, with the properties of the pipeline stated and proved over
    it.

    Conventions of the embedding.
    - A JavaScript string is a Rocq [string]; each character stands for the
      UTF-16 code unit of the same number, so the texts covered are those
      over U+0000..U+00FF.  [length], [trim], [toLowerCase] and the regular
      expressions below are exact on that range.
    - [null] and [undefined] in a field that otherwise holds a string or a
      number are [None].
    - JavaScript numbers that carry a confidence are binary64 floats
      ([PrimFloat]); timestamps and delays, which are integers of
      milliseconds, are [Z].
    - Every operation of the correlator runs to completion on the event
      loop; it is given one reading [now] of [Date.now()].
    - [Map] and [Set] keep insertion order: the session table is an
      association list and the two caches are lists.  The timer table, whose
      order is never observed, is a [gmap].
    - Logging is not modelled. *)

From Stdlib Require Import ZArith Ascii String Floats.PrimFloat.
From stdpp Require Import base strings list gmap pretty.

Set Warnings "-inexact-float,-abstract-large-number".
Local Open Scope string_scope.
Local Open Scope list_scope.

(** ** JavaScript strings *)

Module JS.

Definition code (c : ascii) : N := N_of_ascii c.

Definition between (lo hi c : ascii) : bool :=
  (code lo <=? code c)%N && (code c <=? code hi)%N.

Definition isDigit (c : ascii) : bool := between "0" "9" c.
Definition isUpper (c : ascii) : bool := between "A" "Z" c.
Definition isLower (c : ascii) : bool := between "a" "z" c.

(** [\w] *)
Definition isWordChar (c : ascii) : bool :=
  isLower c || isUpper c || isDigit c || Ascii.eqb c "_".

(** WhiteSpace and LineTerminator code units below U+0100: TAB, LF, VT, FF,
    CR, SP and NBSP.  This is the set of [\s] and of [trim]. *)
Definition isSpace (c : ascii) : bool :=
  ((9 <=? code c)%N && (code c <=? 13)%N) || (code c =? 32)%N || (code c =? 160)%N.

(** [String.prototype.toLowerCase] on one code unit: A-Z and the capital
    letters U+00C0..U+00DE (the multiplication sign U+00D7 is not a letter)
    move up by 32. *)
Definition lowerChar (c : ascii) : ascii :=
  if isUpper c
     || ((192 <=? code c)%N && (code c <=? 222)%N && negb (code c =? 215)%N)
  then ascii_of_N (code c + 32) else c.

(** Canonicalize of a regular expression with the [i] flag and without the
    [u] flag, on the characters that can meet an ASCII pattern character: a
    code unit of 128 or more never canonicalizes to an ASCII one, so only
    a-z move. *)
Definition upperAscii (c : ascii) : ascii :=
  if isLower c then ascii_of_N (code c - 32) else c.

Definition chars (s : string) : list ascii := list_ascii_of_string s.
Definition str (l : list ascii) : string := string_of_list_ascii l.

Definition toLowerCase (s : string) : string := str (map lowerChar (chars s)).

Fixpoint trimStart (l : list ascii) : list ascii :=
  match l with
  | c :: l' => if isSpace c then trimStart l' else l
  | [] => []
  end.

Definition trimEnd (l : list ascii) : list ascii := rev (trimStart (rev l)).

Definition trim (s : string) : string := str (trimEnd (trimStart (chars s))).

(** Truthiness of a string: the empty string is falsy. *)
Definition truthy (s : string) : bool := negb (String.eqb s EmptyString).

(** Truthiness of a field that may be [null] or [undefined]. *)
Definition truthyOpt (o : option string) : bool :=
  match o with Some s => truthy s | None => false end.

(** [x || null] on such a field. *)
Definition orNull (o : option string) : option string :=
  if truthyOpt o then o else None.

Definition startsWith (s : string) (c : ascii) : bool :=
  match s with String x _ => Ascii.eqb x c | EmptyString => false end.

(** [s.substring(1)] *)
Definition substring1 (s : string) : string :=
  match s with String _ s' => s' | EmptyString => EmptyString end.

(** [Array.prototype.join] over strings. *)
Fixpoint join (sep : string) (l : list string) : string :=
  match l with
  | [] => EmptyString
  | [x] => x
  | x :: l' => x +:+ sep +:+ join sep l'
  end.

End JS.

(** ** Regular expressions

    The fragment of the regular-expression language that the literals of the
    sources use, with the matcher of [RegExp.prototype.test] for a pattern
    without the [g] and [y] flags: a match may start at any index. *)

Module RegExp.

Inductive regex : Type :=
  | Epsilon
  | Char (c : ascii)
  | Class (negated : bool) (ranges : list (ascii * ascii))
  | Seq (r1 r2 : regex)
  | Alt (r1 r2 : regex)
  | Repeat (r : regex) (min : nat) (max : option nat)
  | WordBoundary
  | InputStart
  | InputEnd.

Record t := mk { source : regex; ignoreCase : bool }.

(** The matcher walks a cursor: the code unit before the current index, if
    any, and the rest of the input. *)
Definition cursor : Type := option ascii * list ascii.

Definition canonicalize (ic : bool) (c : ascii) : ascii :=
  if ic then JS.upperAscii c else c.

Definition inRanges (ranges : list (ascii * ascii)) (c : ascii) : bool :=
  existsb (fun r => JS.between (fst r) (snd r) c) ranges.

Definition classMatches (ic negated : bool) (ranges : list (ascii * ascii))
    (c : ascii) : bool :=
  xorb negated
    (inRanges ranges c
     || (ic && (inRanges ranges (JS.upperAscii c)
                || inRanges ranges (JS.lowerChar c)))).

Definition isWordAt (o : option ascii) : bool :=
  match o with Some c => JS.isWordChar c | None => false end.

Definition atWordBoundary (cur : cursor) : bool :=
  xorb (isWordAt (fst cur)) (isWordAt (head (snd cur))).

Definition matcher : Type := cursor -> (cursor -> bool) -> bool.

(** [n] iterations, each of which may be empty. *)
Fixpoint times (m : matcher) (n : nat) (cur : cursor) (k : cursor -> bool) : bool :=
  match n with
  | O => k cur
  | S n' => m cur (fun cur' => times m n' cur' k)
  end.

(** At most [n] further iterations; an iteration past the minimum that
    consumes nothing is rejected, as RepeatMatcher does. *)
Fixpoint upto (m : matcher) (n : nat) (cur : cursor) (k : cursor -> bool) : bool :=
  k cur
  || match n with
     | O => false
     | S n' =>
         m cur (fun cur' =>
                  (length (snd cur') <? length (snd cur))%nat && upto m n' cur' k)
     end.

Fixpoint run (ic : bool) (r : regex) (cur : cursor) (k : cursor -> bool) : bool :=
  match r with
  | Epsilon => k cur
  | Char c =>
      match snd cur with
      | x :: rest =>
          Ascii.eqb (canonicalize ic x) (canonicalize ic c) && k (Some x, rest)
      | [] => false
      end
  | Class negated ranges =>
      match snd cur with
      | x :: rest => classMatches ic negated ranges x && k (Some x, rest)
      | [] => false
      end
  | Seq r1 r2 => run ic r1 cur (fun cur' => run ic r2 cur' k)
  | Alt r1 r2 => run ic r1 cur k || run ic r2 cur k
  | Repeat r' min max =>
      times (run ic r') min cur
        (fun cur' =>
           upto (run ic r')
             (match max with
              | Some n => n - min
              | None => length (snd cur')
              end) cur' k)
  | WordBoundary => atWordBoundary cur && k cur
  | InputStart => match fst cur with None => k cur | Some _ => false end
  | InputEnd => match snd cur with [] => k cur | _ :: _ => false end
  end.

Fixpoint search (ic : bool) (r : regex) (prev : option ascii) (l : list ascii) : bool :=
  run ic r (prev, l) (fun _ => true)
  || match l with
     | x :: l' => search ic r (Some x) l'
     | [] => false
     end.

Definition test (re : t) (s : string) : bool :=
  search (ignoreCase re) (source re) None (JS.chars s).

(** Helpers to write patterns down. *)
Fixpoint word (l : list ascii) : regex :=
  match l with
  | [] => Epsilon
  | [c] => Char c
  | c :: l' => Seq (Char c) (word l')
  end.

Definition lit (s : string) : regex := word (JS.chars s).

Fixpoint alts (l : list regex) : regex :=
  match l with
  | [] => Epsilon
  | [r] => r
  | r :: l' => Alt r (alts l')
  end.

Definition oneOf (ws : list string) : regex := alts (map lit ws).

Fixpoint seqs (l : list regex) : regex :=
  match l with
  | [] => Epsilon
  | [r] => r
  | r :: l' => Seq r (seqs l')
  end.

Definition digit : regex := Class false [("0", "9")]%char.
Definition space : regex :=
  Class false [(ascii_of_N 9, ascii_of_N 13); (" ", " "); (ascii_of_N 160, ascii_of_N 160)]%char.
Definition plus (r : regex) : regex := Repeat r 1 None.
Definition opt (r : regex) : regex := Repeat r 0 (Some 1).

End RegExp.

(** ** Text classifier ([SessionCorrelator.isNoise], [identifySlot]) *)

Section NoisePatterns.
Import RegExp.

(** [this.noisePatterns] *)
Definition noisePatterns : list RegExp.t :=
  [ (* /\b(hi|hello|hey|gm|morning|hey|thx|thanks)\b/i *)
    RegExp.mk
      (seqs [WordBoundary;
             oneOf ["hi"; "hello"; "hey"; "gm"; "morning"; "hey"; "thx"; "thanks"];
             WordBoundary]) true;
    (* /\b(namaste|pranam|shubh prabhat|kaise ho)\b/i *)
    RegExp.mk
      (seqs [WordBoundary;
             oneOf ["namaste"; "pranam"; "shubh prabhat"; "kaise ho"];
             WordBoundary]) true;
    (* /\b(jay mataji|ram ram|sakti|om)\b/i *)
    RegExp.mk
      (seqs [WordBoundary;
             oneOf ["jay mataji"; "ram ram"; "sakti"; "om"];
             WordBoundary]) true;
    (* /\b(suno|bhai|ji|ok|okay|tike)\b/i *)
    RegExp.mk
      (seqs [WordBoundary;
             oneOf ["suno"; "bhai"; "ji"; "ok"; "okay"; "tike"];
             WordBoundary]) true ].

End NoisePatterns.

Definition isNoise (text : string) : bool :=
  if negb (JS.truthy text) || (String.length text <? 2)%nat then true
  else
    let cleanText := JS.toLowerCase (JS.trim text) in
    if (String.length cleanText <? 15)%nat
    then existsb (fun pattern => RegExp.test pattern cleanText) noisePatterns
    else false.

Inductive Slot : Type := SlotName | SlotMobile | SlotAddress | SlotUnknown.

#[global] Instance Slot_eq_dec : EqDecision Slot.
Proof. solve_decision. Defined.

Section SlotPatterns.
Import RegExp.

(** /(\+91|0)?[6-9]\d{9}/ *)
Definition mobilePattern : RegExp.t :=
  RegExp.mk
    (seqs [opt (Alt (lit "+91") (lit "0"));
           Class false [("6", "9")]%char;
           Repeat digit 9 (Some 9)]) false.

(** /^[A-Z][a-z]+(\s[A-Z][a-z]+){1,2}$/ *)
Definition namePattern : RegExp.t :=
  RegExp.mk
    (seqs [InputStart;
           Class false [("A", "Z")]%char;
           plus (Class false [("a", "z")]%char);
           Repeat (seqs [space;
                         Class false [("A", "Z")]%char;
                         plus (Class false [("a", "z")]%char)]) 1 (Some 2);
           InputEnd]) false.

(** /\b(road|st|street|apt|apartment|flat|city|dist|nagar|society|colony|landmark|near|opposite)\b/i *)
Definition addressKeywords : RegExp.t :=
  RegExp.mk
    (seqs [WordBoundary;
           oneOf ["road"; "st"; "street"; "apt"; "apartment"; "flat"; "city";
                  "dist"; "nagar"; "society"; "colony"; "landmark"; "near";
                  "opposite"];
           WordBoundary]) true.

End SlotPatterns.

(** [text.split(/\s+/).length]: the separator matches every maximal run of
    white space, so the array has one piece more than there are runs (a run
    at either end leaves an empty piece there). *)
Fixpoint whitespaceRuns (inRun : bool) (l : list ascii) : nat :=
  match l with
  | [] => 0
  | c :: l' =>
      if JS.isSpace c
      then (if inRun then 0 else 1) + whitespaceRuns true l'
      else whitespaceRuns false l'
  end.

Definition splitWhitespaceLength (text : string) : nat :=
  S (whitespaceRuns false (JS.chars text)).

Definition identifySlot (text : string) : Slot :=
  if RegExp.test mobilePattern text then SlotMobile
  else if RegExp.test namePattern (JS.trim text) then SlotName
  else if RegExp.test addressKeywords text
          || (5 <? splitWhitespaceLength text)%nat then SlotAddress
  else SlotUnknown.

(** ** Data model *)

(** The message handed over by the transport connector. *)
Module Message.
Record t : Type := mk {
  id : string;
  senderId : string;
  senderNumber : string;
  pushName : string;
  text : string;
  timestamp : Z
}.
End Message.

(** An entry of [session.messages]. *)
Module Buffered.
Record t : Type := mk {
  id : string;
  text : string;
  timestamp : Z;
  receivedAt : Z
}.
End Buffered.

Module Slots.
Record t : Type := mk {
  name : option string;
  mobile : option string;
  address : option string
}.

(** [slots[slot]] *)
Definition get (slot : Slot) (s : t) : option string :=
  match slot with
  | SlotName => name s
  | SlotMobile => mobile s
  | SlotAddress => address s
  | SlotUnknown => None
  end.

(** [slots[slot] = text] *)
Definition set (slot : Slot) (text : string) (s : t) : t :=
  match slot with
  | SlotName => mk (Some text) (mobile s) (address s)
  | SlotMobile => mk (name s) (Some text) (address s)
  | SlotAddress => mk (name s) (mobile s) (Some text)
  | SlotUnknown => s
  end.

(** [Object.values(slots)] *)
Definition values (s : t) : list (option string) := [name s; mobile s; address s].

Definition empty : t := mk None None None.
End Slots.

Module Session.
Record t : Type := mk {
  senderId : string;
  senderNumber : string;
  pushName : string;
  messages : list Buffered.t;
  slots : Slots.t;
  startedAt : Z;
  lastMessageAt : Z
}.
End Session.

(** The payload of the ['session'] event. *)
Module SessionData.
Record t : Type := mk {
  sessionId : string;
  senderId : string;
  senderNumber : string;
  pushName : string;
  messageCount : nat;
  combinedText : string;
  messages : list Buffered.t;
  slots : Slots.t;
  startedAt : Z;
  completedAt : Z;
  durationMs : Z
}.
End SessionData.

(** A timer of the event loop that has been set and has neither fired nor
    been cleared.  Its callback is [processSession sender]. *)
Module Timer.
Record t : Type := mk {
  handle : nat;
  sender : string;
  delay : Z
}.
End Timer.

(** ** Insertion-ordered [Set] and [Map] *)

Module OSet.
Definition has (x : string) (s : list string) : bool := bool_decide (x ∈ s).
Definition add (x : string) (s : list string) : list string :=
  if has x s then s else s ++ [x].
Definition delete (x : string) (s : list string) : list string :=
  filter (λ y, y ≠ x) s.
(** [Array.from(s).slice(0, n).forEach(id => s.delete(id))] *)
Definition evictOldest (n : nat) (s : list string) : list string :=
  foldl (λ acc x, delete x acc) s (take n s).
(** [s.add(x)], then the eviction of the oldest [batch] entries once the
    size exceeds [ceiling]. *)
Definition addBounded (ceiling batch : nat) (x : string) (s : list string)
    : list string :=
  let s := add x s in
  if (ceiling <? length s)%nat then evictOldest batch s else s.
End OSet.

Module OMap.
Section OMap.
Context {V : Type}.
Fixpoint get (k : string) (m : list (string * V)) : option V :=
  match m with
  | [] => None
  | (k', v) :: m' => if decide (k' = k) then Some v else get k m'
  end.
(** An existing key keeps its place; a new key goes to the end. *)
Fixpoint set (k : string) (v : V) (m : list (string * V)) : list (string * V) :=
  match m with
  | [] => [(k, v)]
  | (k', v') :: m' =>
      if decide (k' = k) then (k, v) :: m' else (k', v') :: set k v m'
  end.
Definition delete (k : string) (m : list (string * V)) : list (string * V) :=
  filter (λ e, e.1 ≠ k) m.
Definition keys (m : list (string * V)) : list string := m.*1.
End OMap.
End OMap.

(** ** The correlator ([class SessionCorrelator]) *)

Definition newline : string := String (ascii_of_N 10) EmptyString.

(** [config.correlation.maxMessagesPerSession], which the configuration
    fixes, copied to [this.maxMessages]. *)
Definition maxMessages : nat := 10.

(** The fields of the instance, then the part of its environment that it
    acts on: the timers of the event loop that are pending, the next timer
    handle, and the ['session'] events emitted so far, oldest first. *)
Record SessionCorrelator : Type := mkCorrelator {
  sessions : list (string * Session.t);
  timers : gmap string nat;
  processedSessions : list string;
  processedMessageIds : list string;
  timeoutMs : Z;
  pending : list Timer.t;
  nextHandle : nat;
  emitted : list SessionData.t
}.

(** [new SessionCorrelator()] with [config.correlation.timeoutSeconds]. *)
Definition constructor (timeoutSeconds : Z) : SessionCorrelator :=
  mkCorrelator [] ∅ [] [] (timeoutSeconds * 1000) [] 0 [].

Definition withSessions (v : list (string * Session.t)) (c : SessionCorrelator) :=
  mkCorrelator v (timers c) (processedSessions c) (processedMessageIds c)
    (timeoutMs c) (pending c) (nextHandle c) (emitted c).

Definition withProcessedMessageIds (v : list string) (c : SessionCorrelator) :=
  mkCorrelator (sessions c) (timers c) (processedSessions c) v
    (timeoutMs c) (pending c) (nextHandle c) (emitted c).

Definition withProcessedSessions (v : list string) (c : SessionCorrelator) :=
  mkCorrelator (sessions c) (timers c) v (processedMessageIds c)
    (timeoutMs c) (pending c) (nextHandle c) (emitted c).

Definition clearTimeout (h : nat) (l : list Timer.t) : list Timer.t :=
  filter (λ t, Timer.handle t ≠ h) l.

(** [if (this.timers.has(senderId)) { clearTimeout(...); this.timers.delete(senderId); }] *)
Definition clearTimer (senderId : string) (c : SessionCorrelator) : SessionCorrelator :=
  match timers c !! senderId with
  | Some h =>
      mkCorrelator (sessions c) (delete senderId (timers c)) (processedSessions c)
        (processedMessageIds c) (timeoutMs c) (clearTimeout h (pending c))
        (nextHandle c) (emitted c)
  | None => c
  end.

Definition resetTimer (senderId : string) (timeout : Z) (c : SessionCorrelator)
    : SessionCorrelator :=
  let cleared :=
    match timers c !! senderId with
    | Some h => clearTimeout h (pending c)
    | None => pending c
    end in
  let timer := Timer.mk (nextHandle c) senderId timeout in
  mkCorrelator (sessions c) (<[senderId := nextHandle c]> (timers c))
    (processedSessions c) (processedMessageIds c) (timeoutMs c)
    (cleared ++ [timer]) (S (nextHandle c)) (emitted c).

(** [`${senderId}_${session.startedAt}`] *)
Definition sessionIdOf (senderId : string) (session : Session.t) : string :=
  senderId +:+ "_" +:+ pretty (Session.startedAt session).

Definition sessionDataOf (now : Z) (senderId : string) (session : Session.t)
    : SessionData.t :=
  SessionData.mk
    (sessionIdOf senderId session)
    (Session.senderId session)
    (Session.senderNumber session)
    (Session.pushName session)
    (length (Session.messages session))
    (JS.join newline (map Buffered.text (Session.messages session)))
    (Session.messages session)
    (Session.slots session)
    (Session.startedAt session)
    now
    (now - Session.startedAt session).

Definition emit (d : SessionData.t) (c : SessionCorrelator) : SessionCorrelator :=
  mkCorrelator (sessions c) (timers c) (processedSessions c) (processedMessageIds c)
    (timeoutMs c) (pending c) (nextHandle c) (emitted c ++ [d]).

Definition processSession (now : Z) (senderId : string) (c : SessionCorrelator)
    : SessionCorrelator :=
  match OMap.get senderId (sessions c) with
  | None => c
  | Some session =>
      if (length (Session.messages session) =? 0)%nat then c
      else
        let sessionId := sessionIdOf senderId session in
        if OSet.has sessionId (processedSessions c)
        then withSessions (OMap.delete senderId (sessions c)) c
        else
          let c :=
            withProcessedSessions
              (OSet.addBounded 1000 500 sessionId (processedSessions c)) c in
          let c := clearTimer senderId c in
          let c := emit (sessionDataOf now senderId session) c in
          withSessions (OMap.delete senderId (sessions c)) c
  end.

Definition filledSlots (s : Slots.t) : nat :=
  length (filter (λ v, v ≠ None) (Slots.values s)).

Definition isHighlyComplete (s : Slots.t) : bool :=
  JS.truthyOpt (Slots.name s) && JS.truthyOpt (Slots.mobile s).

Definition adaptiveTimeoutMs (c : SessionCorrelator) (s : Slots.t) : Z :=
  if isHighlyComplete s then 10000
  else if (1 <=? filledSlots s)%nat then 30000
  else timeoutMs c.

(** How far a call of [addMessage] gets before the check of the message
    limit: it returns on a duplicate, returns on noise, or buffers the
    message and re-arms the timer. *)
Inductive Intake : Type :=
  | SkippedDuplicate
  | IgnoredNoise (c : SessionCorrelator)
  | Armed (c : SessionCorrelator) (session : Session.t).

(** The session that the message goes to: on a slot collision the session
    of the sender is processed and a new one is started, as when the sender
    has none. *)
Definition openSession (now : Z) (message : Message.t) (slot : Slot)
    (c : SessionCorrelator) : SessionCorrelator * Session.t :=
  let senderId := Message.senderId message in
  let session := OMap.get senderId (sessions c) in
  let collision :=
    match session with
    | Some s =>
        bool_decide (slot ≠ SlotUnknown)
        && JS.truthyOpt (Slots.get slot (Session.slots s))
    | None => false
    end in
  let c := if collision then processSession now senderId c else c in
  let session := if collision then None else session in
  match session with
  | Some s => (c, s)
  | None =>
      let s :=
        Session.mk senderId (Message.senderNumber message)
          (Message.pushName message) [] Slots.empty now now in
      (withSessions (OMap.set senderId s (sessions c)) c, s)
  end.

(** The updates of the session object: the slot, the message pushed,
    [lastMessageAt]. *)
Definition buffer (now : Z) (message : Message.t) (slot : Slot)
    (session : Session.t) : Session.t :=
  Session.mk (Session.senderId session) (Session.senderNumber session)
    (Session.pushName session)
    (Session.messages session
       ++ [Buffered.mk (Message.id message) (Message.text message)
             (Message.timestamp message) now])
    (if bool_decide (slot ≠ SlotUnknown)
     then Slots.set slot (Message.text message) (Session.slots session)
     else Session.slots session)
    (Session.startedAt session) now.

Definition intake (now : Z) (message : Message.t) (c : SessionCorrelator) : Intake :=
  let id := Message.id message in
  let senderId := Message.senderId message in
  let text := Message.text message in
  if OSet.has id (processedMessageIds c) then SkippedDuplicate
  else
    let c :=
      withProcessedMessageIds
        (OSet.addBounded 10000 5000 id (processedMessageIds c)) c in
    if isNoise text then IgnoredNoise c
    else
      let slot := identifySlot text in
      let '(c, session) := openSession now message slot c in
      (* the session object is the one the table holds: it is updated in place *)
      let session := buffer now message slot session in
      let c := withSessions (OMap.set senderId session (sessions c)) c in
      Armed (resetTimer senderId (adaptiveTimeoutMs c (Session.slots session)) c)
        session.

Definition addMessage (now : Z) (message : Message.t) (c : SessionCorrelator)
    : SessionCorrelator :=
  match intake now message c with
  | SkippedDuplicate => c
  | IgnoredNoise c' => c'
  | Armed c' session =>
      if (maxMessages <=? length (Session.messages session))%nat
      then processSession now (Message.senderId message) c'
      else c'
  end.

Definition removeMessage (senderId messageId : string) (c : SessionCorrelator)
    : SessionCorrelator :=
  match OMap.get senderId (sessions c) with
  | None => c
  | Some session =>
      let kept := filter (λ m, Buffered.id m ≠ messageId) (Session.messages session) in
      let session' :=
        Session.mk (Session.senderId session) (Session.senderNumber session)
          (Session.pushName session) kept (Session.slots session)
          (Session.startedAt session) (Session.lastMessageAt session) in
      let c := withSessions (OMap.set senderId session' (sessions c)) c in
      if (length kept <? length (Session.messages session))%nat
      then
        if (length kept =? 0)%nat
        then clearTimer senderId (withSessions (OMap.delete senderId (sessions c)) c)
        else c
      else c
  end.

(** [for (const senderId of this.sessions.keys()) this.processSession(senderId)]:
    the only entry that a step removes is the one the iterator is at. *)
Definition flushAll (now : Z) (c : SessionCorrelator) : SessionCorrelator :=
  foldl (λ c senderId, processSession now senderId c) c (OMap.keys (sessions c)).

(** The pending timer with handle [h] fires: the event loop drops it and
    runs its callback. *)
Definition fire (now : Z) (h : nat) (c : SessionCorrelator) : SessionCorrelator :=
  match List.find (λ t, Nat.eqb (Timer.handle t) h) (pending c) with
  | Some t =>
      processSession now (Timer.sender t)
        (mkCorrelator (sessions c) (timers c) (processedSessions c)
           (processedMessageIds c) (timeoutMs c)
           (clearTimeout h (pending c)) (nextHandle c) (emitted c))
  | None => c
  end.

(** ** Extraction client ([class GroqClient]) *)

(** [this.maxRetries] *)
Definition maxRetries : nat := 3.

(** The object that [JSON.parse(responseText)] yields.  A field is [None]
    when the response leaves it out or gives [null]; the confidence is a
    JSON number, the other fields are strings. *)
Module ExtractedData.
Record t : Type := mk {
  name : option string;
  address : option string;
  mobile : option string;
  confidence : option float;
  notes : option string
}.
End ExtractedData.

(** What one pass through the body of the [try] comes to: the remote call or
    [JSON.parse] throws an error with the given message, the completion
    has no content, or the response parses. *)
Inductive Attempt : Type :=
  | Throws (message : string)
  | NoContent
  | Responds (data : ExtractedData.t).

Inductive Status : Type := Processed | LowConfidence | Failed.

Module Extracted.
Record t : Type := mk {
  name : option string;
  address : option string;
  mobile : option string;
  confidence : float;
  notes : option string
}.
End Extracted.

(** The result object of [extractContactInfo]; [llmModel] and
    [llmResponseTime], which nothing reads, are left out.  [status] is
    [None] while the property is absent. *)
Module ParsedData.
Record t : Type := mk {
  sessionId : string;
  senderNumber : string;
  pushName : string;
  extracted : Extracted.t;
  rawMessages : list Buffered.t;
  combinedText : string;
  processedAt : Z;
  error : option string;
  status : option Status
}.

Definition withStatus (s : Status) (p : t) : t :=
  mk (sessionId p) (senderNumber p) (pushName p) (extracted p) (rawMessages p)
    (combinedText p) (processedAt p) (error p) (Some s).
End ParsedData.

(** [phone.replace(/[^\d+]/g, '')]: every code unit that is neither a digit
    nor a plus sign is removed. *)
Definition stripNonPhone (phone : string) : string :=
  JS.str (List.filter
            (λ c, negb (RegExp.classMatches false true [("0", "9"); ("+", "+")]%char c))
            (JS.chars phone)).

Definition normalizePhoneNumber (phone : option string) : option string :=
  match phone with
  | None => None
  | Some phone =>
      if negb (JS.truthy phone) then None
      else
        let normalized := stripNonPhone phone in
        let normalized :=
          if JS.startsWith normalized "+" then JS.substring1 normalized
          else normalized in
        if (String.length normalized <? 10)%nat || (15 <? String.length normalized)%nat
        then Some phone
        else Some normalized
  end.

(** Truthiness of a number: [0], [-0] and [NaN] are falsy. *)
Definition truthyNumber (x : float) : bool :=
  negb ((x =? 0)%float || negb (x =? x)%float).

(** [extractedData.confidence || 0.5] *)
Definition confidenceOrDefault (o : option float) : float :=
  match o with
  | Some x => if truthyNumber x then x else 0.5%float
  | None => 0.5%float
  end.

(** [Math.pow(2, attempt) * 1000] *)
Definition backoffDelay (attempt : nat) : Z := 2 ^ Z.of_nat attempt * 1000.

Definition errorMessage (a : Attempt) : string :=
  match a with
  | Throws message => message
  | _ => "Empty response from LLM"
  end.

(** [`${lastError?.message}`] *)
Definition interpolate (o : option string) : string :=
  match o with Some s => s | None => "undefined" end.

Section Extraction.

(** The outcome of the [attempt]-th pass, counted from 1. *)
Variable llm : nat → Attempt.
Variable now : Z.
Variable session : SessionData.t.

Definition succeeded (data : ExtractedData.t) : ParsedData.t :=
  ParsedData.mk
    (SessionData.sessionId session)
    (SessionData.senderNumber session)
    (SessionData.pushName session)
    (Extracted.mk
       (JS.orNull (ExtractedData.name data))
       (JS.orNull (ExtractedData.address data))
       (normalizePhoneNumber (ExtractedData.mobile data))
       (confidenceOrDefault (ExtractedData.confidence data))
       (JS.orNull (ExtractedData.notes data)))
    (SessionData.messages session)
    (SessionData.combinedText session)
    now None None.

Definition exhausted (lastError : option string) : ParsedData.t :=
  ParsedData.mk
    (SessionData.sessionId session)
    (SessionData.senderNumber session)
    (SessionData.pushName session)
    (Extracted.mk None None None 0%float
       (Some ("Extraction failed: " +:+ interpolate lastError)))
    (SessionData.messages session)
    (SessionData.combinedText session)
    now lastError (Some Failed).

(** The [for] loop from [attempt] on, with [remaining] passes left.  The
    second component collects the delays slept through. *)
Fixpoint attemptsFrom (remaining attempt : nat) (lastError : option string)
    (slept : list Z) : ParsedData.t * list Z :=
  match remaining with
  | O => (exhausted lastError, slept)
  | S remaining' =>
      match llm attempt with
      | Responds data => (succeeded data, slept)
      | failure =>
          attemptsFrom remaining' (S attempt) (Some (errorMessage failure))
            (if (attempt <? maxRetries)%nat then slept ++ [backoffDelay attempt]
             else slept)
      end
  end.

Definition extractContactInfo : ParsedData.t * list Z :=
  attemptsFrom maxRetries 1 None [].

End Extraction.

(** ** Processing stage ([class MessageProcessor]) and its collaborators *)

(** A row of the [contacts] table. *)
Module Contact.
Record t : Type := mk {
  id : nat;
  session_id : string;
  sender_number : string;
  push_name : string;
  extracted_name : option string;
  extracted_address : option string;
  extracted_mobile : option string;
  confidence : float;
  notes : option string;
  status : Status;
  raw_messages : list Buffered.t;
  combined_text : string;
  created_at : Z;
  updated_at : Z
}.
End Contact.

(** The message that [sendToDeadLetter] builds (its [stack] is left out). *)
Module DeadLetter.
Record t : Type := mk {
  originalMessage : SessionData.t;
  error : string;
  timestamp : Z
}.
End DeadLetter.

Inductive Broadcast : Type :=
  | NewContact (contact : ParsedData.t) (id : nat)
  | StatusUpdate (status level : string).

Inductive Topic : Type := RawMessages | ParsedMessages | DeadLetterQueue.

(** The collaborators of the processing stage: the table of contacts, the
    topics of the queue, the broadcasts made and the back-off delays slept
    through, each oldest first, and the faults they may present: the
    statement of [saveContact] failing, the producer being disconnected, the
    broker rejecting what is sent to a topic. *)
Record World : Type := mkWorld {
  contacts : list Contact.t;
  lastInsertRowid : nat;
  parsedMessages : list ParsedData.t;
  deadLetterQueue : list DeadLetter.t;
  broadcasts : list Broadcast;
  slept : list Z;
  dbFault : option string;
  isProducerConnected : bool;
  brokerFault : Topic → option string
}.

(** Computations on the world that return or throw an error, which is
    carried by its message. *)
Definition IO (A : Type) : Type := World → World * (A + string).

Definition ret {A} (x : A) : IO A := λ w, (w, inl x).
Definition throw {A} (message : string) : IO A := λ w, (w, inr message).
Definition bind {A B} (m : IO A) (k : A → IO B) : IO B :=
  λ w, match m w with
       | (w', inl x) => k x w'
       | (w', inr e) => (w', inr e)
       end.
Definition tryCatch {A} (body : IO A) (handler : string → IO A) : IO A :=
  λ w, match body w with
       | (w', inl x) => (w', inl x)
       | (w', inr e) => handler e w'
       end.

Notation "'do' x <- m ; k" := (bind m (λ x, k))
  (at level 10, x name, m at level 100, k at level 200).

Definition statusOrProcessed (o : option Status) : Status :=
  match o with Some s => s | None => Processed end.

(** [database.saveContact]: [INSERT OR REPLACE] on the unique [session_id];
    the new row takes the next row id. *)
Definition saveContact (now : Z) (p : ParsedData.t) : IO nat :=
  λ w,
    match dbFault w with
    | Some message => (w, inr message)
    | None =>
        let id := S (lastInsertRowid w) in
        let e := ParsedData.extracted p in
        let row :=
          Contact.mk id (ParsedData.sessionId p) (ParsedData.senderNumber p)
            (ParsedData.pushName p) (Extracted.name e) (Extracted.address e)
            (Extracted.mobile e)
            (if truthyNumber (Extracted.confidence e) then Extracted.confidence e
             else 0%float)
            (Extracted.notes e) (statusOrProcessed (ParsedData.status p))
            (ParsedData.rawMessages p) (ParsedData.combinedText p)
            (if bool_decide (ParsedData.processedAt p ≠ 0%Z) then ParsedData.processedAt p
             else now)
            now in
        let kept :=
          filter (λ r, Contact.session_id r ≠ ParsedData.sessionId p) (contacts w) in
        (mkWorld (kept ++ [row]) id (parsedMessages w) (deadLetterQueue w)
           (broadcasts w) (slept w) (dbFault w) (isProducerConnected w)
           (brokerFault w),
         inl id)
    end.

(** The guard and the failure modes of [kafkaClient.send] for a topic. *)
Definition sendGuard (topic : Topic) : IO unit :=
  λ w,
    if negb (isProducerConnected w) then (w, inr "Kafka producer not connected")
    else match brokerFault w topic with
         | Some message => (w, inr message)
         | None => (w, inl tt)
         end.

Definition sendParsedMessage (p : ParsedData.t) : IO unit :=
  do _ <- sendGuard ParsedMessages;
  λ w, (mkWorld (contacts w) (lastInsertRowid w) (parsedMessages w ++ [p])
          (deadLetterQueue w) (broadcasts w) (slept w) (dbFault w)
          (isProducerConnected w) (brokerFault w), inl tt).

(** [sendToDeadLetter] catches what its own [send] throws. *)
Definition sendToDeadLetter (now : Z) (message : SessionData.t) (error : string)
    : IO unit :=
  tryCatch
    (do _ <- sendGuard DeadLetterQueue;
     λ w, (mkWorld (contacts w) (lastInsertRowid w) (parsedMessages w)
             (deadLetterQueue w ++ [DeadLetter.mk message error now])
             (broadcasts w) (slept w) (dbFault w) (isProducerConnected w)
             (brokerFault w), inl tt))
    (λ _, ret tt).

Definition broadcast (b : Broadcast) : IO unit :=
  λ w, (mkWorld (contacts w) (lastInsertRowid w) (parsedMessages w)
          (deadLetterQueue w) (broadcasts w ++ [b]) (slept w) (dbFault w)
          (isProducerConnected w) (brokerFault w), inl tt).

Definition sleep (delays : list Z) : IO unit :=
  λ w, (mkWorld (contacts w) (lastInsertRowid w) (parsedMessages w)
          (deadLetterQueue w) (broadcasts w) (slept w ++ delays) (dbFault w)
          (isProducerConnected w) (brokerFault w), inl tt).

(** The three-way branch that sets [parsedData.status]. *)
Definition classify (p : ParsedData.t) : Status :=
  if JS.truthyOpt (ParsedData.error p) then Failed
  else if (Extracted.confidence (ParsedData.extracted p) <? 0.3)%float then LowConfidence
  else Processed.

Definition failedData (now : Z) (session : SessionData.t) (error : string)
    : ParsedData.t :=
  ParsedData.mk
    (SessionData.sessionId session)
    (SessionData.senderNumber session)
    (SessionData.pushName session)
    (Extracted.mk None None None 0%float (Some ("Processing error: " +:+ error)))
    (SessionData.messages session)
    (SessionData.combinedText session)
    now (Some error) (Some Failed).

Definition process (now : Z) (llm : nat → Attempt) (session : SessionData.t)
    : IO ParsedData.t :=
  tryCatch
    (let '(parsedData, delays) := extractContactInfo llm now session in
     do _ <- sleep delays;
     let parsedData := ParsedData.withStatus (classify parsedData) parsedData in
     do contactId <- saveContact now parsedData;
     do _ <- sendParsedMessage parsedData;
     do _ <- broadcast (NewContact parsedData contactId);
     ret parsedData)
    (λ error,
       do _ <- saveContact now (failedData now session error);
       do _ <- sendToDeadLetter now session error;
       do _ <- broadcast
                 (StatusUpdate
                    ("Failed to process message from "
                     +:+ SessionData.senderNumber session)
                    "error");
       throw error).

(** ** The correlator, continued ([getStats], [destroy]) *)

Module Stats.
Record entry : Type := mkEntry {
  senderId : string;
  senderNumber : string;
  messageCount : nat;
  ageMs : Z
}.
Record t : Type := mk {
  activeSessions : nat;
  sessions : list entry
}.
End Stats.

Definition getStats (now : Z) (c : SessionCorrelator) : Stats.t :=
  Stats.mk
    (length (sessions c))
    (map (λ e, Stats.mkEntry e.1 (Session.senderNumber e.2)
                 (length (Session.messages e.2)) (now - Session.startedAt e.2))
       (sessions c)).

(** [for (const timer of this.timers.values()) clearTimeout(timer)], then the
    two tables are cleared; the caches are left as they are. *)
Definition destroy (c : SessionCorrelator) : SessionCorrelator :=
  mkCorrelator [] ∅ (processedSessions c) (processedMessageIds c) (timeoutMs c)
    (foldl (λ l h, clearTimeout h l) (pending c) (map_to_list (timers c)).*2)
    (nextHandle c) (emitted c).

(** ** The store, continued ([getContactBySessionId]) *)

(** [SELECT * FROM contacts WHERE session_id = ?], first row. *)
Definition getContactBySessionId (sessionId : string) (w : World) : option Contact.t :=
  List.find (λ r, bool_decide (Contact.session_id r = sessionId)) (contacts w).

(** ** The WhatsApp client ([class WhatsAppClient]) *)

(** More of JavaScript strings: [replace] with a string pattern, which
    replaces the first occurrence; [includes]; [endsWith]. *)
Module Str.

Fixpoint skip (n : nat) (s : string) : string :=
  match n, s with
  | O, _ => s
  | S n', String _ s' => skip n' s'
  | S _, EmptyString => EmptyString
  end.

Fixpoint replaceFirst (pattern replacement s : string) : string :=
  if String.prefix pattern s
  then replacement +:+ skip (String.length pattern) s
  else match s with
       | String c s' => String c (replaceFirst pattern replacement s')
       | EmptyString => EmptyString
       end.

Fixpoint includes (pattern s : string) : bool :=
  String.prefix pattern s
  || match s with
     | String _ s' => includes pattern s'
     | EmptyString => false
     end.

Fixpoint endsWith (suffix s : string) : bool :=
  String.eqb s suffix
  || match s with
     | String _ s' => endsWith suffix s'
     | EmptyString => false
     end.

End Str.

(** What [handleIncomingMessage] reads of a message of the socket.  A field
    is [None] when it is absent; [messageTimestamp] is in seconds. *)
Module Incoming.
Record t : Type := mk {
  fromMe : bool;
  conversation : option string;
  extendedText : option string;
  remoteJid : option string;
  id : string;
  messageTimestamp : option Z;
  pushName : option string
}.
End Incoming.

(** The payload of the ['message'] event. *)
Module MessageData.
Record t : Type := mk {
  id : string;
  senderId : string;
  senderNumber : string;
  isGroup : bool;
  text : string;
  timestamp : Z;
  receivedAt : Z;
  pushName : string
}.

(** What [addMessage] reads of it. *)
Definition toMessage (d : t) : Message.t :=
  Message.mk (id d) (senderId d) (senderNumber d) (pushName d) (text d) (timestamp d).
End MessageData.

(** [senderId.replace('@s.whatsapp.net', '').replace('@g.us', '')] *)
Definition senderNumberOf (senderId : string) : string :=
  Str.replaceFirst "@g.us" EmptyString
    (Str.replaceFirst "@s.whatsapp.net" EmptyString senderId).

(** [allowedSender.replace(/[^0-9]/g, '')] *)
Definition stripNonDigits (s : string) : string :=
  JS.str (List.filter
            (λ c, negb (RegExp.classMatches false true [("0", "9")]%char c))
            (JS.chars s)).

(** The filter on the sender: it passes when no sender is configured. *)
Definition isAllowed (allowedSender : option string) (senderNumber : string) : bool :=
  if JS.truthyOpt allowedSender
  then match allowedSender with
       | Some allowed => Str.includes (stripNonDigits allowed) senderNumber
       | None => true
       end
  else true.

(** [handleIncomingMessage]: [None] when nothing is emitted.  A message
    without [remoteJid] makes [senderId.replace] throw, which the [catch]
    swallows. *)
Definition handleIncomingMessage (allowedSender : option string) (now : Z)
    (message : Incoming.t) : option MessageData.t :=
  if Incoming.fromMe message then None
  else
    let textContent :=
      if JS.truthyOpt (Incoming.conversation message)
      then Incoming.conversation message
      else Incoming.extendedText message in
    match textContent with
    | None => None
    | Some text =>
        if negb (JS.truthy text) then None
        else
          match Incoming.remoteJid message with
          | None => None
          | Some senderId =>
              let senderNumber := senderNumberOf senderId in
              let isGroup := Str.endsWith "@g.us" senderId in
              if negb (isAllowed allowedSender senderNumber) then None
              else
                Some (MessageData.mk
                        (Incoming.id message) senderId senderNumber isGroup text
                        (match Incoming.messageTimestamp message with
                         | Some seconds =>
                             if bool_decide (seconds ≠ 0%Z) then (seconds * 1000)%Z
                             else now
                         | None => now
                         end)
                        now
                        (match Incoming.pushName message with
                         | Some name => if JS.truthy name then name else "Unknown"
                         | None => "Unknown"
                         end))
          end
    end.

(** [config.whatsapp.reconnectInterval], [config.whatsapp.maxReconnectAttempts] *)
Definition reconnectInterval : Z := 5000.
Definition maxReconnectAttempts : nat := 10.

(** [handleReconnect] on the counter [this.reconnectAttempts]: the counter
    afterwards and the delay of the timer that is set, if one is set. *)
Definition handleReconnect (reconnectAttempts : nat) : nat * option Z :=
  if (maxReconnectAttempts <=? reconnectAttempts)%nat then (reconnectAttempts, None)
  else
    let reconnectAttempts := S reconnectAttempts in
    (reconnectAttempts,
     Some (Z.min (reconnectInterval * 2 ^ (Z.of_nat reconnectAttempts - 1)) 60000)).

(** ** The session store ([class SessionStore]) *)

(** [key.replace(/[^a-zA-Z0-9_-]/g, '_')] *)
Definition safeKeyOf (key : string) : string :=
  JS.str (map (λ c,
                 if RegExp.classMatches false true
                      [("a", "z"); ("A", "Z"); ("0", "9"); ("_", "_"); ("-", "-")]%char c
                 then "_"%char else c)
            (JS.chars key)).

(** The name, within the session directory, of the file of [getFilePath]. *)
Definition fileNameOf (key : string) : string := safeKeyOf key +:+ ".json".

(** The files of the session directory are kept by name, in a map.  The
    content of a file is the value that [JSON.parse] gives for it, [None]
    when it does not parse; [D] is the type of the values stored.  [delete]
    is left out. *)
Module SessionStore.
Section SessionStore.
Context {D : Type}.




End SessionStore.
End SessionStore.

(** * Vocabulary of the properties *)

(** ** The text classifier and the phone numbers *)

(** Some noise pattern matches the string. *)
Definition matchesNoisePattern (s : string) : Prop :=
  ∃ pattern, pattern ∈ noisePatterns ∧ RegExp.test pattern s = true.

(** The plus sign. *)
Definition isPlus (c : ascii) : bool := Ascii.eqb c "+".

(** The digits of a string, in order. *)
Definition digitsOf (phone : string) : string :=
  JS.str (List.filter JS.isDigit (JS.chars phone)).

(** What the source keeps: the digits and every plus sign, less one plus
    sign in front. *)
Definition keptOf (phone : string) : string :=
  let kept := List.filter (λ c, JS.isDigit c || isPlus c) (JS.chars phone) in
  JS.str (match kept with
          | c :: rest => if isPlus c then rest else kept
          | [] => []
          end).

(** No plus sign comes after the first character that is a digit or a plus
    sign. *)
Fixpoint plusOnlyInFrontOf (l : list ascii) : bool :=
  match l with
  | c :: rest =>
      if JS.isDigit c || isPlus c then forallb (λ c, negb (isPlus c)) rest
      else plusOnlyInFrontOf rest
  | [] => true
  end.

(** The same of a string. *)
Definition plusOnlyInFront (phone : string) : bool :=
  plusOnlyInFrontOf (JS.chars phone).

(** The normalization as the specification words it: the digits of the
    input, or the input itself when their number is out of range.  It is
    compared below with [normalizePhoneNumber]. *)
Definition normalizedAsSpecified (phone : string) : string :=
  let digits := digitsOf phone in
  if (String.length digits <? 10)%nat || (15 <? String.length digits)%nat
  then phone else digits.

(** ** The processing stage *)

(** The first response among the attempts that [extractContactInfo] makes,
    if any of them responds. *)
Fixpoint firstResponseFrom (llm : nat → Attempt) (remaining attempt : nat)
    : option ExtractedData.t :=
  match remaining with
  | O => None
  | S remaining' =>
      match llm attempt with
      | Responds data => Some data
      | _ => firstResponseFrom llm remaining' (S attempt)
      end
  end.

(** The same over the attempts 1 to [maxRetries]. *)
Definition firstResponse (llm : nat → Attempt) : option ExtractedData.t :=
  firstResponseFrom llm maxRetries 1.

(** The store accepts the row and the queue accepts the result. *)
Definition healthy (w : World) : Prop :=
  dbFault w = None
  ∧ isProducerConnected w = true
  ∧ brokerFault w ParsedMessages = None.

(** The confidence that a result carries. *)
Definition confidenceOf (r : ParsedData.t) : float :=
  Extracted.confidence (ParsedData.extracted r).

(** The row that [saveContact] writes for a result. *)
Definition savedAs (r : ParsedData.t) (row : Contact.t) : Prop :=
  Contact.session_id row = ParsedData.sessionId r
  ∧ Contact.extracted_name row = Extracted.name (ParsedData.extracted r)
  ∧ Contact.extracted_address row = Extracted.address (ParsedData.extracted r)
  ∧ Contact.extracted_mobile row = Extracted.mobile (ParsedData.extracted r)
  ∧ Contact.notes row = Extracted.notes (ParsedData.extracted r)
  ∧ Contact.status row = statusOrProcessed (ParsedData.status r).

(** ** The correlator *)

(** Every slot that is set holds a non-empty text. *)
Definition slotsFilled (s : Slots.t) : Prop :=
  ∀ slot v, Slots.get slot s = Some v → v ≠ EmptyString.

(** The invariant of the correlator: a sender has one entry in the table,
    a session in the table has a message, a slot that is set holds a
    non-empty text, the handle of a pending timer is recorded in the timer
    table for its sender and for no one else, and the handles in the timer
    table have all been given out. *)
Record wellFormed (c : SessionCorrelator) : Prop := mkWellFormed {
  wf_keys : NoDup (OMap.keys (sessions c));
  wf_messages : ∀ k s, (k, s) ∈ sessions c → Session.messages s ≠ [];
  wf_slots : ∀ k s, (k, s) ∈ sessions c → slotsFilled (Session.slots s);
  wf_timers :
    ∀ t, t ∈ pending c →
      ∀ k, timers c !! k = Some (Timer.handle t) ↔ k = Timer.sender t;
  wf_handles : ∀ k h, timers c !! k = Some h → h < nextHandle c
}.

(** What happens to a correlator: the calls that [index.js] makes and the
    timers that fire. *)
Inductive Event : Type :=
  | AddMessage (now : Z) (message : Message.t)
  | RemoveMessage (senderId messageId : string)
  | TimerFires (now : Z) (handle : nat)
  | FlushAll (now : Z).

(** The effect of an event. *)
Definition step (e : Event) (c : SessionCorrelator) : SessionCorrelator :=
  match e with
  | AddMessage now message => addMessage now message c
  | RemoveMessage senderId messageId => removeMessage senderId messageId c
  | TimerFires now handle => fire now handle c
  | FlushAll now => flushAll now c
  end.

(** The correlator after a history of events. *)
Definition replay (timeoutSeconds : Z) (events : list Event) : SessionCorrelator :=
  foldl (λ c e, step e c) (constructor timeoutSeconds) events.

(** The correlators that a history leads to. *)
Inductive reachable : SessionCorrelator → Prop :=
  | reachable_constructor timeoutSeconds : reachable (constructor timeoutSeconds)
  | reachable_step e c : reachable c → reachable (step e c).

(** The session that [addMessage] starts for a message. *)
Definition freshSession (now : Z) (message : Message.t) : Session.t :=
  Session.mk (Message.senderId message) (Message.senderNumber message)
    (Message.pushName message) [] Slots.empty now now.

(** The correlator once the identifier of a message is in the cache. *)
Definition recorded (message : Message.t) (c : SessionCorrelator) : SessionCorrelator :=
  withProcessedMessageIds
    (OSet.addBounded 10000 5000 (Message.id message) (processedMessageIds c)) c.

(** The slot of the message is one that the session already has. *)
Definition collides (slot : Slot) (session : Session.t) : bool :=
  bool_decide (slot ≠ SlotUnknown)
  && JS.truthyOpt (Slots.get slot (Session.slots session)).

(** The three ways in which [addMessage] finds the session that a message
    goes to, with the correlator it leaves and the session before the
    message is pushed. *)
Inductive Opening (now : Z) (message : Message.t) (c : SessionCorrelator)
    : SessionCorrelator → Session.t → Prop :=
  | Joins base :
      OMap.get (Message.senderId message) (sessions c) = Some base →
      collides (identifySlot (Message.text message)) base = false →
      Opening now message c c base
  | Collides old :
      OMap.get (Message.senderId message) (sessions c) = Some old →
      collides (identifySlot (Message.text message)) old = true →
      Opening now message c
        (processSession now (Message.senderId message) c)
        (freshSession now message)
  | Starts :
      OMap.get (Message.senderId message) (sessions c) = None →
      Opening now message c c (freshSession now message).

(** A slot is filled when it is not [null]. *)
Definition filled (o : option string) : bool := bool_decide (o ≠ None).

(** The adaptive duration as the specification words it, in milliseconds. *)
Definition adaptiveAsSpecified (default : Z) (s : Slots.t) : Z :=
  if filled (Slots.name s) && filled (Slots.mobile s) then 10 * 1000
  else if filled (Slots.name s) || filled (Slots.mobile s) || filled (Slots.address s)
       then 30 * 1000
  else default.

(** No underscore occurs in the string. *)
Fixpoint underscoreFree (s : string) : Prop :=
  match s with
  | EmptyString => True
  | String c s' => c ≠ "_"%char ∧ underscoreFree s'
  end.

(** ** Sample data *)

(** A session of two messages, a name then a number. *)
Definition rahulSession : SessionData.t :=
  SessionData.mk "919876543210@s.whatsapp.net_1000" "919876543210@s.whatsapp.net"
    "919876543210" "Rahul" 2 ("Rahul Sharma" +:+ newline +:+ "9876543210")
    [Buffered.mk "A1" "Rahul Sharma" 900 1000; Buffered.mk "A2" "9876543210" 950 1500]
    (Slots.mk (Some "Rahul Sharma") (Some "9876543210") None) 1000 11500 10500.

(** No contact, no message on any topic, no fault. *)
Definition quietWorld : World := mkWorld [] 0 [] [] [] [] None true (λ _, None).

(** An extraction service that answers at once, with the given confidence. *)
Definition respondsWith (confidence : option float) : nat → Attempt :=
  λ _, Responds (ExtractedData.mk (Some "Rahul Sharma") None (Some "9876543210")
                   confidence None).

(** A message with the given identifier, sender and text. *)
Definition sampleMessage (id senderId text : string) : Message.t :=
  Message.mk id senderId "919876543210" "Rahul" text 1700000000000.

(** Two phone numbers from one sender within the same millisecond: the
    second starts a session whose identifier is the one of the session that
    it has just closed. *)
Definition sameMillisecond : SessionCorrelator :=
  replay 120
    [AddMessage 1000 (sampleMessage "A1" "a@s.whatsapp.net" "9876543210");
     AddMessage 1000 (sampleMessage "A2" "a@s.whatsapp.net" "9123456780")].

(** The identifier of the [n]-th message of a flood. *)
Definition floodId (n : nat) : string := "F" +:+ pretty n.




(** ** Statements that the program does not meet

    Each is refuted below. *)

(** C6 as worded: the length compared with 15 is that of the text as it
    arrives, and the patterns are tried on that text. *)
Definition isNoise_measures_raw_text : Prop :=
  ∀ text,
    isNoise text = true
    ↔ String.length text < 2
      ∨ (String.length text < 15 ∧ matchesNoisePattern text).

(** C1 as worded: when every attempt fails, [process] dead-letters the
    session and throws. *)
Definition exhausted_retries_dead_lettered : Prop :=
  ∀ now llm session w,
    firstResponse llm = None →
    ∃ w' e,
      process now llm session w = (w', inr e)
      ∧ ∃ d, d ∈ deadLetterQueue w' ∧ DeadLetter.originalMessage d = session.

(** C2 in general form: on a slot collision the session of the sender is
    emitted. *)
Definition slot_collision_always_emits : Prop :=
  ∀ now message c old,
    reachable c →
    Message.id message ∉ processedMessageIds c →
    isNoise (Message.text message) = false →
    OMap.get (Message.senderId message) (sessions c) = Some old →
    collides (identifySlot (Message.text message)) old = true →
    sessionDataOf now (Message.senderId message) old
    ∈ emitted (addMessage now message c).

(** C8 in general form: [flushAll] emits one record for each active
    session. *)
Definition flushAll_emits_every_session : Prop :=
  ∀ now c,
    reachable c →
    length (emitted (flushAll now c)) = length (emitted c) + length (sessions c)
    ∧ sessions (flushAll now c) = [].




(** * Vocabulary of the further properties *)

(** The pending timers of a sender. *)
Definition timersOf (k : string) (c : SessionCorrelator) : list Timer.t :=
  filter (λ t, Timer.sender t = k) (pending c).

(** A sender has the same session, the same entry in the timer table and the
    same pending timers in two correlators. *)
Definition untouched (k : string) (c c' : SessionCorrelator) : Prop :=
  OMap.get k (sessions c') = OMap.get k (sessions c)
  ∧ timers c' !! k = timers c !! k
  ∧ timersOf k c' = timersOf k c.

(** The session without the messages of an identifier: what [removeMessage]
    leaves of it. *)
Definition withoutMessage (messageId : string) (s : Session.t) : Session.t :=
  Session.mk (Session.senderId s) (Session.senderNumber s) (Session.pushName s)
    (filter (λ m, Buffered.id m ≠ messageId) (Session.messages s))
    (Session.slots s) (Session.startedAt s) (Session.lastMessageAt s).

(** The identifiers of buffered messages. *)
Definition idsOf (l : list Buffered.t) : list string := Buffered.id <$> l.

(** No buffered message is a greeting. *)
Definition noiseFree (l : list Buffered.t) : Prop :=
  Forall (λ m, isNoise (Buffered.text m) = false) l.

(** A session in the table: it is filed under its own sender, holds at least
    one message and fewer than the limit, and none of them is a greeting. *)
Definition tidySession (k : string) (s : Session.t) : Prop :=
  Session.senderId s = k
  ∧ (0 < length (Session.messages s) < maxMessages)%nat
  ∧ noiseFree (Session.messages s).

(** The same of every session of the table. *)
Definition tidySessions (c : SessionCorrelator) : Prop :=
  ∀ k s, (k, s) ∈ sessions c → tidySession k s.


(** Where a session of the table after an event comes from: it was there, or
    it is one of them less a revoked message, or it is one of them (or a new
    one) with the message of the event pushed, still below the limit. *)
Inductive Evolves (e : Event) (c : SessionCorrelator) (k : string)
    : Session.t → Prop :=
  | Kept s : (k, s) ∈ sessions c → Evolves e c k s
  | Shrunk messageId s :
      e = RemoveMessage k messageId →
      (k, s) ∈ sessions c →
      Evolves e c k (withoutMessage messageId s)
  | Grown now message base :
      e = AddMessage now message →
      k = Message.senderId message →
      isNoise (Message.text message) = false →
      base = freshSession now message ∨ (k, base) ∈ sessions c →
      (S (length (Session.messages base)) < maxMessages)%nat →
      Evolves e c k (buffer now message (identifySlot (Message.text message)) base).


(** Every session of the table has exactly one pending timer. *)
Definition live (c : SessionCorrelator) : Prop :=
  ∀ k s, (k, s) ∈ sessions c → ∃ t, timersOf k c = [t].

(** An event that brings no new message. *)
Definition quiet (e : Event) : Prop :=
  match e with
  | AddMessage _ _ => False
  | _ => True
  end.

(** ** The processing stage, continued *)

(** The first fault that [process] meets on its way through the store and
    the queue, if there is one. *)
Definition faultOf (w : World) : option string :=
  match dbFault w with
  | Some message => Some message
  | None =>
      if negb (isProducerConnected w) then Some "Kafka producer not connected"
      else brokerFault w ParsedMessages
  end.

(** The dead-letter queue takes what is sent to it. *)
Definition deadLetterOpen (w : World) : bool :=
  isProducerConnected w && bool_decide (brokerFault w DeadLetterQueue = None).

(** A character of a normalized number. *)
Definition isPhoneChar (c : ascii) : bool := JS.isDigit c || isPlus c.

(** The row that the handler of [process] writes for a session whose
    processing threw [error], under row id [id]. *)
Definition failedRow (id : nat) (now : Z) (session : SessionData.t) (error : string)
    : Contact.t :=
  Contact.mk id (SessionData.sessionId session) (SessionData.senderNumber session)
    (SessionData.pushName session) None None None 0%float
    (Some ("Processing error: " +:+ error)) Failed
    (SessionData.messages session) (SessionData.combinedText session)
    now now.

(** ** The WhatsApp client *)

(** The delays of the timers set by [n] calls of [handleReconnect] in a row,
    each made when a reconnection fails, from the counter on. *)
Fixpoint reconnections (n : nat) (reconnectAttempts : nat) : list Z :=
  match n with
  | O => []
  | S n' =>
      let '(reconnectAttempts, delay) := handleReconnect reconnectAttempts in
      match delay with
      | Some delay => delay :: reconnections n' reconnectAttempts
      | None => []
      end
  end.

(** No at sign occurs in the string. *)
Fixpoint atFree (s : string) : Prop :=
  match s with
  | EmptyString => True
  | String c s' => c ≠ "@"%char ∧ atFree s'
  end.

(** ** The session store *)

(** A character that [getFilePath] keeps. *)
Definition isSafeChar (c : ascii) : bool :=
  JS.isLower c || JS.isUpper c || JS.isDigit c || Ascii.eqb c "_" || Ascii.eqb c "-".

(** * Properties *)

(** ** The text classifier on examples *)

Example isNoise_hi : isNoise "Hi" = true. Proof. reflexivity. Qed.
Example isNoise_this : isNoise "this" = false. Proof. reflexivity. Qed.
Example isNoise_ok_ji : isNoise "  OK ji  " = true. Proof. reflexivity. Qed.
Example isNoise_single : isNoise "x" = true. Proof. reflexivity. Qed.
Example isNoise_long : isNoise "hello, my name is Rahul" = false. Proof. reflexivity. Qed.
Example isNoise_home : isNoise "home" = false. Proof. reflexivity. Qed.
Example isNoise_ram : isNoise "Ram Ram" = true. Proof. reflexivity. Qed.

Example identifySlot_mobile : identifySlot "9876543210" = SlotMobile.
Proof. reflexivity. Qed.
Example identifySlot_mobile_prefixed : identifySlot "call +919876543210 now" = SlotMobile.
Proof. reflexivity. Qed.
Example identifySlot_short_number : identifySlot "98765" = SlotUnknown.
Proof. reflexivity. Qed.
Example identifySlot_low_digit : identifySlot "1234567890" = SlotUnknown.
Proof. reflexivity. Qed.
Example identifySlot_name : identifySlot "Rahul Sharma" = SlotName.
Proof. reflexivity. Qed.
Example identifySlot_name3 : identifySlot " Rahul Kumar Sharma " = SlotName.
Proof. reflexivity. Qed.
Example identifySlot_name4 : identifySlot "Rahul Kumar Dev Sharma" = SlotUnknown.
Proof. reflexivity. Qed.
Example identifySlot_one_word : identifySlot "Rahul" = SlotUnknown.
Proof. reflexivity. Qed.
Example identifySlot_address : identifySlot "12 MG Road" = SlotAddress.
Proof. reflexivity. Qed.
Example identifySlot_six_words : identifySlot "a b c d e f" = SlotAddress.
Proof. reflexivity. Qed.
Example identifySlot_five_words : identifySlot "a b c d e" = SlotUnknown.
Proof. reflexivity. Qed.

Example isNoise_boundaries :
  map isNoise ["hi!"; "ahi"; "hi5"; "hi there"; "kaise  ho"; "thanksgiving";
               "ok ok ok ok ok"; "ok ok ok ok ok."]
  = [true; false; false; true; false; false; true; false].
Proof. reflexivity. Qed.

Example addressKeywords_boundaries :
  map (RegExp.test addressKeywords) ["1st"; "st."; "MG ROAD"; "roadside"]
  = [false; true; true; false].
Proof. reflexivity. Qed.

Example namePattern_words :
  map (RegExp.test namePattern) ["Ab Cd"; "Ab Cd Ef"; "Ab Cd Ef Gh"; "A Cd"; "Ab  Cd"]
  = [true; true; false; false; false].
Proof. reflexivity. Qed.

Example splitWhitespaceLength_pieces :
  map splitWhitespaceLength [EmptyString; " "; "a"; " a"; "a b"; "a  b "]
  = [1; 2; 1; 2; 2; 3].
Proof. reflexivity. Qed.

(** ** Strings *)

Lemma length_str (l : list ascii) : String.length (JS.str l) = length l.
Proof. induction l as [|c l IH]; simpl; [done|]. by rewrite IH. Qed.

Lemma chars_str (l : list ascii) : JS.chars (JS.str l) = l.
Proof. apply list_ascii_of_string_of_list_ascii. Qed.

Lemma str_chars (s : string) : JS.str (JS.chars s) = s.
Proof. apply string_of_list_ascii_of_string. Qed.

Lemma length_chars (s : string) : length (JS.chars s) = String.length s.
Proof. by rewrite <- (str_chars s) at 2; rewrite length_str. Qed.

Lemma truthy_false (s : string) : JS.truthy s = false ↔ s = EmptyString.
Proof.
  unfold JS.truthy. rewrite negb_false_iff. apply String.eqb_eq.
Qed.

Lemma truthy_true (s : string) : JS.truthy s = true ↔ s ≠ EmptyString.
Proof.
  unfold JS.truthy. rewrite negb_true_iff. apply String.eqb_neq.
Qed.

(** ** The noise filter *)

(** C6, as worded, fails: a greeting followed by blanks is sixteen
    characters long, yet it is noise, because the length that is compared
    with 15 is the length of the trimmed text. *)
Lemma isNoise_raw_length_refuted : ¬ isNoise_measures_raw_text.
Proof.
  intros H.
  destruct (proj1 (H "hi              ")) as [Hlen|[Hlen _]].
  - vm_compute. reflexivity.
  - simpl in Hlen. lia.
  - simpl in Hlen. lia.
Qed.

(** C6, amended: [isNoise text] holds exactly when the text is shorter than 2
    characters, or the text, once trimmed and lower-cased, is shorter than
    15 characters and matches at least one of the noise patterns. *)
Theorem isNoise_spec (text : string) :
  let cleanText := JS.toLowerCase (JS.trim text) in
  isNoise text = true
  ↔ String.length text < 2
    ∨ (String.length cleanText < 15 ∧ matchesNoisePattern cleanText).
Proof.
  intros cleanText. unfold isNoise. fold cleanText.
  destruct (JS.truthy text) eqn:Htruthy; cbn [negb orb].
  - destruct (String.length text <? 2)%nat eqn:Hshort.
    + apply Nat.ltb_lt in Hshort. split; auto.
    + apply Nat.ltb_ge in Hshort.
      destruct (String.length cleanText <? 15)%nat eqn:Hclean15.
      * apply Nat.ltb_lt in Hclean15. rewrite existsb_exists. split.
        -- intros (pattern & Hin & Htest). right. split; [done|].
           exists pattern. by rewrite list_elem_of_In.
        -- intros [?|[_ (pattern & Hin & Htest)]]; [lia|].
           exists pattern. by rewrite <- list_elem_of_In.
      * apply Nat.ltb_ge in Hclean15. split; [done|].
        intros [?|[? _]]; lia.
  - apply truthy_false in Htruthy. subst text. cbn [String.length]. split; auto with lia.
Qed.

(** ** Phone normalization *)

Lemma between_same (a c : ascii) : JS.between a a c = Ascii.eqb c a.
Proof.
  unfold JS.between, JS.code.
  destruct (Ascii.eqb_spec c a) as [->|Hne].
  - by rewrite N.leb_refl.
  - apply andb_false_iff.
    destruct (N.leb_spec (N_of_ascii a) (N_of_ascii c)); [right|by left].
    apply N.leb_gt.
    assert (N_of_ascii a ≠ N_of_ascii c); [|lia].
    intros Heq. apply Hne.
    by rewrite <- (ascii_N_embedding c), <- Heq, ascii_N_embedding.
Qed.

Lemma phone_class (c : ascii) :
  negb (RegExp.classMatches false true [("0", "9"); ("+", "+")]%char c)
  = JS.isDigit c || isPlus c.
Proof.
  unfold RegExp.classMatches, RegExp.inRanges, isPlus, JS.isDigit. simpl.
  rewrite between_same.
  by destruct (JS.between "0" "9" c), (Ascii.eqb c "+").
Qed.

Lemma stripNonPhone_filter (phone : string) :
  stripNonPhone phone
  = JS.str (List.filter (λ c, JS.isDigit c || isPlus c) (JS.chars phone)).
Proof.
  unfold stripNonPhone. f_equal. apply List.filter_ext. intros c. apply phone_class.
Qed.

Lemma normalized_keptOf (phone : string) :
  (if JS.startsWith (stripNonPhone phone) "+"
   then JS.substring1 (stripNonPhone phone) else stripNonPhone phone)
  = keptOf phone.
Proof.
  rewrite stripNonPhone_filter. unfold keptOf.
  destruct (List.filter _ (JS.chars phone)) as [|c rest]; [done|].
  simpl. unfold isPlus. by destruct (Ascii.eqb c "+").
Qed.

Lemma isDigit_not_plus (c : ascii) : JS.isDigit c = true → isPlus c = false.
Proof.
  unfold isPlus. destruct (Ascii.eqb_spec c "+") as [->|]; [|done].
  vm_compute. discriminate.
Qed.

Lemma filter_no_plus (l : list ascii) :
  forallb (λ c, negb (isPlus c)) l = true →
  List.filter (λ c, JS.isDigit c || isPlus c) l = List.filter JS.isDigit l.
Proof.
  induction l as [|c l IH]; [done|]. simpl. intros [Hc Hl]%andb_true_iff.
  apply negb_true_iff in Hc. rewrite Hc, orb_false_r, (IH Hl). done.
Qed.

Lemma kept_digits (l : list ascii) :
  plusOnlyInFrontOf l = true →
  match List.filter (λ c, JS.isDigit c || isPlus c) l with
  | c :: rest =>
      if isPlus c then rest
      else List.filter (λ c, JS.isDigit c || isPlus c) l
  | [] => []
  end = List.filter JS.isDigit l.
Proof.
  induction l as [|c l IH]; [done|]. simpl.
  destruct (JS.isDigit c) eqn:Hd; simpl.
  - intros Hrest. by rewrite (isDigit_not_plus c Hd), (filter_no_plus l Hrest).
  - destruct (isPlus c) eqn:Hp; simpl.
    + intros Hrest. rewrite Hp. by rewrite (filter_no_plus l Hrest).
    + exact IH.
Qed.

Lemma keptOf_digits (phone : string) :
  plusOnlyInFront phone = true → keptOf phone = digitsOf phone.
Proof.
  intros Hfront. unfold keptOf, digitsOf. f_equal. by apply kept_digits.
Qed.

(** C4, as worded, fails on two kinds of input: the empty string, for which
    the source answers [null], and a string with a plus sign after its first
    digit, which stays in the result. *)
Lemma normalizePhoneNumber_refuted :
  normalizePhoneNumber (Some EmptyString) ≠ Some (normalizedAsSpecified EmptyString)
  ∧ normalizePhoneNumber (Some "+91+9876543210")
    ≠ Some (normalizedAsSpecified "+91+9876543210")
  ∧ normalizePhoneNumber (Some "+91+9876543210") = Some "91+9876543210".
Proof. vm_compute. repeat split; discriminate. Qed.

(** C4, amended: for every non-empty input string, phone normalization
    removes every character that is neither a digit nor a plus sign and
    drops one plus sign in front; if what remains has a length outside
    [10,15] the input is returned unchanged, otherwise what remains is
    returned.  When no plus sign comes after the first digit or plus sign,
    what remains is the digits of the input.  In particular
    "+91 98765 43210" normalizes to "919876543210" and "12345" is returned
    unchanged. *)
Theorem normalizePhoneNumber_spec (phone : string) :
  phone ≠ EmptyString →
  normalizePhoneNumber (Some phone)
  = Some (if (String.length (keptOf phone) <? 10)%nat
             || (15 <? String.length (keptOf phone))%nat
          then phone else keptOf phone)
  ∧ (plusOnlyInFront phone = true →
     normalizePhoneNumber (Some phone) = Some (normalizedAsSpecified phone))
  ∧ normalizePhoneNumber (Some "+91 98765 43210") = Some "919876543210"
  ∧ normalizePhoneNumber (Some "12345") = Some "12345".
Proof.
  intros Hne.
  assert (Heq : normalizePhoneNumber (Some phone)
                = Some (if (String.length (keptOf phone) <? 10)%nat
                           || (15 <? String.length (keptOf phone))%nat
                        then phone else keptOf phone)).
  { unfold normalizePhoneNumber.
    apply truthy_true in Hne. rewrite Hne. cbn [negb].
    rewrite normalized_keptOf.
    by destruct ((String.length (keptOf phone) <? 10)%nat
                 || (15 <? String.length (keptOf phone))%nat). }
  split; [exact Heq|]. split.
  - intros Hfront. rewrite Heq. unfold normalizedAsSpecified.
    by rewrite (keptOf_digits phone Hfront).
  - split; vm_compute; reflexivity.
Qed.

Lemma normalizePhoneNumber_spec_witness :
  "+91 98765 43210" ≠ EmptyString
  ∧ plusOnlyInFront "+91 98765 43210" = true
  ∧ normalizePhoneNumber (Some "+91 98765 43210")
    = Some (normalizedAsSpecified "+91 98765 43210").
Proof.
  assert (Hne : "+91 98765 43210" ≠ EmptyString) by discriminate.
  split; [exact Hne|]. split; [reflexivity|].
  destruct (normalizePhoneNumber_spec "+91 98765 43210" Hne) as (_ & Hfront & _).
  apply Hfront. reflexivity.
Defined.

(** ** The processing stage *)

Lemma extractContactInfo_exhausted llm now session :
  firstResponse llm = None →
  extractContactInfo llm now session
  = (exhausted now session (Some (errorMessage (llm 3))),
     [backoffDelay 1; backoffDelay 2]).
Proof.
  unfold firstResponse, extractContactInfo, maxRetries. simpl.
  destruct (llm 1); destruct (llm 2); destruct (llm 3); done.
Qed.

Lemma extractContactInfo_responded llm now session data :
  firstResponse llm = Some data →
  ∃ delays, extractContactInfo llm now session = (succeeded now session data, delays).
Proof.
  unfold firstResponse, extractContactInfo, maxRetries. simpl.
  destruct (llm 1); [| |intros [= ->]; by eexists];
    (destruct (llm 2); [| |intros [= ->]; by eexists]);
    (destruct (llm 3); [done|done|intros [= ->]; by eexists]).
Qed.

(** In a healthy world [process] returns what [extractContactInfo] produced,
    with its status set, after saving it, forwarding it and broadcasting it;
    nothing is thrown and nothing reaches the dead-letter queue. *)
Lemma process_healthy now llm session w :
  healthy w →
  ∃ w',
    let p := (extractContactInfo llm now session).1 in
    let r := ParsedData.withStatus (classify p) p in
    process now llm session w = (w', inl r)
    ∧ (∃ row, row ∈ contacts w' ∧ savedAs r row)
    ∧ parsedMessages w' = parsedMessages w ++ [r]
    ∧ deadLetterQueue w' = deadLetterQueue w
    ∧ slept w' = slept w ++ (extractContactInfo llm now session).2.
Proof.
  intros (Hdb & Hconn & Hbroker).
  destruct (extractContactInfo llm now session) as [p delays] eqn:Hextract.
  destruct w as [cs rid pm dlq bs sl db conn bf].
  cbn in Hdb, Hconn, Hbroker. subst db conn.
  eexists. cbn [fst snd].
  unfold process, tryCatch, bind. rewrite Hextract.
  unfold sleep, saveContact, sendParsedMessage, sendGuard, broadcast, ret, bind.
  cbn [dbFault isProducerConnected brokerFault negb lastInsertRowid contacts
       parsedMessages deadLetterQueue broadcasts slept].
  rewrite Hbroker.
  split; [reflexivity|].
  cbn [contacts parsedMessages deadLetterQueue slept].
  split; [|done].
  eexists. split; [apply elem_of_app; right; apply list_elem_of_singleton; reflexivity|].
  by repeat split.
Qed.

(** C1, as worded, fails: with the store and the queue in order,
    [extractContactInfo] swallows the three failures and returns a result,
    which [process] saves, forwards and returns; the dead-letter queue stays
    empty and nothing is thrown. *)
Lemma exhausted_retries_dead_letter_refuted : ¬ exhausted_retries_dead_lettered.
Proof.
  intros H.
  destruct (H 20000%Z (λ _, Throws "timeout") rahulSession quietWorld eq_refl)
    as (w' & e & Hprocess & _).
  vm_compute in Hprocess. discriminate.
Qed.

(** C1, amended: for every finalized session record whose extraction fails
    on all 3 attempts, the last error carrying a message, [process], with
    the store and the queue in order, produces and persists a result with
    status "failed", name, address and mobile null, confidence 0 and notes
    carrying the last error message, forwards it to the parsed-messages
    topic and returns it to the caller; it sends nothing to the dead-letter
    queue and throws nothing. *)
Theorem exhausted_retries_recorded now llm session w :
  healthy w →
  firstResponse llm = None →
  JS.truthy (errorMessage (llm 3)) = true →
  ∃ w' r,
    process now llm session w = (w', inl r)
    ∧ ParsedData.status r = Some Failed
    ∧ ParsedData.extracted r
      = Extracted.mk None None None 0%float
          (Some ("Extraction failed: " +:+ errorMessage (llm 3)))
    ∧ ParsedData.error r = Some (errorMessage (llm 3))
    ∧ (∃ row,
         row ∈ contacts w'
         ∧ Contact.session_id row = SessionData.sessionId session
         ∧ Contact.status row = Failed
         ∧ Contact.extracted_name row = None
         ∧ Contact.extracted_address row = None
         ∧ Contact.extracted_mobile row = None
         ∧ Contact.notes row
           = Some ("Extraction failed: " +:+ errorMessage (llm 3)))
    ∧ parsedMessages w' = parsedMessages w ++ [r]
    ∧ deadLetterQueue w' = deadLetterQueue w
    ∧ slept w' = slept w ++ [2000; 4000]%Z.
Proof.
  intros Hw Hnone Hmessage.
  destruct (process_healthy now llm session w Hw)
    as (w' & Hprocess & (row & Hrow & Hsaved) & Hparsed & Hdead & Hslept).
  rewrite (extractContactInfo_exhausted llm now session Hnone) in *.
  cbn [fst snd] in *.
  assert (Hclass : classify (exhausted now session (Some (errorMessage (llm 3))))
                   = Failed).
  { unfold classify, exhausted. cbn [ParsedData.error JS.truthyOpt]. by rewrite Hmessage. }
  rewrite Hclass in *.
  eexists w', _. split; [exact Hprocess|].
  split; [done|]. split; [done|]. split; [done|].
  split.
  { exists row. destruct Hsaved as (? & ? & ? & ? & ? & ?). by repeat split. }
  done.
Qed.

Lemma exhausted_retries_recorded_witness :
  ∃ w' r,
    process 20000%Z (λ _, Throws "timeout") rahulSession quietWorld = (w', inl r)
    ∧ ParsedData.status r = Some Failed
    ∧ deadLetterQueue w' = [].
Proof.
  destruct (exhausted_retries_recorded 20000%Z (λ _, Throws "timeout")
              rahulSession quietWorld)
    as (w' & r & Hprocess & Hstatus & _ & _ & _ & _ & Hdead & _).
  - repeat split.
  - reflexivity.
  - reflexivity.
  - exists w', r. repeat split; assumption.
Defined.

(** Where the dead-letter queue does come in: when forwarding the result
    throws, the handler of [process] saves a failed entry, dead-letters the
    session with the error and throws the error on. *)
Lemma forwarding_failure_dead_lettered now llm session w e :
  dbFault w = None →
  isProducerConnected w = true →
  brokerFault w ParsedMessages = Some e →
  brokerFault w DeadLetterQueue = None →
  ∃ w',
    process now llm session w = (w', inr e)
    ∧ deadLetterQueue w' = deadLetterQueue w ++ [DeadLetter.mk session e now]
    ∧ parsedMessages w' = parsedMessages w.
Proof.
  intros Hdb Hconn Hparsed Hdead.
  destruct (extractContactInfo llm now session) as [p delays] eqn:Hextract.
  destruct w as [cs rid pm dlq bs sl db conn bf].
  cbn in Hdb, Hconn, Hparsed, Hdead. subst db conn.
  eexists.
  unfold process, tryCatch, bind. rewrite Hextract.
  unfold sleep, saveContact, sendParsedMessage, sendToDeadLetter, sendGuard,
    broadcast, ret, throw, tryCatch, bind.
  cbn [dbFault isProducerConnected brokerFault negb lastInsertRowid contacts
       parsedMessages deadLetterQueue broadcasts slept].
  rewrite Hparsed.
  cbn [dbFault isProducerConnected brokerFault negb lastInsertRowid contacts
       parsedMessages deadLetterQueue broadcasts slept].
  rewrite Hdead. done.
Qed.






Lemma confidenceOrDefault_nonzero (o : option float) :
  (confidenceOrDefault o =? 0)%float = false.
Proof.
  unfold confidenceOrDefault, truthyNumber.
  destruct o as [x|]; [|reflexivity].
  destruct (x =? 0)%float eqn:Hzero; [reflexivity|].
  cbn [orb]. destruct (negb (x =? x)%float); [reflexivity|exact Hzero].
Qed.

(** C9: when an extraction attempt succeeds and the confidence it returns
    is 0 or missing, [extractContactInfo] puts 0.5 in the result, which is
    then classified "processed"; no successful extraction reaches the
    classifier with confidence 0. *)
Theorem missing_confidence_defaults now llm session w data :
  healthy w →
  firstResponse llm = Some data →
  ∃ w' r,
    process now llm session w = (w', inl r)
    ∧ (confidenceOf r =? 0)%float = false
    ∧ (ExtractedData.confidence data = None
       ∨ ExtractedData.confidence data = Some 0%float
       ∨ ExtractedData.confidence data = Some (-0)%float →
       confidenceOf r = 0.5%float ∧ ParsedData.status r = Some Processed).
Proof.
  intros Hw Hfirst.
  destruct (process_healthy now llm session w Hw) as (w' & Hprocess & _).
  cbv zeta in Hprocess.
  destruct (extractContactInfo_responded llm now session data Hfirst)
    as [delays Hextract].
  rewrite Hextract in Hprocess. cbn [fst] in Hprocess.
  eexists w', _. split; [exact Hprocess|].
  split.
  - apply confidenceOrDefault_nonzero.
  - intros Hzero.
    assert (Hdefault : confidenceOrDefault (ExtractedData.confidence data) = 0.5%float)
      by (destruct Hzero as [->|[->| ->]]; reflexivity).
    split; [exact Hdefault|].
    unfold classify, succeeded.
    cbn [ParsedData.withStatus ParsedData.status ParsedData.error
         ParsedData.extracted Extracted.confidence JS.truthyOpt].
    by rewrite Hdefault.
Qed.

Lemma missing_confidence_defaults_witness :
  ∃ w' r,
    process 20000%Z (respondsWith None) rahulSession quietWorld = (w', inl r)
    ∧ confidenceOf r = 0.5%float
    ∧ ParsedData.status r = Some Processed.
Proof.
  destruct (missing_confidence_defaults 20000%Z (respondsWith None) rahulSession
              quietWorld (ExtractedData.mk (Some "Rahul Sharma") None
                            (Some "9876543210") None None))
    as (w' & r & Hprocess & _ & Hdefault).
  - repeat split.
  - reflexivity.
  - exists w', r. split; [exact Hprocess|]. apply Hdefault. by left.
Defined.

(** ** Insertion-ordered containers *)

Section OMapFacts.
Context {V : Type}.
Implicit Types (m : list (string * V)) (k : string) (v : V).

Lemma OMap_get_set_eq m k v : OMap.get k (OMap.set k v m) = Some v.
Proof.
  induction m as [|[k' v'] m IH]; cbn [OMap.get OMap.set fmap list_fmap fst snd].
  - by rewrite decide_True.
  - destruct (decide (k' = k)) as [->|Hne]; cbn [OMap.get OMap.set fmap list_fmap fst snd].
    + by rewrite decide_True.
    + by rewrite decide_False.
Qed.

Lemma OMap_get_set_ne m k k' v :
  k ≠ k' → OMap.get k' (OMap.set k v m) = OMap.get k' m.
Proof.
  intros Hne. induction m as [|[k0 v0] m IH]; cbn [OMap.get OMap.set fmap list_fmap fst snd].
  - by rewrite decide_False.
  - destruct (decide (k0 = k)) as [->|Hne0]; cbn [OMap.get OMap.set fmap list_fmap fst snd].
    + by rewrite !decide_False.
    + by rewrite IH.
Qed.

Lemma OMap_get_Some m k v : OMap.get k m = Some v → (k, v) ∈ m.
Proof.
  induction m as [|[k' v'] m IH]; cbn [OMap.get OMap.set fmap list_fmap fst snd]; [done|].
  destruct (decide (k' = k)) as [->|Hne].
  - intros [= ->]. apply list_elem_of_here.
  - intros Hget. apply list_elem_of_further. by apply IH.
Qed.

Lemma OMap_get_None m k : OMap.get k m = None ↔ k ∉ OMap.keys m.
Proof.
  unfold OMap.keys. induction m as [|[k' v'] m IH]; cbn [OMap.get OMap.set fmap list_fmap fst snd].
  - split; [intros _; apply not_elem_of_nil|done].
  - rewrite not_elem_of_cons. destruct (decide (k' = k)) as [->|Hne].
    + split; [done|]. by intros [? _].
    + rewrite IH. split; [by split|by intros [_ ?]].
Qed.

Lemma OMap_elem_get m k v :
  NoDup (OMap.keys m) → (k, v) ∈ m → OMap.get k m = Some v.
Proof.
  unfold OMap.keys. induction m as [|[k' v'] m IH]; cbn [OMap.get OMap.set fmap list_fmap fst snd].
  - intros _ Hin. by apply elem_of_nil in Hin.
  - intros [Hnotin Hnodup]%NoDup_cons [Heq|Hin]%elem_of_cons.
    + injection Heq as -> ->. by rewrite decide_True.
    + destruct (decide (k' = k)) as [->|Hne]; [|by apply IH].
      exfalso. apply Hnotin. apply list_elem_of_fmap. by exists (k, v).
Qed.

Lemma OMap_elem_set m k v k' v' :
  (k', v') ∈ OMap.set k v m → (k', v') = (k, v) ∨ (k', v') ∈ m.
Proof.
  induction m as [|[k0 v0] m IH]; cbn [OMap.get OMap.set fmap list_fmap fst snd].
  - intros ->%list_elem_of_singleton. by left.
  - destruct (decide (k0 = k)) as [->|Hne].
    + intros [->|Hin]%elem_of_cons; [by left|]. right. by apply list_elem_of_further.
    + intros [->|Hin]%elem_of_cons; [right; apply list_elem_of_here|].
      destruct (IH Hin) as [?|?]; [by left|]. right. by apply list_elem_of_further.
Qed.

Lemma OMap_keys_set m k v :
  OMap.keys (OMap.set k v m)
  = if decide (k ∈ OMap.keys m) then OMap.keys m else OMap.keys m ++ [k].
Proof.
  unfold OMap.keys. induction m as [|[k0 v0] m IH]; cbn [OMap.get OMap.set fmap list_fmap fst snd].
  - by rewrite decide_False by apply not_elem_of_nil.
  - destruct (decide (k0 = k)) as [->|Hne]; cbn [OMap.get OMap.set fmap list_fmap fst snd].
    + by rewrite decide_True by apply list_elem_of_here.
    + rewrite IH. destruct (decide (k ∈ m.*1)) as [Hin|Hnotin].
      * by rewrite decide_True by (by apply list_elem_of_further).
      * rewrite decide_False; [done|].
        intros [?|?]%elem_of_cons; congruence.
Qed.

Lemma OMap_NoDup_set m k v :
  NoDup (OMap.keys m) → NoDup (OMap.keys (OMap.set k v m)).
Proof.
  intros Hnodup. rewrite OMap_keys_set. case_decide; [done|].
  apply NoDup_app. split; [done|]. split; [|apply NoDup_singleton].
  intros x Hx ->%list_elem_of_singleton. done.
Qed.

Lemma OMap_elem_delete m k k' v' :
  (k', v') ∈ OMap.delete k m ↔ (k', v') ∈ m ∧ k' ≠ k.
Proof.
  unfold OMap.delete. rewrite list_elem_of_filter. cbn [OMap.get OMap.set fmap list_fmap fst snd]. tauto.
Qed.

Lemma OMap_keys_delete m k x :
  x ∈ OMap.keys (OMap.delete k m) → x ∈ OMap.keys m.
Proof.
  unfold OMap.keys. intros ([k' v'] & -> & Hin)%list_elem_of_fmap.
  apply OMap_elem_delete in Hin as [Hin _].
  apply list_elem_of_fmap. by exists (k', v').
Qed.

Lemma OMap_NoDup_delete m k :
  NoDup (OMap.keys m) → NoDup (OMap.keys (OMap.delete k m)).
Proof.
  unfold OMap.keys, OMap.delete. induction m as [|[k0 v0] m IH]; cbn [OMap.get OMap.set fmap list_fmap fst snd]; [done|].
  intros [Hnotin Hnodup]%NoDup_cons.
  rewrite filter_cons. cbn [OMap.get OMap.set fmap list_fmap fst snd]. case_decide.
  - cbn [OMap.get OMap.set fmap list_fmap fst snd]. apply NoDup_cons. split; [|by apply IH].
    intros Hin. apply Hnotin. by apply (OMap_keys_delete m k).
  - by apply IH.
Qed.

Lemma OMap_get_delete m k : OMap.get k (OMap.delete k m) = None.
Proof.
  apply OMap_get_None. unfold OMap.keys.
  intros ([k' v'] & -> & Hin)%list_elem_of_fmap.
  by apply OMap_elem_delete in Hin as [_ ?].
Qed.

Lemma OMap_delete_head m k v :
  k ∉ OMap.keys m → OMap.delete k ((k, v) :: m) = m.
Proof.
  unfold OMap.delete, OMap.keys. intros Hnotin.
  rewrite filter_cons. cbn [OMap.get OMap.set fmap list_fmap fst snd]. rewrite decide_False by (by intros ?).
  induction m as [|[k0 v0] m IH]; [done|].
  rewrite filter_cons. cbn [OMap.get OMap.set fmap list_fmap fst snd]. apply not_elem_of_cons in Hnotin as [Hne Hnotin].
  rewrite decide_True by done. f_equal. by apply IH.
Qed.

End OMapFacts.

Lemma OSet_has_true (x : string) (s : list string) : OSet.has x s = true ↔ x ∈ s.
Proof. unfold OSet.has. apply bool_decide_eq_true. Qed.

Lemma OSet_has_false (x : string) (s : list string) : OSet.has x s = false ↔ x ∉ s.
Proof. unfold OSet.has. apply bool_decide_eq_false. Qed.

Lemma OSet_elem_delete (x y : string) (s : list string) :
  y ∈ OSet.delete x s ↔ y ∈ s ∧ y ≠ x.
Proof. unfold OSet.delete. rewrite list_elem_of_filter. tauto. Qed.

Lemma OSet_elem_deletes (y : string) (xs s : list string) :
  y ∈ foldl (λ acc x, OSet.delete x acc) s xs ↔ y ∈ s ∧ y ∉ xs.
Proof.
  revert s. induction xs as [|x xs IH]; intros s; simpl.
  - split; [intros ?; split; [done|apply not_elem_of_nil]|by intros [? _]].
  - rewrite IH, OSet_elem_delete, not_elem_of_cons. tauto.
Qed.

Lemma OSet_elem_evictOldest (y : string) (n : nat) (s : list string) :
  y ∈ OSet.evictOldest n s ↔ y ∈ s ∧ y ∉ take n s.
Proof. apply OSet_elem_deletes. Qed.


(** Nothing is evicted while the set stays within its ceiling. *)
Lemma OSet_addBounded_keeps (ceiling batch : nat) (x y : string) (s : list string) :
  (length s < ceiling)%nat → y ∈ s → y ∈ OSet.addBounded ceiling batch x s.
Proof.
  intros Hroom Hin. unfold OSet.addBounded, OSet.add.
  destruct (OSet.has x s).
  - by rewrite (proj2 (Nat.ltb_ge _ _)) by lia.
  - rewrite (proj2 (Nat.ltb_ge _ _)) by (rewrite length_app; simpl; lia).
    apply elem_of_app. by left.
Qed.

(** ** Duplicate messages *)

Lemma processSession_ids now senderId c :
  processedMessageIds (processSession now senderId c) = processedMessageIds c.
Proof.
  unfold processSession.
  destruct (OMap.get senderId (sessions c)) as [session|]; [|done].
  destruct (length (Session.messages session) =? 0)%nat; [done|].
  destruct (OSet.has _ _); [done|].
  unfold clearTimer. cbn [timers withProcessedSessions].
  by destruct (timers c !! senderId).
Qed.

Lemma openSession_ids now message slot c :
  processedMessageIds (openSession now message slot c).1 = processedMessageIds c.
Proof.
  unfold openSession.
  destruct (OMap.get _ _) as [s|]; [|done].
  destruct (bool_decide _ && _); [|done].
  cbn [fst withSessions processedMessageIds]. apply processSession_ids.
Qed.

(** The identifiers that the cache holds once a call of [addMessage] that
    was not a duplicate is over. *)
Lemma addMessage_ids now message c :
  OSet.has (Message.id message) (processedMessageIds c) = false →
  processedMessageIds (addMessage now message c)
  = OSet.addBounded 10000 5000 (Message.id message) (processedMessageIds c).
Proof.
  intros Hfresh. unfold addMessage, intake. rewrite Hfresh.
  destruct (isNoise _); [done|].
  destruct (openSession _ _ _ _) as [c1 session] eqn:Hopen.
  assert (Hids : processedMessageIds c1
                 = OSet.addBounded 10000 5000 (Message.id message)
                     (processedMessageIds c)).
  { change c1 with (c1, session).1. rewrite <- Hopen. by rewrite openSession_ids. }
  destruct (maxMessages <=? _)%nat; [rewrite processSession_ids|]; exact Hids.
Qed.



Lemma addMessage_seen now message c :
  Message.id message ∈ processedMessageIds c → addMessage now message c = c.
Proof.
  intros Hseen%OSet_has_true. unfold addMessage, intake. by rewrite Hseen.
Qed.

(** A duplicate is still recognised after other messages have come in, as
    long as the cache has not gone over its ceiling since. *)
Lemma addMessage_keeps_id now message c (id : string) :
  (length (processedMessageIds c) < 10000)%nat →
  id ∈ processedMessageIds c →
  id ∈ processedMessageIds (addMessage now message c).
Proof.
  intros Hroom Hin.
  destruct (OSet.has (Message.id message) (processedMessageIds c)) eqn:Hseen.
  - apply OSet_has_true in Hseen. by rewrite addMessage_seen.
  - rewrite (addMessage_ids now message c Hseen). by apply OSet_addBounded_keeps.
Qed.

Lemma clearTimer_ids k c :
  processedMessageIds (clearTimer k c) = processedMessageIds c.
Proof. unfold clearTimer. by destruct (timers c !! k). Qed.

Lemma removeMessage_ids senderId messageId c :
  processedMessageIds (removeMessage senderId messageId c) = processedMessageIds c.
Proof.
  unfold removeMessage. destruct (OMap.get _ _); [|done].
  destruct (_ <? _)%nat; [|done]. destruct (_ =? _)%nat; [|done].
  by rewrite clearTimer_ids.
Qed.

Lemma fire_ids now h c : processedMessageIds (fire now h c) = processedMessageIds c.
Proof.
  unfold fire. destruct (List.find _ _); [|done]. by rewrite processSession_ids.
Qed.

Lemma flush_ids now (ks : list string) c :
  processedMessageIds (foldl (λ c k, processSession now k c) c ks)
  = processedMessageIds c.
Proof.
  revert c. induction ks as [|k ks IH]; intros c; [done|].
  cbn. by rewrite IH, processSession_ids.
Qed.




(** *** Eviction from the cache of identifiers *)




#[local] Instance floodId_inj : Inj (=) (=) floodId.
Proof. intros a b [= Heq]. by apply (inj pretty). Qed.









(** ** The invariant *)

Lemma wellFormed_constructor timeoutSeconds : wellFormed (constructor timeoutSeconds).
Proof.
  constructor; cbn.
  - apply NoDup_nil_2.
  - intros k s Hin. by apply elem_of_nil in Hin.
  - intros k s Hin. by apply elem_of_nil in Hin.
  - intros t Hin. by apply elem_of_nil in Hin.
  - intros k h Hk. by rewrite lookup_empty in Hk.
Qed.

Lemma wellFormed_delete c k :
  wellFormed c → wellFormed (withSessions (OMap.delete k (sessions c)) c).
Proof.
  intros [Hkeys Hmessages Hslots Htimers Hhandles]. constructor; cbn; try done.
  - by apply OMap_NoDup_delete.
  - intros k' s [Hin _]%OMap_elem_delete. by apply (Hmessages k').
  - intros k' s [Hin _]%OMap_elem_delete. by apply (Hslots k').
Qed.

Lemma elem_of_clearTimeout (t : Timer.t) (h : nat) (l : list Timer.t) :
  t ∈ clearTimeout h l ↔ t ∈ l ∧ Timer.handle t ≠ h.
Proof. unfold clearTimeout. rewrite list_elem_of_filter. tauto. Qed.

Lemma wellFormed_clearTimer c k : wellFormed c → wellFormed (clearTimer k c).
Proof.
  intros [Hkeys Hmessages Hslots Htimers Hhandles]. unfold clearTimer.
  destruct (timers c !! k) as [h|] eqn:Hk; [|by constructor].
  constructor; cbn; try done.
  - intros t [Hin Hne]%elem_of_clearTimeout k'.
    rewrite lookup_delete_Some, (Htimers t Hin k'). split; [by intros [_ ?]|].
    intros ->. split; [|done]. intros ->.
    apply Hne. pose proof (proj2 (Htimers t Hin _) eq_refl). congruence.
  - intros k' h' [_ Hk']%lookup_delete_Some. by apply (Hhandles k').
Qed.

Lemma wellFormed_processSession now k c :
  wellFormed c → wellFormed (processSession now k c).
Proof.
  intros Hwf. unfold processSession.
  destruct (OMap.get k (sessions c)) as [session|]; [|done].
  destruct (length (Session.messages session) =? 0)%nat; [done|].
  destruct (OSet.has _ _); [by apply wellFormed_delete|].
  apply (wellFormed_delete (emit _ (clearTimer k (withProcessedSessions _ c)))).
  assert (Hmarked : ∀ v, wellFormed (withProcessedSessions v c))
    by (intros v; destruct Hwf; by constructor).
  destruct (wellFormed_clearTimer _ k (Hmarked
              (OSet.addBounded 1000 500 (sessionIdOf k session) (processedSessions c)))).
  by constructor.
Qed.

(** After [resetTimer] the pending timers are those of the other senders
    and the new timer of this one. *)
Lemma pending_resetTimer (t : Timer.t) k timeout c :
  wellFormed c →
  t ∈ pending (resetTimer k timeout c)
  ↔ (t ∈ pending c ∧ Timer.sender t ≠ k) ∨ t = Timer.mk (nextHandle c) k timeout.
Proof.
  intros [_ _ _ Htimers _]. unfold resetTimer. cbn [pending].
  rewrite elem_of_app, list_elem_of_singleton.
  apply or_iff_compat_r.
  destruct (timers c !! k) as [h|] eqn:Hk.
  - rewrite elem_of_clearTimeout. split.
    + intros [Hin Hne]. split; [done|]. intros <-.
      apply Hne. pose proof (proj2 (Htimers t Hin _) eq_refl). congruence.
    + intros [Hin Hne]. split; [done|]. intros <-. apply Hne.
      symmetry. by apply (Htimers t Hin).
  - split; [|by intros [? _]]. intros Hin. split; [done|]. intros <-.
    pose proof (proj2 (Htimers t Hin _) eq_refl). congruence.
Qed.

Lemma wellFormed_resetTimer k timeout c :
  wellFormed c → wellFormed (resetTimer k timeout c).
Proof.
  intros Hwf. pose proof (pending_resetTimer) as Hpending.
  destruct Hwf as [Hkeys Hmessages Hslots Htimers Hhandles] eqn:E. clear E.
  constructor; try done.
  - intros t [[Hin Hne]| ->]%(Hpending t k timeout c) k'; [| |done].
    + cbn [timers resetTimer]. rewrite lookup_insert_Some.
      rewrite (Htimers t Hin k'). split.
      * intros [[_ Hfresh]|[_ ?]]; [|done].
        pose proof (proj2 (Htimers t Hin _) eq_refl) as Hrec.
        apply Hhandles in Hrec. lia.
      * intros ->. right. by split.
    + cbn [timers resetTimer Timer.sender Timer.handle].
      rewrite lookup_insert_Some. split; [|intros ->; by left].
      intros [[? _]|[_ Hk']]; [done|]. apply Hhandles in Hk'. lia.
  - intros k' h'. cbn [timers nextHandle resetTimer].
    rewrite lookup_insert_Some. intros [[_ <-]|[_ Hk']]; [lia|].
    apply Hhandles in Hk'. lia.
Qed.

(** ** The shape of an intake *)

Lemma OMap_set_set {V} (m : list (string * V)) k v v0 :
  OMap.set k v (OMap.set k v0 m) = OMap.set k v m.
Proof.
  induction m as [|[k' v'] m IH]; cbn [OMap.set].
  - by rewrite decide_True.
  - destruct (decide (k' = k)) as [->|Hne]; cbn [OMap.set].
    + by rewrite decide_True.
    + by rewrite decide_False, IH.
Qed.

Lemma isNoise_false_nonempty text : isNoise text = false → text ≠ EmptyString.
Proof. intros Hnoise ->. discriminate. Qed.

Lemma intake_armed now message c c' s :
  intake now message c = Armed c' s →
  ∃ c0 base,
    Opening now message (recorded message c) c0 base
    ∧ s = buffer now message (identifySlot (Message.text message)) base
    ∧ c' = resetTimer (Message.senderId message)
             (adaptiveTimeoutMs c0 (Session.slots s))
             (withSessions (OMap.set (Message.senderId message) s (sessions c0)) c0)
    ∧ (Message.id message ∉ processedMessageIds c)
    ∧ isNoise (Message.text message) = false.
Proof.
  unfold intake.
  destruct (OSet.has _ _) eqn:Hseen; [done|].
  fold (recorded message c).
  destruct (isNoise _) eqn:Hnoise; [done|].
  unfold openSession. cbn [sessions].
  destruct (OMap.get (Message.senderId message) (sessions (recorded message c)))
    as [old|] eqn:Hget.
  - fold (collides (identifySlot (Message.text message)) old).
    destruct (collides _ old) eqn:Hcollides.
    + fold (freshSession now message). intros [= <- <-].
      eexists _, _. split; [by eapply Collides|].
      split; [done|]. cbn [sessions withSessions]. rewrite OMap_set_set.
      split; [done|]. split; [by apply OSet_has_false|done].
    + intros [= <- <-].
      eexists _, _. split; [by eapply Joins|].
      split; [done|]. split; [done|]. split; [by apply OSet_has_false|done].
  - fold (freshSession now message). intros [= <- <-].
    eexists _, _. split; [by eapply Starts|].
    split; [done|]. cbn [sessions withSessions]. rewrite OMap_set_set.
    split; [done|]. split; [by apply OSet_has_false|done].
Qed.

Lemma intake_fresh now message c :
  Message.id message ∉ processedMessageIds c →
  isNoise (Message.text message) = false →
  ∃ c' s, intake now message c = Armed c' s.
Proof.
  intros Hfresh%OSet_has_false Hnoise. unfold intake. rewrite Hfresh, Hnoise.
  destruct (openSession _ _ _ _). by eexists _, _.
Qed.

Lemma wellFormed_recorded message c : wellFormed c → wellFormed (recorded message c).
Proof. intros []. by constructor. Qed.

Lemma slotsFilled_empty : slotsFilled Slots.empty.
Proof. intros [] v; discriminate. Qed.

Lemma slotsFilled_set slot text s :
  text ≠ EmptyString → slotsFilled s → slotsFilled (Slots.set slot text s).
Proof.
  intros Htext Hfilled slot' v.
  destruct slot, slot'; cbn; try (intros [= <-]; exact Htext);
    try (intros Hv; by apply (Hfilled SlotName));
    try (intros Hv; by apply (Hfilled SlotMobile));
    try (intros Hv; by apply (Hfilled SlotAddress));
    discriminate.
Qed.

Lemma wellFormed_opening now message c c0 base :
  wellFormed c →
  Opening now message c c0 base →
  wellFormed c0
  ∧ slotsFilled (Session.slots base)
  ∧ timeoutMs c0 = timeoutMs c
  ∧ nextHandle c0 = nextHandle c.
Proof.
  intros Hwf [base' Hget _|old Hget _|Hget].
  - split; [done|]. split; [|done].
    apply OMap_get_Some in Hget. by apply (wf_slots c Hwf _ _ Hget).
  - split; [by apply wellFormed_processSession|].
    split; [apply slotsFilled_empty|].
    unfold processSession. rewrite Hget.
    destruct (length _ =? 0)%nat; [done|]. destruct (OSet.has _ _); [done|].
    unfold clearTimer. cbn [timers withProcessedSessions].
    by destruct (timers c !! _).
  - split; [done|]. split; [apply slotsFilled_empty|done].
Qed.

Lemma slotsFilled_buffer now message base :
  isNoise (Message.text message) = false →
  slotsFilled (Session.slots base) →
  slotsFilled
    (Session.slots (buffer now message (identifySlot (Message.text message)) base)).
Proof.
  intros Hnoise%isNoise_false_nonempty Hfilled. unfold buffer. cbn [Session.slots].
  case_bool_decide; [by apply slotsFilled_set|done].
Qed.

(** Putting the buffered session in the table keeps the invariant. *)
Lemma wellFormed_buffered k s c0 :
  wellFormed c0 →
  Session.messages s ≠ [] →
  slotsFilled (Session.slots s) →
  wellFormed (withSessions (OMap.set k s (sessions c0)) c0).
Proof.
  intros [Hkeys Hmessages Hslots Htimers Hhandles] Hs Hfilled.
  constructor; cbn; try done.
  - by apply OMap_NoDup_set.
  - intros k' s' [[= -> ->]|Hin]%OMap_elem_set; [done|by apply (Hmessages k')].
  - intros k' s' [[= -> ->]|Hin]%OMap_elem_set; [done|by apply (Hslots k')].
Qed.

Lemma wellFormed_intake now message c c' s :
  wellFormed c → intake now message c = Armed c' s → wellFormed c'.
Proof.
  intros Hwf (c0 & base & Hopen & -> & -> & _ & Hnoise)%intake_armed.
  destruct (wellFormed_opening now message _ c0 base
              (wellFormed_recorded message c Hwf) Hopen) as (Hwf0 & Hbase & _).
  apply wellFormed_resetTimer, wellFormed_buffered; [done| |].
  - unfold buffer. cbn [Session.messages]. by intros [? ?]%app_eq_nil.
  - by apply slotsFilled_buffer.
Qed.

Lemma wellFormed_addMessage now message c :
  wellFormed c → wellFormed (addMessage now message c).
Proof.
  intros Hwf. unfold addMessage.
  destruct (intake now message c) as [|c'|c' s] eqn:Hintake.
  - done.
  - unfold intake in Hintake. destruct (OSet.has _ _); [done|].
    destruct (isNoise _); [|by destruct (openSession _ _ _ _)].
    injection Hintake as <-. by apply wellFormed_recorded.
  - pose proof (wellFormed_intake now message c c' s Hwf Hintake).
    destruct (maxMessages <=? _)%nat; [by apply wellFormed_processSession|done].
Qed.

Lemma wellFormed_removeMessage senderId messageId c :
  wellFormed c → wellFormed (removeMessage senderId messageId c).
Proof.
  intros Hwf. unfold removeMessage.
  destruct (OMap.get senderId (sessions c)) as [session|] eqn:Hget; [|done].
  set (kept := filter _ (Session.messages session)).
  set (session' := Session.mk _ _ _ kept _ _ _).
  destruct (length kept <? length (Session.messages session))%nat eqn:Hremoved.
  - destruct (length kept =? 0)%nat eqn:Hempty.
    + apply wellFormed_clearTimer.
      cbn [sessions withSessions].
      assert (Hdelete :
        OMap.delete senderId (OMap.set senderId session' (sessions c))
        = OMap.delete senderId (sessions c)).
      { unfold OMap.delete. clear.
        induction (sessions c) as [|[k v] m IH]; cbn [OMap.set].
        - rewrite filter_cons. cbn. by rewrite decide_False by (by intros ?).
        - destruct (decide (k = senderId)) as [->|Hne].
          + rewrite !filter_cons. cbn. by rewrite !decide_False by (by intros ?).
          + rewrite !filter_cons. cbn. rewrite !decide_True by done. by rewrite IH. }
      rewrite Hdelete. by apply (wellFormed_delete c).
    + apply Nat.eqb_neq in Hempty.
      apply wellFormed_buffered; [done| |].
      * cbn. intros Hnil. by rewrite Hnil in Hempty.
      * cbn. apply OMap_get_Some in Hget. by apply (wf_slots c Hwf _ _ Hget).
  - apply Nat.ltb_ge in Hremoved.
    apply wellFormed_buffered; [done| |].
    + cbn. intros Hnil. rewrite Hnil in Hremoved. cbn in Hremoved.
      apply OMap_get_Some in Hget. apply (wf_messages c Hwf _ _ Hget).
      apply length_zero_iff_nil. lia.
    + cbn. apply OMap_get_Some in Hget. by apply (wf_slots c Hwf _ _ Hget).
Qed.

Lemma wellFormed_fire now h c : wellFormed c → wellFormed (fire now h c).
Proof.
  intros [Hkeys Hmessages Hslots Htimers Hhandles]. unfold fire.
  destruct (List.find _ _) as [t|]; [|by constructor].
  apply wellFormed_processSession. constructor; cbn; try done.
  intros t' [Hin _]%elem_of_clearTimeout. by apply Htimers.
Qed.

Lemma wellFormed_flush now (ks : list string) c :
  wellFormed c → wellFormed (foldl (λ c k, processSession now k c) c ks).
Proof.
  revert c. induction ks as [|k ks IH]; intros c Hwf; [done|].
  cbn. by apply IH, wellFormed_processSession.
Qed.

Lemma wellFormed_step e c : wellFormed c → wellFormed (step e c).
Proof.
  intros Hwf. destruct e; cbn.
  - by apply wellFormed_addMessage.
  - by apply wellFormed_removeMessage.
  - by apply wellFormed_fire.
  - by apply wellFormed_flush.
Qed.

(** The invariant holds of every correlator that the program can be in. *)
Lemma reachable_wellFormed c : reachable c → wellFormed c.
Proof.
  induction 1 as [timeoutSeconds|e c _ IH].
  - apply wellFormed_constructor.
  - by apply wellFormed_step.
Qed.

Lemma reachable_replay timeoutSeconds events : reachable (replay timeoutSeconds events).
Proof.
  unfold replay. induction events as [|e events IH] using rev_ind.
  - constructor.
  - rewrite foldl_snoc. by constructor.
Qed.

(** ** The adaptive timer *)

Lemma filled_truthy (o : option string) :
  (∀ v, o = Some v → v ≠ EmptyString) → JS.truthyOpt o = filled o.
Proof.
  intros Hne. destruct o as [v|]; [|done].
  cbn. apply truthy_true. by apply Hne.
Qed.

Lemma adaptiveTimeoutMs_spec c s :
  slotsFilled s → adaptiveTimeoutMs c s = adaptiveAsSpecified (timeoutMs c) s.
Proof.
  intros Hfilled. unfold adaptiveTimeoutMs, adaptiveAsSpecified, isHighlyComplete.
  rewrite (filled_truthy (Slots.name s)) by apply (Hfilled SlotName).
  rewrite (filled_truthy (Slots.mobile s)) by apply (Hfilled SlotMobile).
  destruct (filled (Slots.name s) && filled (Slots.mobile s)); [done|].
  unfold filledSlots, Slots.values, filled.
  destruct (Slots.name s), (Slots.mobile s), (Slots.address s); reflexivity.
Qed.

Lemma filter_none {A} (P : A → Prop) `{∀ x, Decision (P x)} (l : list A) :
  (∀ x, x ∈ l → ¬ P x) → filter P l = [].
Proof.
  induction l as [|x l IH]; [done|]. intros Hall.
  rewrite filter_cons, decide_False by (apply Hall, list_elem_of_here).
  apply IH. intros y Hy. by apply Hall, list_elem_of_further.
Qed.

(** C3: after every [addMessage] that gets to the timer step, the timer
    table holds for the sender a new timer, which is the only pending timer
    of that sender, every timer that was pending for the sender before
    being cleared; its duration is 10 seconds if the name and the mobile
    slot are filled, 30 seconds if at least one slot is filled, and the
    configured timeout otherwise.  The call then ends there, unless the
    session has reached the message limit. *)
Theorem timer_rearmed now message c c' s :
  wellFormed c →
  intake now message c = Armed c' s →
  let senderId := Message.senderId message in
  let timer :=
    Timer.mk (nextHandle c) senderId
      (adaptiveAsSpecified (timeoutMs c) (Session.slots s)) in
  timers c' !! senderId = Some (nextHandle c)
  ∧ filter (λ t, Timer.sender t = senderId) (pending c') = [timer]
  ∧ (∀ t, t ∈ pending c → Timer.sender t = senderId → t ∉ pending c')
  ∧ OMap.get senderId (sessions c') = Some s
  ∧ addMessage now message c
    = if (maxMessages <=? length (Session.messages s))%nat
      then processSession now senderId c' else c'.
Proof.
  intros Hwf Hintake senderId timer.
  assert (Hadd : addMessage now message c
                 = if (maxMessages <=? length (Session.messages s))%nat
                   then processSession now senderId c' else c')
    by (unfold addMessage; by rewrite Hintake).
  destruct (intake_armed now message c c' s Hintake)
    as (c0 & base & Hopen & Hs & Hc' & _ & Hnoise).
  destruct (wellFormed_opening now message _ c0 base
              (wellFormed_recorded message c Hwf) Hopen)
    as (Hwf0 & Hbase & Htimeout & Hnext).
  cbn [recorded withProcessedMessageIds timeoutMs nextHandle] in Htimeout, Hnext.
  assert (Hslots : slotsFilled (Session.slots s))
    by (rewrite Hs; by apply slotsFilled_buffer).
  assert (Hmessages : Session.messages s ≠ []).
  { rewrite Hs. unfold buffer. cbn [Session.messages]. by intros [? ?]%app_eq_nil. }
  pose proof
    (wellFormed_buffered senderId s c0 Hwf0 Hmessages Hslots) as Hwf1.
  fold senderId in Hc'.
  remember (withSessions (OMap.set senderId s (sessions c0)) c0) as c1 eqn:Hc1.
  assert (Hnext1 : nextHandle c1 = nextHandle c) by (by rewrite Hc1).
  assert (Hsessions1 : OMap.get senderId (sessions c1) = Some s)
    by (rewrite Hc1; apply OMap_get_set_eq).
  assert (Hfresh : ∀ t, t ∈ pending c1 → Timer.handle t < nextHandle c).
  { intros t Hin. rewrite <- Hnext1.
    apply (wf_handles c1 Hwf1 (Timer.sender t)).
    by apply (wf_timers c1 Hwf1 t Hin). }
  assert (Htimer : Timer.mk (nextHandle c1) senderId
                     (adaptiveTimeoutMs c0 (Session.slots s)) = timer).
  { unfold timer. rewrite adaptiveTimeoutMs_spec by done.
    by rewrite Hnext1, Htimeout. }
  assert (Hpending : ∀ t, t ∈ pending c'
                          ↔ (t ∈ pending c1 ∧ Timer.sender t ≠ senderId) ∨ t = timer).
  { intros t. rewrite Hc', <- Htimer. by apply pending_resetTimer. }
  split; [|split; [|split; [|split; [|exact Hadd]]]].
  - rewrite Hc'. cbn [timers resetTimer]. by rewrite lookup_insert_eq, Hnext1.
  - rewrite Hc'. unfold resetTimer. cbn [pending]. rewrite filter_app, filter_cons.
    cbn [Timer.sender]. rewrite decide_True by done. rewrite Htimer.
    rewrite filter_none; [done|].
    intros t Hin Hsender.
    assert (Hin1 : t ∈ pending c1).
    { destruct (timers c1 !! senderId); [|done].
      by apply elem_of_clearTimeout in Hin as [? _]. }
    assert (Hin' : t ∈ pending c').
    { rewrite Hc'. unfold resetTimer. cbn [pending]. apply elem_of_app. by left. }
    apply Hpending in Hin' as [[_ Hne]|Hnew]; [done|].
    specialize (Hfresh t Hin1). rewrite Hnew in Hfresh. cbn in Hfresh. lia.
  - intros t Hin Hsender [[_ Hne]|Hnew]%Hpending; [done|].
    pose proof (proj2 (wf_timers c Hwf t Hin _) eq_refl) as Hrec.
    apply (wf_handles c Hwf) in Hrec.
    rewrite Hnew in Hrec. cbn in Hrec. lia.
  - rewrite Hc'. exact Hsessions1.
Qed.

(** ** Session identifiers *)

Lemma underscoreFree_app (a b : string) : ¬ underscoreFree (a +:+ String "_" b).
Proof. induction a as [|c a IH]; cbn; [by intros [? _]|by intros [_ ?]]. Qed.

Lemma pretty_N_char_free (x : N) : pretty_N_char x ≠ "_"%char.
Proof. unfold pretty_N_char. by repeat case_match. Qed.

Lemma pretty_N_go_free (x : N) (s : string) :
  underscoreFree s → underscoreFree (pretty_N_go x s).
Proof.
  revert s. induction (N.lt_wf_0 x) as [x _ IH]; intros s Hs.
  destruct (decide (x = 0)%N) as [->|Hpos].
  - by rewrite pretty_N_go_0.
  - rewrite pretty_N_go_step by lia.
    apply IH; [apply N.div_lt; lia|].
    split; [apply pretty_N_char_free|done].
Qed.

Lemma pretty_N_free (x : N) : underscoreFree (pretty x).
Proof.
  unfold pretty, pretty_N. case_decide; [by cbn|].
  by apply pretty_N_go_free.
Qed.

Lemma pretty_Z_free (x : Z) : underscoreFree (pretty x).
Proof.
  unfold pretty, pretty_Z. destruct x as [|p|p].
  - by cbn.
  - apply pretty_N_free.
  - cbn. split; [done|]. apply pretty_N_free.
Qed.

Lemma underscore_split (a b p q : string) :
  underscoreFree p → underscoreFree q →
  a +:+ String "_" p = b +:+ String "_" q → a = b.
Proof.
  intros Hp Hq. revert b. induction a as [|c a IH]; intros [|d b]; cbn.
  - done.
  - intros [= <- ->]. by apply underscoreFree_app in Hp.
  - intros [= -> <-]. by apply underscoreFree_app in Hq.
  - intros [= -> Heq]. f_equal. by apply IH.
Qed.

(** The sessions of two senders never have the same identifier. *)
Lemma sessionIdOf_sender k s k' s' : sessionIdOf k s = sessionIdOf k' s' → k = k'.
Proof.
  unfold sessionIdOf. apply underscore_split; apply pretty_Z_free.
Qed.

(** ** Finalizing a session *)

Lemma clearTimer_fields k c :
  sessions (clearTimer k c) = sessions c
  ∧ emitted (clearTimer k c) = emitted c
  ∧ processedSessions (clearTimer k c) = processedSessions c.
Proof. unfold clearTimer. by destruct (timers c !! k). Qed.

(** What [processSession] does to a session that has a message: it drops it
    if its identifier is in the cache of processed sessions, and emits it
    otherwise; either way the session leaves the table. *)
Lemma processSession_spec now k c session :
  OMap.get k (sessions c) = Some session →
  Session.messages session ≠ [] →
  let c' := processSession now k c in
  sessions c' = OMap.delete k (sessions c)
  ∧ if OSet.has (sessionIdOf k session) (processedSessions c)
    then emitted c' = emitted c ∧ processedSessions c' = processedSessions c
    else emitted c' = emitted c ++ [sessionDataOf now k session]
         ∧ processedSessions c'
           = OSet.addBounded 1000 500 (sessionIdOf k session) (processedSessions c).
Proof.
  intros Hget Hmessages. unfold processSession. rewrite Hget.
  assert (Hlen : (length (Session.messages session) =? 0)%nat = false).
  { apply Nat.eqb_neq. by intros ?%length_zero_iff_nil. }
  rewrite Hlen.
  destruct (OSet.has _ _); [done|].
  cbn [sessions emitted processedSessions withSessions emit].
  by destruct (clearTimer_fields k
                 (withProcessedSessions
                    (OSet.addBounded 1000 500 (sessionIdOf k session)
                       (processedSessions c)) c)) as (-> & -> & ->).
Qed.

Lemma OSet_addBounded_elem (ceiling batch : nat) (x y : string) (s : list string) :
  y ∈ OSet.addBounded ceiling batch x s → y ∈ s ∨ y = x.
Proof.
  unfold OSet.addBounded.
  assert (Hadd : y ∈ OSet.add x s → y ∈ s ∨ y = x).
  { unfold OSet.add. destruct (OSet.has x s); [by left|].
    intros [?|?%list_elem_of_singleton]%elem_of_app; [by left|by right]. }
  destruct (ceiling <? _)%nat; [|done].
  intros [Hin _]%OSet_elem_evictOldest. by apply Hadd.
Qed.

(** ** Slot collisions *)

Lemma mobile_shaped_collides text old :
  RegExp.test mobilePattern text = true →
  JS.truthyOpt (Slots.mobile (Session.slots old)) = true →
  collides (identifySlot text) old = true.
Proof.
  intros Hshape Hfilled. unfold collides, identifySlot. rewrite Hshape.
  cbn [Slots.get]. by rewrite Hfilled.
Qed.

(** C2: the emission that the slot-collision rule promises is missed when
    two sessions of one sender start within the same millisecond.  After two
    phone numbers taken in at the same reading of the clock, the session of
    the second carries the identifier of the session of the first, which has
    just been emitted; when a third number collides with it, the guard of
    [processSession] against processing a session twice takes it for that
    one and deletes it: nothing is emitted, the message "A2" appears in no
    record, and the third number starts a session of its own. *)
Theorem slot_collision_loses_session :
  let third := sampleMessage "A3" "a@s.whatsapp.net" "9988776655" in
  let c' := addMessage 2000 third sameMillisecond in
  (Session.messages <$> OMap.get "a@s.whatsapp.net" (sessions sameMillisecond))
  = Some [Buffered.mk "A2" "9123456780" 1700000000000 1000]
  ∧ (collides (identifySlot (Message.text third))
       <$> OMap.get "a@s.whatsapp.net" (sessions sameMillisecond)) = Some true
  ∧ emitted c' = emitted sameMillisecond
  ∧ map (λ d, map Buffered.id (SessionData.messages d)) (emitted c') = [["A1"]]
  ∧ (Session.messages <$> OMap.get "a@s.whatsapp.net" (sessions c'))
    = Some [Buffered.mk "A3" "9988776655" 1700000000000 2000].
Proof. vm_compute. by repeat split. Qed.

(** The statement of C2 in general form is refuted by the same state. *)
Lemma slot_collision_emission_refuted : ¬ slot_collision_always_emits.
Proof.
  intros H.
  assert (Hin :
    sessionDataOf 2000 "a@s.whatsapp.net"
      (Session.mk "a@s.whatsapp.net" "919876543210" "Rahul"
         [Buffered.mk "A2" "9123456780" 1700000000000 1000]
         (Slots.mk None (Some "9123456780") None) 1000 1000)
    ∈ emitted (addMessage 2000 (sampleMessage "A3" "a@s.whatsapp.net" "9988776655")
                 sameMillisecond)).
  { apply (H 2000%Z (sampleMessage "A3" "a@s.whatsapp.net" "9988776655")
             sameMillisecond).
    - apply reachable_replay.
    - apply OSet_has_false. vm_compute. reflexivity.
    - vm_compute. reflexivity.
    - vm_compute. reflexivity.
    - vm_compute. reflexivity. }
  assert (Hall :
    forallb (λ d, (SessionData.completedAt d =? 1000)%Z)
      (emitted (addMessage 2000 (sampleMessage "A3" "a@s.whatsapp.net" "9988776655")
                  sameMillisecond))
    = true) by (vm_compute; reflexivity).
  rewrite forallb_forall in Hall.
  apply list_elem_of_In, Hall in Hin. discriminate.
Qed.

(** The intake of a message that meets a slot collision. *)
Lemma intake_collision now message c old :
  Message.id message ∉ processedMessageIds c →
  isNoise (Message.text message) = false →
  OMap.get (Message.senderId message) (sessions c) = Some old →
  collides (identifySlot (Message.text message)) old = true →
  let senderId := Message.senderId message in
  let started :=
    buffer now message (identifySlot (Message.text message))
      (freshSession now message) in
  let c0 := processSession now senderId (recorded message c) in
  intake now message c
  = Armed
      (resetTimer senderId (adaptiveTimeoutMs c0 (Session.slots started))
         (withSessions (OMap.set senderId started (sessions c0)) c0))
      started.
Proof.
  intros Hfresh%OSet_has_false Hnoise Hget Hcol senderId started c0.
  unfold intake. rewrite Hfresh, Hnoise.
  fold (recorded message c). unfold openSession.
  change (sessions (recorded message c)) with (sessions c).
  rewrite Hget.
  fold (collides (identifySlot (Message.text message)) old). rewrite Hcol.
  fold (freshSession now message). fold started.
  cbn [sessions withSessions]. by rewrite OMap_set_set.
Qed.

(** What [addMessage] does in every well-formed state when it gets a
    message whose slot is already filled in the session of its sender: it
    runs [processSession] on that session, which emits it unless its
    identifier is in the cache of processed sessions, and then starts a
    session that holds the new message only; a mobile-shaped message that
    arrives while the mobile slot is filled does not join the session that
    is there. *)
Theorem slot_collision_starts_new_session now message c old :
  wellFormed c →
  Message.id message ∉ processedMessageIds c →
  isNoise (Message.text message) = false →
  OMap.get (Message.senderId message) (sessions c) = Some old →
  collides (identifySlot (Message.text message)) old = true
  ∨ (RegExp.test mobilePattern (Message.text message) = true
     ∧ JS.truthyOpt (Slots.mobile (Session.slots old)) = true) →
  let senderId := Message.senderId message in
  let c' := addMessage now message c in
  let started :=
    buffer now message (identifySlot (Message.text message))
      (freshSession now message) in
  emitted c'
  = emitted c
    ++ (if OSet.has (sessionIdOf senderId old) (processedSessions c) then []
        else [sessionDataOf now senderId old])
  ∧ OMap.get senderId (sessions c') = Some started
  ∧ Session.messages started
    = [Buffered.mk (Message.id message) (Message.text message)
         (Message.timestamp message) now]
  ∧ Session.startedAt started = now.
Proof.
  intros Hwf Hfresh Hnoise Hget Hcollides senderId c' started. subst senderId.
  assert (Hcol : collides (identifySlot (Message.text message)) old = true).
  { destruct Hcollides as [?|[? ?]]; [done|by apply mobile_shaped_collides]. }
  clear Hcollides.
  assert (Hmessages : Session.messages old ≠ []).
  { apply OMap_get_Some in Hget. by apply (wf_messages c Hwf _ _ Hget). }
  destruct (processSession_spec now (Message.senderId message)
              (recorded message c) old Hget Hmessages) as [_ Hemitted].
  cbn [recorded processedSessions emitted withProcessedMessageIds] in Hemitted.
  unfold c', addMessage.
  rewrite (intake_collision now message c old Hfresh Hnoise Hget Hcol).
  assert (Hlimit : (maxMessages <=? length (Session.messages started))%nat = false)
    by reflexivity.
  fold started. rewrite Hlimit. cbn [emitted sessions resetTimer withSessions].
  split; [|split; [apply OMap_get_set_eq|done]].
  destruct (OSet.has _ _); destruct Hemitted as [-> _]; [by rewrite app_nil_r|done].
Qed.

(** The same for every call, duplicates and noise included: a mobile-shaped
    message never lands in a session whose mobile slot is filled. *)
Lemma mobile_shaped_never_joins now message c old :
  OMap.get (Message.senderId message) (sessions c) = Some old →
  JS.truthyOpt (Slots.mobile (Session.slots old)) = true →
  RegExp.test mobilePattern (Message.text message) = true →
  let c' := addMessage now message c in
  OMap.get (Message.senderId message) (sessions c') = Some old
  ∨ ∃ started,
      OMap.get (Message.senderId message) (sessions c') = Some started
      ∧ Session.messages started
        = [Buffered.mk (Message.id message) (Message.text message)
             (Message.timestamp message) now].
Proof.
  intros Hget Hfilled Hshape c'.
  destruct (OSet.has (Message.id message) (processedMessageIds c)) eqn:Hseen.
  - left. unfold c', addMessage, intake. by rewrite Hseen.
  - destruct (isNoise (Message.text message)) eqn:Hnoise.
    + left. unfold c', addMessage, intake. by rewrite Hseen, Hnoise.
    + right. apply OSet_has_false in Hseen.
      pose proof (mobile_shaped_collides _ old Hshape Hfilled) as Hcol.
      unfold c', addMessage.
      rewrite (intake_collision now message c old Hseen Hnoise Hget Hcol).
      exists (buffer now message (identifySlot (Message.text message))
                (freshSession now message)).
      split; [|reflexivity].
      assert (Hlimit :
        (maxMessages
         <=? length (Session.messages
                       (buffer now message (identifySlot (Message.text message))
                          (freshSession now message))))%nat = false)
        by reflexivity.
      rewrite Hlimit. cbn [sessions resetTimer withSessions].
      apply OMap_get_set_eq.
Qed.

Lemma slot_collision_starts_new_session_witness :
  let c := addMessage 1000 (sampleMessage "A1" "a@s.whatsapp.net" "9876543210")
             (constructor 120) in
  let c' := addMessage 5000 (sampleMessage "A2" "a@s.whatsapp.net" "9123456780") c in
  length (emitted c') = 1
  ∧ (Session.messages <$> OMap.get "a@s.whatsapp.net" (sessions c'))
    = Some [Buffered.mk "A2" "9123456780" 1700000000000 5000].
Proof.
  intros c c'.
  destruct (slot_collision_starts_new_session 5000
              (sampleMessage "A2" "a@s.whatsapp.net" "9123456780") c
              (Session.mk "a@s.whatsapp.net" "919876543210" "Rahul"
                 [Buffered.mk "A1" "9876543210" 1700000000000 1000]
                 (Slots.mk None (Some "9876543210") None) 1000 1000))
    as (Hemitted & Hget & Hmessages & _).
  - apply wellFormed_addMessage, wellFormed_constructor.
  - vm_compute. intros Hin.
    apply elem_of_cons in Hin as [Hin|Hin]; [discriminate|].
    by apply elem_of_nil in Hin.
  - reflexivity.
  - vm_compute. reflexivity.
  - right. split; reflexivity.
  - fold c' in Hemitted, Hget. split.
    + rewrite Hemitted. reflexivity.
    + change (OMap.get "a@s.whatsapp.net" (sessions c'))
        with (OMap.get
                (Message.senderId (sampleMessage "A2" "a@s.whatsapp.net" "9123456780"))
                (sessions c')).
      rewrite Hget. cbn [fmap option_fmap option_map]. by rewrite Hmessages.
Defined.

(** ** Flushing *)

(** [flushAll], one session after the other. *)
Lemma flush_spec now (l : list (string * Session.t)) :
  ∀ c,
    sessions c = l →
    NoDup (OMap.keys l) →
    (∀ k s, (k, s) ∈ l → Session.messages s ≠ []) →
    let c' := foldl (λ c k, processSession now k c) c (OMap.keys l) in
    sessions c' = []
    ∧ (length (emitted c') ≤ length (emitted c) + length l)%nat
    ∧ ((∀ k s, (k, s) ∈ l → sessionIdOf k s ∉ processedSessions c) →
       emitted c' = emitted c ++ map (λ e, sessionDataOf now e.1 e.2) l).
Proof.
  induction l as [|[k s] l IH]; intros c Hsessions Hkeys Hmessages.
  - cbn. split; [done|]. split; [lia|]. intros _. by rewrite app_nil_r.
  - change (NoDup (k :: OMap.keys l)) in Hkeys.
    apply NoDup_cons in Hkeys as [Hk Hkeys].
    assert (Hget : OMap.get k (sessions c) = Some s).
    { rewrite Hsessions. cbn [OMap.get]. by rewrite decide_True. }
    assert (Hs : Session.messages s ≠ []) by apply (Hmessages k), list_elem_of_here.
    destruct (processSession_spec now k c s Hget Hs) as [Hrest Hemitted].
    rewrite Hsessions, (OMap_delete_head l k s Hk) in Hrest.
    assert (Hl : ∀ k' s', (k', s') ∈ l → Session.messages s' ≠ []).
    { intros k' s' Hin. by apply (Hmessages k'), list_elem_of_further. }
    destruct (IH (processSession now k c) Hrest Hkeys Hl) as (Hnone & Hlen & Hall).
    cbn [OMap.keys fmap list_fmap foldl fst]. fold (OMap.keys l).
    split; [exact Hnone|]. split.
    + cbn [length].
      destruct (OSet.has _ _).
      * destruct Hemitted as [Heq _]. rewrite Heq in Hlen. lia.
      * destruct Hemitted as [Heq _]. rewrite Heq, length_app in Hlen. cbn in Hlen. lia.
    + intros Hfresh.
      assert (Hk_fresh : sessionIdOf k s ∉ processedSessions c)
        by apply Hfresh, list_elem_of_here.
      apply OSet_has_false in Hk_fresh. rewrite Hk_fresh in Hemitted.
      destruct Hemitted as [Heq Hmarked].
      rewrite Hall.
      * rewrite Heq. cbn [map fst snd]. by rewrite <- app_assoc.
      * intros k' s' Hin. rewrite Hmarked.
        intros [Hold|Hsame]%OSet_addBounded_elem.
        -- apply (Hfresh k' s'); [by apply list_elem_of_further|done].
        -- apply sessionIdOf_sender in Hsame. subst k'.
           apply Hk. unfold OMap.keys. apply list_elem_of_fmap. by exists (k, s').
Qed.

(** C8: [flushAll] misses a session when two sessions of one sender have
    started within the same millisecond.  After two phone numbers taken in at
    the same reading of the clock, one session is active, with the
    identifier of the session emitted just before; [flushAll] empties the
    table and emits nothing: the guard of [processSession] against
    processing a session twice deletes the session, and the message "A2"
    appears in no record. *)
Theorem flushAll_loses_session :
  let c' := flushAll 3000 sameMillisecond in
  length (sessions sameMillisecond) = 1
  ∧ (Session.messages <$> OMap.get "a@s.whatsapp.net" (sessions sameMillisecond))
    = Some [Buffered.mk "A2" "9123456780" 1700000000000 1000]
  ∧ sessions c' = []
  ∧ emitted c' = emitted sameMillisecond
  ∧ map (λ d, map Buffered.id (SessionData.messages d)) (emitted c') = [["A1"]].
Proof. vm_compute. by repeat split. Qed.

(** The statement of C8 in general form is refuted by the same state. *)
Lemma flushAll_count_refuted : ¬ flushAll_emits_every_session.
Proof.
  intros H.
  destruct (H 3000%Z sameMillisecond (reachable_replay _ _)) as [Hcount _].
  vm_compute in Hcount. discriminate.
Qed.

(** What [flushAll] does in every well-formed state: it leaves no active
    session and emits at most one record for each session that was active;
    it emits exactly one for each, in the order of the table, when the
    identifier of no active session is in the cache of processed
    sessions. *)
Theorem flushAll_spec now c :
  wellFormed c →
  let c' := flushAll now c in
  sessions c' = []
  ∧ (length (emitted c') ≤ length (emitted c) + length (sessions c))%nat
  ∧ ((∀ k s, (k, s) ∈ sessions c → sessionIdOf k s ∉ processedSessions c) →
     emitted c' = emitted c ++ map (λ e, sessionDataOf now e.1 e.2) (sessions c)
     ∧ length (emitted c') = length (emitted c) + length (sessions c)).
Proof.
  intros Hwf c'.
  destruct (flush_spec now (sessions c) c eq_refl (wf_keys c Hwf) (wf_messages c Hwf))
    as (Hnone & Hlen & Hall).
  split; [exact Hnone|]. split; [exact Hlen|].
  intros Hfresh. specialize (Hall Hfresh). split; [exact Hall|].
  unfold c', flushAll. rewrite Hall, length_app, length_map. done.
Qed.

Lemma flushAll_spec_witness :
  let c :=
    replay 120
      [AddMessage 1000 (sampleMessage "A1" "a@s.whatsapp.net" "Rahul Sharma");
       AddMessage 1500 (sampleMessage "B1" "b@s.whatsapp.net" "12 MG Road");
       AddMessage 2000 (sampleMessage "A2" "a@s.whatsapp.net" "9876543210")] in
  length (sessions c) = 2
  ∧ sessions (flushAll 3000 c) = []
  ∧ length (emitted (flushAll 3000 c)) = 2.
Proof.
  intros c.
  destruct (flushAll_spec 3000 c (reachable_wellFormed c (reachable_replay _ _)))
    as (Hnone & _ & Hall).
  split; [reflexivity|]. split; [exact Hnone|].
  destruct Hall as [_ Hcount].
  - intros k s Hin Hprocessed. vm_compute in Hprocessed.
    by apply elem_of_nil in Hprocessed.
  - rewrite Hcount. reflexivity.
Defined.

Lemma timer_rearmed_witness :
  ∃ c' s,
    intake 1000 (sampleMessage "A1" "a@s.whatsapp.net" "Rahul Sharma") (constructor 120)
    = Armed c' s
    ∧ filter (λ t, Timer.sender t = "a@s.whatsapp.net") (pending c')
      = [Timer.mk 0 "a@s.whatsapp.net" 30000].
Proof.
  destruct (intake_fresh 1000 (sampleMessage "A1" "a@s.whatsapp.net" "Rahul Sharma")
              (constructor 120)) as (c' & s & Hintake).
  - apply not_elem_of_nil.
  - reflexivity.
  - exists c', s. split; [exact Hintake|].
    destruct (timer_rearmed 1000 _ (constructor 120) c' s
                (wellFormed_constructor 120) Hintake) as (_ & Hpending & _).
    refine (eq_trans Hpending _).
    pose proof Hintake as Hvalue. vm_compute in Hvalue.
    injection Hvalue as _ Hs. rewrite <- Hs. reflexivity.
Defined.

(** * Further properties *)

(** ** Finalizing, once more *)

Section OMapMore.
Context {V : Type}.
Implicit Types (m : list (string * V)) (k : string) (v : V).

Lemma OMap_get_delete_ne m k k' :
  k ≠ k' → OMap.get k' (OMap.delete k m) = OMap.get k' m.
Proof.
  intros Hne. unfold OMap.delete.
  induction m as [|[k0 v0] m IH]; [done|].
  rewrite filter_cons. cbn [fst OMap.get].
  destruct (decide (k0 = k)) as [->|Hk0].
  - rewrite decide_False by (by intros ?). by rewrite decide_False.
  - rewrite decide_True by done. cbn [OMap.get]. by rewrite IH.
Qed.

Lemma OMap_set_same m k v : OMap.get k m = Some v → OMap.set k v m = m.
Proof.
  induction m as [|[k0 v0] m IH]; cbn [OMap.get OMap.set]; [done|].
  destruct (decide (k0 = k)) as [->|Hne].
  - by intros [= ->].
  - intros Hget. by rewrite IH.
Qed.

Lemma OMap_delete_set m k v :
  OMap.delete k (OMap.set k v m) = OMap.delete k m.
Proof.
  unfold OMap.delete. induction m as [|[k0 v0] m IH]; cbn [OMap.set].
  - rewrite filter_cons. cbn. by rewrite decide_False by (by intros ?).
  - destruct (decide (k0 = k)) as [->|Hne].
    + rewrite !filter_cons. cbn. by rewrite !decide_False by (by intros ?).
    + rewrite !filter_cons. cbn. rewrite !decide_True by done. by rewrite IH.
Qed.

End OMapMore.

(** The four ways in which [processSession] ends. *)
Lemma processSession_cases now k c :
  (processSession now k c = c
   ∧ (OMap.get k (sessions c) = None
      ∨ ∃ s, OMap.get k (sessions c) = Some s ∧ Session.messages s = []))
  ∨ (∃ s,
       OMap.get k (sessions c) = Some s
       ∧ Session.messages s ≠ []
       ∧ OSet.has (sessionIdOf k s) (processedSessions c) = true
       ∧ processSession now k c = withSessions (OMap.delete k (sessions c)) c)
  ∨ (∃ s,
       OMap.get k (sessions c) = Some s
       ∧ Session.messages s ≠ []
       ∧ OSet.has (sessionIdOf k s) (processedSessions c) = false
       ∧ processSession now k c
         = withSessions (OMap.delete k (sessions c))
             (emit (sessionDataOf now k s)
                (clearTimer k
                   (withProcessedSessions
                      (OSet.addBounded 1000 500 (sessionIdOf k s)
                         (processedSessions c)) c)))).
Proof.
  unfold processSession.
  destruct (OMap.get k (sessions c)) as [s|] eqn:Hget; [|left; split; [done|by left]].
  destruct (length (Session.messages s) =? 0)%nat eqn:Hlen.
  - left. split; [done|]. right. exists s. split; [done|].
    apply Nat.eqb_eq in Hlen. by apply length_zero_iff_nil.
  - assert (Hne : Session.messages s ≠ []).
    { apply Nat.eqb_neq in Hlen. by intros ?%length_zero_iff_nil. }
    right. destruct (OSet.has _ _) eqn:Hhas.
    + left. by exists s.
    + right. exists s. repeat split; try done.
      cbn [sessions emit withSessions]. by destruct (clearTimer_fields k
        (withProcessedSessions
           (OSet.addBounded 1000 500 (sessionIdOf k s) (processedSessions c)) c))
        as (-> & _).
Qed.

Lemma processSession_gone now k c :
  OMap.get k (sessions (processSession now k c)) = None
  ∨ processSession now k c = c.
Proof.
  destruct (processSession_cases now k c)
    as [[-> _]|[(s & _ & _ & _ & ->)|(s & _ & _ & _ & ->)]].
  - by right.
  - left. apply OMap_get_delete.
  - left. cbn [sessions withSessions]. apply OMap_get_delete.
Qed.

(** X1: finalizing a sender twice is the same as finalizing it once: the
    second call, whatever the clock, finds no session to emit. *)
Theorem processSession_idempotent now now' k c :
  processSession now' k (processSession now k c) = processSession now k c.
Proof.
  destruct (processSession_cases now k c)
    as [[Hsame Hwhy]|[(s & _ & _ & _ & Heq)|(s & _ & _ & _ & Heq)]].
  - rewrite Hsame. unfold processSession.
    destruct Hwhy as [->|(s & -> & ->)]; done.
  - rewrite Heq. unfold processSession at 1. cbn [sessions withSessions].
    by rewrite OMap_get_delete.
  - rewrite Heq. unfold processSession at 1. cbn [sessions withSessions].
    by rewrite OMap_get_delete.
Qed.

(** ** What an event adds to the output *)

Lemma clearTimer_sessions k c : sessions (clearTimer k c) = sessions c.
Proof. apply clearTimer_fields. Qed.

Lemma clearTimer_emitted k c : emitted (clearTimer k c) = emitted c.
Proof. apply clearTimer_fields. Qed.

Lemma clearTimer_processed k c :
  processedSessions (clearTimer k c) = processedSessions c.
Proof. apply clearTimer_fields. Qed.

Lemma processSession_emits now k c :
  ∃ l, emitted (processSession now k c) = emitted c ++ l ∧ (length l ≤ 1)%nat.
Proof.
  destruct (processSession_cases now k c)
    as [[-> _]|[(s & _ & _ & _ & ->)|(s & _ & _ & _ & ->)]].
  - exists []. rewrite app_nil_r. split; [done|cbn; lia].
  - exists []. rewrite app_nil_r. split; [done|cbn; lia].
  - eexists [_]. cbn [emitted withSessions emit]. rewrite clearTimer_emitted.
    split; [done|cbn; lia].
Qed.

Lemma flush_emits now (ks : list string) c :
  ∃ l,
    emitted (foldl (λ c k, processSession now k c) c ks) = emitted c ++ l
    ∧ (length l ≤ length ks)%nat.
Proof.
  revert c. induction ks as [|k ks IH]; intros c.
  - exists []. rewrite app_nil_r. split; [done|cbn; lia].
  - cbn [foldl]. destruct (IH (processSession now k c)) as (l2 & -> & Hl2).
    destruct (processSession_emits now k c) as (l1 & -> & Hl1).
    exists (l1 ++ l2). rewrite app_assoc, length_app. cbn [length]. split; [done|lia].
Qed.

Lemma removeMessage_emitted senderId messageId c :
  emitted (removeMessage senderId messageId c) = emitted c.
Proof.
  unfold removeMessage. destruct (OMap.get _ _); [|done].
  destruct (_ <? _)%nat; [|done]. destruct (_ =? _)%nat; [|done].
  by rewrite clearTimer_emitted.
Qed.

Lemma addMessage_emits now message c :
  ∃ l, emitted (addMessage now message c) = emitted c ++ l ∧ (length l ≤ 1)%nat.
Proof.
  unfold addMessage.
  destruct (intake now message c) as [|c1|c' s] eqn:Hintake.
  - exists []. rewrite app_nil_r. split; [done|cbn; lia].
  - exists []. rewrite app_nil_r. split; [|cbn; lia].
    unfold intake in Hintake. destruct (OSet.has _ _); [done|].
    destruct (isNoise _); [|by destruct (openSession _ _ _ _)].
    by injection Hintake as <-.
  - destruct (intake_armed now message c c' s Hintake)
      as (c0 & base & Hopen & Hs & Hc' & _ & _).
    assert (Hemitted' : emitted c' = emitted c0) by (by rewrite Hc').
    destruct Hopen as [base Hget Hcol|old Hget Hcol|Hget].
    + destruct (maxMessages <=? _)%nat.
      * destruct (processSession_emits now (Message.senderId message) c')
          as (l & -> & Hl).
        exists l. by rewrite Hemitted'.
      * exists []. rewrite app_nil_r, Hemitted'. split; [done|cbn; lia].
    + assert (Hlimit : (maxMessages <=? length (Session.messages s))%nat = false)
        by (rewrite Hs; reflexivity).
      rewrite Hlimit, Hemitted'.
      apply (processSession_emits now (Message.senderId message) (recorded message c)).
    + assert (Hlimit : (maxMessages <=? length (Session.messages s))%nat = false)
        by (rewrite Hs; reflexivity).
      rewrite Hlimit, Hemitted'. exists []. rewrite app_nil_r. split; [done|cbn; lia].
Qed.

Lemma fire_emits now h c :
  ∃ l, emitted (fire now h c) = emitted c ++ l ∧ (length l ≤ 1)%nat.
Proof.
  unfold fire. destruct (List.find _ _) as [t|].
  - apply (processSession_emits now (Timer.sender t)
             (mkCorrelator (sessions c) (timers c) (processedSessions c)
                (processedMessageIds c) (timeoutMs c) (clearTimeout h (pending c))
                (nextHandle c) (emitted c))).
  - exists []. rewrite app_nil_r. split; [done|cbn; lia].
Qed.

(** X2: the output only grows.  In every state, an event appends to the
    records emitted so far and changes none of them: a message or a timer
    appends at most one record (a slot collision and the message limit
    never meet in one call), a revoke appends none, and a flush appends at
    most one per active session. *)
Theorem emitted_append_only (e : Event) c :
  ∃ l,
    emitted (step e c) = emitted c ++ l
    ∧ match e with
      | AddMessage _ _ | TimerFires _ _ => (length l ≤ 1)%nat
      | RemoveMessage _ _ => l = []
      | FlushAll _ => (length l ≤ length (sessions c))%nat
      end.
Proof.
  destruct e as [now message|senderId messageId|now h|now]; cbn [step].
  - apply addMessage_emits.
  - exists []. by rewrite app_nil_r, removeMessage_emitted.
  - apply fire_emits.
  - destruct (flush_emits now (OMap.keys (sessions c)) c) as (l & Hl & Hlen).
    exists l. split; [exact Hl|]. unfold OMap.keys in Hlen.
    by rewrite length_fmap in Hlen.
Qed.

(** ** Senders do not interfere *)

Lemma filter_filter_implied {A} (P Q : A → Prop)
    `{∀ x, Decision (P x)} `{∀ x, Decision (Q x)} (l : list A) :
  (∀ x, x ∈ l → P x → Q x) → filter P (filter Q l) = filter P l.
Proof.
  induction l as [|x l IH]; [done|]. intros Himp.
  assert (Hl : ∀ y, y ∈ l → P y → Q y)
    by (intros y Hy; by apply Himp, list_elem_of_further).
  rewrite (filter_cons Q). destruct (decide (Q x)) as [Hq|Hq].
  - rewrite !filter_cons. destruct (decide (P x)); by rewrite IH.
  - rewrite filter_cons, decide_False; [by apply IH|].
    intros Hp. apply Hq, Himp; [apply list_elem_of_here|done].
Qed.

Lemma clearTimer_untouched k k' c :
  wellFormed c → k ≠ k' → untouched k' c (clearTimer k c).
Proof.
  intros Hwf Hne. unfold untouched, timersOf, clearTimer.
  destruct (timers c !! k) as [h|] eqn:Hk; [|done].
  cbn [sessions timers pending]. split; [done|].
  split; [by apply lookup_delete_ne|].
  apply filter_filter_implied. intros t Hin Hsender Hhandle.
  apply Hne. rewrite <- Hsender.
  apply (wf_timers c Hwf t Hin). by rewrite Hhandle.
Qed.

Lemma untouched_refl k c : untouched k c c.
Proof. by repeat split. Qed.

Lemma untouched_trans k c1 c2 c3 :
  untouched k c1 c2 → untouched k c2 c3 → untouched k c1 c3.
Proof.
  intros (H1 & H2 & H3) (H1' & H2' & H3'). repeat split; congruence.
Qed.

Lemma processSession_untouched now k k' c :
  wellFormed c → k ≠ k' → untouched k' c (processSession now k c).
Proof.
  intros Hwf Hne.
  destruct (processSession_cases now k c)
    as [[-> _]|[(s & _ & _ & _ & ->)|(s & _ & _ & _ & ->)]].
  - apply untouched_refl.
  - split; [by apply OMap_get_delete_ne|done].
  - assert (Hmarked : wellFormed
                        (withProcessedSessions
                           (OSet.addBounded 1000 500 (sessionIdOf k s)
                              (processedSessions c)) c))
      by (destruct Hwf; by constructor).
    destruct (clearTimer_untouched k k' _ Hmarked Hne) as (Hs & Ht & Hp).
    split; [|split].
    + cbn [sessions withSessions]. by apply OMap_get_delete_ne.
    + exact Ht.
    + exact Hp.
Qed.

Lemma resetTimer_untouched k k' timeout c :
  wellFormed c → k ≠ k' → untouched k' c (resetTimer k timeout c).
Proof.
  intros Hwf Hne. unfold untouched, timersOf, resetTimer.
  cbn [sessions timers pending]. split; [done|].
  split; [by apply lookup_insert_ne|].
  rewrite filter_app, filter_cons. cbn [Timer.sender].
  rewrite decide_False by done. rewrite filter_nil, app_nil_r.
  destruct (timers c !! k) as [h|] eqn:Hk; [|done].
  apply filter_filter_implied. intros t Hin Hsender Hhandle.
  apply Hne. rewrite <- Hsender.
  apply (wf_timers c Hwf t Hin). by rewrite Hhandle.
Qed.

Lemma addMessage_untouched now message c k' :
  wellFormed c →
  Message.senderId message ≠ k' →
  untouched k' c (addMessage now message c).
Proof.
  intros Hwf Hne. unfold addMessage.
  destruct (intake now message c) as [|c1|c' s] eqn:Hintake.
  - apply untouched_refl.
  - unfold intake in Hintake. destruct (OSet.has _ _); [done|].
    destruct (isNoise _); [|by destruct (openSession _ _ _ _)].
    injection Hintake as <-. by repeat split.
  - pose proof (wellFormed_intake now message c c' s Hwf Hintake) as Hwf'.
    destruct (intake_armed now message c c' s Hintake)
      as (c0 & base & Hopen & Hs & Hc' & _ & Hnoise).
    destruct (wellFormed_opening now message _ c0 base
                (wellFormed_recorded message c Hwf) Hopen) as (Hwf0 & Hbase & _).
    assert (H0 : untouched k' c c0).
    { assert (Hrec : untouched k' c (recorded message c)) by (by repeat split).
      destruct Hopen as [base Hget Hcol|old Hget Hcol|Hget]; [done| |done].
      eapply untouched_trans; [exact Hrec|].
      apply processSession_untouched; [by apply wellFormed_recorded|done]. }
    assert (Hwf1 : wellFormed
                     (withSessions
                        (OMap.set (Message.senderId message) s (sessions c0)) c0)).
    { apply wellFormed_buffered; [done| |].
      - rewrite Hs. unfold buffer. cbn [Session.messages]. by intros [? ?]%app_eq_nil.
      - rewrite Hs. by apply slotsFilled_buffer. }
    assert (H1 : untouched k' c0 c').
    { rewrite Hc'.
      eapply untouched_trans; [|by apply resetTimer_untouched].
      split; [|done]. cbn [sessions withSessions]. by apply OMap_get_set_ne. }
    destruct (maxMessages <=? _)%nat.
    + eapply untouched_trans; [exact H0|].
      eapply untouched_trans; [exact H1|].
      by apply processSession_untouched.
    + by eapply untouched_trans.
Qed.

Lemma removeMessage_untouched senderId messageId c k' :
  wellFormed c → senderId ≠ k' → untouched k' c (removeMessage senderId messageId c).
Proof.
  intros Hwf Hne. unfold removeMessage.
  destruct (OMap.get senderId (sessions c)) as [session|] eqn:Hget;
    [|apply untouched_refl].
  set (session' := Session.mk _ _ _ _ _ _ _).
  assert (Hset : untouched k' c (withSessions (OMap.set senderId session' (sessions c)) c)).
  { split; [|done]. cbn [sessions withSessions]. by apply OMap_get_set_ne. }
  destruct (_ <? _)%nat; [|exact Hset]. destruct (_ =? _)%nat; [|exact Hset].
  cbn [sessions withSessions]. rewrite OMap_delete_set.
  change (withSessions (OMap.delete senderId (sessions c)) (withSessions _ c))
    with (withSessions (OMap.delete senderId (sessions c)) c).
  eapply untouched_trans; [|apply clearTimer_untouched; [by apply wellFormed_delete|done]].
  split; [|done]. cbn [sessions withSessions]. by apply OMap_get_delete_ne.
Qed.

(** X3: senders do not interfere.  Whatever a message, a revoke or a
    finalization of one sender does, the session, the timer-table entry and
    the pending timers of every other sender stay as they were. *)
Theorem senders_are_independent c k' :
  wellFormed c →
  (∀ now message,
     Message.senderId message ≠ k' → untouched k' c (addMessage now message c))
  ∧ (∀ senderId messageId,
       senderId ≠ k' → untouched k' c (removeMessage senderId messageId c))
  ∧ (∀ now senderId,
       senderId ≠ k' → untouched k' c (processSession now senderId c)).
Proof.
  intros Hwf. split; [|split].
  - intros now message Hne. by apply addMessage_untouched.
  - intros senderId messageId Hne. by apply removeMessage_untouched.
  - intros now senderId Hne. by apply processSession_untouched.
Qed.

(** ** Revoked messages *)

Lemma filter_all {A} (P : A → Prop) `{∀ x, Decision (P x)} (l : list A) :
  Forall P l → filter P l = l.
Proof.
  induction 1 as [|x l Hx _ IH]; [done|].
  by rewrite filter_cons, decide_True, IH.
Qed.

Lemma withoutMessage_absent messageId s :
  messageId ∉ idsOf (Session.messages s) → withoutMessage messageId s = s.
Proof.
  intros Habsent. unfold withoutMessage. rewrite filter_all; [by destruct s|].
  apply Forall_forall. intros m Hm Heq. apply Habsent.
  apply list_elem_of_fmap. by exists m.
Qed.

Lemma withSessions_same c : withSessions (sessions c) c = c.
Proof. by destruct c. Qed.

Lemma removeMessage_withoutMessage senderId messageId c s :
  OMap.get senderId (sessions c) = Some s →
  removeMessage senderId messageId c
  = if bool_decide (Session.messages (withoutMessage messageId s) = [])
       && bool_decide (Session.messages s ≠ [])
    then clearTimer senderId (withSessions (OMap.delete senderId (sessions c)) c)
    else withSessions (OMap.set senderId (withoutMessage messageId s) (sessions c)) c.
Proof.
  intros Hget. unfold removeMessage. rewrite Hget.
  fold (withoutMessage messageId s). cbn [Session.messages withoutMessage].
  set (kept := filter _ (Session.messages s)).
  assert (Hle : (length kept ≤ length (Session.messages s))%nat)
    by apply length_filter.
  destruct (length kept <? length (Session.messages s))%nat eqn:Hless.
  - apply Nat.ltb_lt in Hless.
    rewrite (bool_decide_eq_true_2 (Session.messages s ≠ []))
      by (intros Hnil; rewrite Hnil in Hless; cbn in Hless; lia).
    rewrite andb_true_r.
    destruct (length kept =? 0)%nat eqn:Hzero.
    + apply Nat.eqb_eq, length_zero_iff_nil in Hzero.
      rewrite bool_decide_eq_true_2 by done.
      cbn [sessions withSessions]. by rewrite OMap_delete_set.
    + apply Nat.eqb_neq in Hzero. rewrite bool_decide_eq_false_2; [done|].
      intros Hnil. by rewrite Hnil in Hzero.
  - apply Nat.ltb_ge in Hless.
    destruct (bool_decide (kept = [])) eqn:Hkept; [|done].
    apply bool_decide_eq_true in Hkept. rewrite Hkept in Hless. cbn in Hless.
    rewrite bool_decide_eq_false_2; [done|].
    intros Hne. destruct (Session.messages s); [done|cbn in Hless; lia].
Qed.

(** X4: revoking a message that the session of its sender does not hold, or
    whose sender has no session, changes nothing at all: no session, cache,
    timer or output is touched. *)
Theorem removeMessage_unknown_noop senderId messageId c :
  (∀ s, OMap.get senderId (sessions c) = Some s →
        messageId ∉ idsOf (Session.messages s)) →
  removeMessage senderId messageId c = c.
Proof.
  intros Habsent.
  destruct (OMap.get senderId (sessions c)) as [s|] eqn:Hget.
  - rewrite (removeMessage_withoutMessage _ _ _ s Hget).
    rewrite (withoutMessage_absent _ _ (Habsent s eq_refl)).
    destruct (bool_decide (Session.messages s = [])) eqn:Hnil.
    + apply bool_decide_eq_true in Hnil.
      rewrite (bool_decide_eq_false_2 (Session.messages s ≠ [])) by (by intros ?).
      cbn [andb]. rewrite (OMap_set_same _ _ _ Hget). apply withSessions_same.
    + cbn [andb]. rewrite (OMap_set_same _ _ _ Hget). apply withSessions_same.
  - unfold removeMessage. by rewrite Hget.
Qed.

Lemma removeMessage_unknown_noop_witness :
  let c := addMessage 1000 (sampleMessage "A1" "a@s.whatsapp.net" "Rahul Sharma")
             (constructor 120) in
  removeMessage "a@s.whatsapp.net" "Z9" c = c
  ∧ removeMessage "b@s.whatsapp.net" "A1" c = c.
Proof.
  intros c. split.
  - apply removeMessage_unknown_noop. intros s [= <-]. vm_compute.
    intros [Heq|Hin]%elem_of_cons; [discriminate|by apply elem_of_nil in Hin].
  - apply removeMessage_unknown_noop. intros s Hget. discriminate Hget.
Defined.

Lemma timersOf_cleared k c :
  wellFormed c → timersOf k (clearTimer k c) = [] ∧ timers (clearTimer k c) !! k = None.
Proof.
  intros Hwf. unfold timersOf, clearTimer.
  destruct (timers c !! k) as [h|] eqn:Hk; cbn [pending timers].
  - split; [|apply lookup_delete_eq].
    apply filter_none. intros t [Hin Hne]%elem_of_clearTimeout Hsender.
    apply Hne. pose proof (proj2 (wf_timers c Hwf t Hin k) (eq_sym Hsender)).
    congruence.
  - split; [|done].
    apply filter_none. intros t Hin Hsender.
    pose proof (proj2 (wf_timers c Hwf t Hin k) (eq_sym Hsender)). congruence.
Qed.

Lemma processSession_emitted_elem now k c d :
  d ∈ emitted (processSession now k c) →
  d ∈ emitted c
  ∨ ∃ s, OMap.get k (sessions c) = Some s ∧ d = sessionDataOf now k s.
Proof.
  destruct (processSession_cases now k c)
    as [[-> _]|[(s & _ & _ & _ & ->)|(s & Hget & _ & _ & ->)]]; [by left..|].
  cbn [emitted withSessions emit]. rewrite clearTimer_emitted. cbn [emitted withProcessedSessions].
  intros [Hin| ->%list_elem_of_singleton]%elem_of_app; [by left|].
  right. by exists s.
Qed.

(** X5: what a revoke leaves.  The session of the sender loses the messages
    of that identifier and keeps everything else, its slots included; when
    no message is left the session goes, with its entry in the timer table
    and its pending timer.  Nothing is emitted by the revoke, and when the
    session is finalized afterwards, the payload holds no message of the
    revoked identifier. *)
Theorem removeMessage_spec now senderId messageId c s :
  wellFormed c →
  OMap.get senderId (sessions c) = Some s →
  let c' := removeMessage senderId messageId c in
  let s' := withoutMessage messageId s in
  emitted c' = emitted c
  ∧ (messageId ∉ idsOf (Session.messages s'))
  ∧ (if bool_decide (Session.messages s' = [])
     then OMap.get senderId (sessions c') = None
          ∧ timers c' !! senderId = None
          ∧ timersOf senderId c' = []
     else OMap.get senderId (sessions c') = Some s'
          ∧ timers c' = timers c
          ∧ pending c' = pending c)
  ∧ (∀ d, d ∈ emitted (processSession now senderId c') →
          d ∈ emitted c
          ∨ ((messageId ∉ idsOf (SessionData.messages d))
             ∧ SessionData.slots d = Session.slots s)).
Proof.
  intros Hwf Hget c' s'.
  assert (Hmessages : Session.messages s ≠ [])
    by (apply (wf_messages c Hwf senderId), OMap_get_Some, Hget).
  assert (Habsent : messageId ∉ idsOf (Session.messages s')).
  { unfold idsOf. intros (m & Hid & Hm)%list_elem_of_fmap.
    apply list_elem_of_filter in Hm as [Hne _]. by apply Hne. }
  assert (Hc' : c' = if bool_decide (Session.messages s' = [])
                     then clearTimer senderId
                            (withSessions (OMap.delete senderId (sessions c)) c)
                     else withSessions (OMap.set senderId s' (sessions c)) c).
  { unfold c'. rewrite (removeMessage_withoutMessage _ _ _ s Hget).
    fold s'. by rewrite (bool_decide_eq_true_2 (Session.messages s ≠ [])), andb_true_r. }
  assert (Hstate :
    if bool_decide (Session.messages s' = [])
    then OMap.get senderId (sessions c') = None
         ∧ timers c' !! senderId = None
         ∧ timersOf senderId c' = []
    else OMap.get senderId (sessions c') = Some s'
         ∧ timers c' = timers c
         ∧ pending c' = pending c).
  { rewrite Hc'. destruct (bool_decide (Session.messages s' = [])).
    - rewrite clearTimer_sessions. cbn [sessions withSessions].
      split; [apply OMap_get_delete|].
      destruct (timersOf_cleared senderId
                  (withSessions (OMap.delete senderId (sessions c)) c)
                  (wellFormed_delete c senderId Hwf)) as [Hnone Htable].
      by split.
    - cbn [sessions withSessions timers pending]. split; [apply OMap_get_set_eq|done]. }
  split; [apply removeMessage_emitted|]. split; [exact Habsent|].
  split; [exact Hstate|].
  intros d [Hd|(s0 & Hget0 & ->)]%processSession_emitted_elem.
  - left. unfold c' in Hd. by rewrite removeMessage_emitted in Hd.
  - right. destruct (bool_decide (Session.messages s' = [])).
    + destruct Hstate as [Hnone _]. congruence.
    + destruct Hstate as [Hsome _]. rewrite Hget0 in Hsome.
      injection Hsome as ->. by split.
Qed.

Lemma removeMessage_spec_witness :
  let c :=
    replay 120
      [AddMessage 1000 (sampleMessage "A1" "a@s.whatsapp.net" "Rahul Sharma");
       AddMessage 2000 (sampleMessage "A2" "a@s.whatsapp.net" "9876543210")] in
  let c' := removeMessage "a@s.whatsapp.net" "A2" c in
  (Session.messages <$> OMap.get "a@s.whatsapp.net" (sessions c'))
  = Some [Buffered.mk "A1" "Rahul Sharma" 1700000000000 1000]
  ∧ (Session.slots <$> OMap.get "a@s.whatsapp.net" (sessions c'))
    = Some (Slots.mk (Some "Rahul Sharma") (Some "9876543210") None)
  ∧ emitted c' = [].
Proof.
  intros c c'.
  destruct (removeMessage_spec 3000 "a@s.whatsapp.net" "A2" c
              (Session.mk "a@s.whatsapp.net" "919876543210" "Rahul"
                 [Buffered.mk "A1" "Rahul Sharma" 1700000000000 1000;
                  Buffered.mk "A2" "9876543210" 1700000000000 2000]
                 (Slots.mk (Some "Rahul Sharma") (Some "9876543210") None)
                 1000 2000))
    as (Hemitted & _ & Hstate & _).
  - apply reachable_wellFormed, reachable_replay.
  - reflexivity.
  - destruct Hstate as (Hget & _ & _). fold c' in Hget, Hemitted.
    rewrite Hget, Hemitted. by repeat split.
Defined.

Lemma senders_are_independent_witness :
  let c :=
    replay 120
      [AddMessage 1000 (sampleMessage "A1" "a@s.whatsapp.net" "Rahul Sharma");
       AddMessage 1500 (sampleMessage "B1" "b@s.whatsapp.net" "12 MG Road")] in
  untouched "b@s.whatsapp.net" c
    (addMessage 2000 (sampleMessage "A2" "a@s.whatsapp.net" "9876543210") c)
  ∧ untouched "b@s.whatsapp.net" c (removeMessage "a@s.whatsapp.net" "A1" c).
Proof.
  intros c.
  destruct (senders_are_independent c "b@s.whatsapp.net"
              (reachable_wellFormed c (reachable_replay _ _)))
    as (Hadd & Hremove & _).
  split.
  - apply Hadd. discriminate.
  - apply Hremove. discriminate.
Defined.

(** ** How the table and the output evolve *)

Lemma processSession_sessions now k c x :
  x ∈ sessions (processSession now k c) → x ∈ sessions c.
Proof.
  destruct (processSession_cases now k c)
    as [[-> _]|[(s & _ & _ & _ & ->)|(s & _ & _ & _ & ->)]]; [done|..];
    cbn [sessions withSessions]; destruct x as [k' s'];
    by intros [? _]%OMap_elem_delete.
Qed.

Lemma flush_sessions now (ks : list string) c x :
  x ∈ sessions (foldl (λ c k, processSession now k c) c ks) → x ∈ sessions c.
Proof.
  revert c. induction ks as [|k ks IH]; intros c; [done|].
  cbn [foldl]. intros Hin. by eapply processSession_sessions, IH.
Qed.


Lemma opening_base now message c c0 base :
  Opening now message (recorded message c) c0 base →
  (base = freshSession now message ∨ (Message.senderId message, base) ∈ sessions c)
  ∧ (∀ x, x ∈ sessions c0 → x ∈ sessions c)
  ∧ (∀ d, d ∈ emitted c0 →
          d ∈ emitted c
          ∨ ∃ s, (Message.senderId message, s) ∈ sessions c
                 ∧ d = sessionDataOf now (Message.senderId message) s).
Proof.
  intros [base' Hget _|old Hget _|Hget].
  - split; [right; by apply OMap_get_Some|]. split; [done|by left].
  - split; [by left|]. split; [apply processSession_sessions|].
    intros d [Hd|(s & Hs & ->)]%processSession_emitted_elem; [by left|].
    right. exists s. split; [by apply OMap_get_Some|done].
  - split; [by left|]. split; [done|by left].
Qed.

Lemma addMessage_evolves now message c k s :
  (k, s) ∈ sessions (addMessage now message c) →
  Evolves (AddMessage now message) c k s.
Proof.
  unfold addMessage.
  destruct (intake now message c) as [|c1|c' s1] eqn:Hintake.
  - apply Kept.
  - unfold intake in Hintake. destruct (OSet.has _ _); [done|].
    destruct (isNoise _); [|by destruct (openSession _ _ _ _)].
    injection Hintake as <-. intros Hin. apply Kept. exact Hin.
  - destruct (intake_armed now message c c' s1 Hintake)
      as (c0 & base & Hopen & Hs1 & Hc' & _ & Hnoise).
    destruct (opening_base now message c c0 base Hopen) as (Hbase & Hsub & _).
    assert (Hsessions : sessions c'
                        = OMap.set (Message.senderId message) s1 (sessions c0))
      by (by rewrite Hc').
    assert (Hlen : length (Session.messages s1) = S (length (Session.messages base))).
    { rewrite Hs1. unfold buffer. cbn [Session.messages].
      rewrite length_app. cbn [length]. lia. }
    destruct (maxMessages <=? length (Session.messages s1))%nat eqn:Hlimit.
    + intros Hin.
      assert (Hget : OMap.get (Message.senderId message) (sessions c') = Some s1)
        by (rewrite Hsessions; apply OMap_get_set_eq).
      assert (Hne : Session.messages s1 ≠ [])
        by (intros Hnil; rewrite Hnil in Hlen; discriminate Hlen).
      destruct (processSession_spec now _ c' s1 Hget Hne) as [Hdelete _].
      rewrite Hdelete, Hsessions in Hin.
      apply OMap_elem_delete in Hin as [Hin Hk].
      apply OMap_elem_set in Hin as [[= -> ->]|Hin]; [done|].
      apply Kept. by apply Hsub.
    + apply Nat.leb_gt in Hlimit. rewrite Hsessions.
      intros [[= -> ->]|Hin]%OMap_elem_set.
      * rewrite Hs1. eapply Grown; [done|done|done|exact Hbase|lia].
      * apply Kept. by apply Hsub.
Qed.

Lemma removeMessage_evolves senderId messageId c k s :
  (k, s) ∈ sessions (removeMessage senderId messageId c) →
  Evolves (RemoveMessage senderId messageId) c k s.
Proof.
  destruct (OMap.get senderId (sessions c)) as [s0|] eqn:Hget.
  - rewrite (removeMessage_withoutMessage _ _ _ s0 Hget).
    destruct (_ && _).
    + rewrite clearTimer_sessions. cbn [sessions withSessions].
      intros [Hin _]%OMap_elem_delete. by apply Kept.
    + cbn [sessions withSessions].
      intros [[= -> ->]|Hin]%OMap_elem_set; [|by apply Kept].
      apply Shrunk; [done|by apply OMap_get_Some].
  - unfold removeMessage. rewrite Hget. apply Kept.
Qed.

Lemma fire_sessions now h c x : x ∈ sessions (fire now h c) → x ∈ sessions c.
Proof.
  unfold fire. destruct (List.find _ _) as [t|]; [|done].
  apply processSession_sessions.
Qed.

Lemma step_evolves e c k s :
  (k, s) ∈ sessions (step e c) → Evolves e c k s.
Proof.
  destruct e as [now message|senderId messageId|now h|now]; cbn [step].
  - apply addMessage_evolves.
  - apply removeMessage_evolves.
  - intros Hin. by apply Kept, (fire_sessions now h).
  - intros Hin. by apply Kept, (flush_sessions now (OMap.keys (sessions c))).
Qed.



(** ** The sessions of the table *)

Lemma noiseFree_buffer now message slot base :
  isNoise (Message.text message) = false →
  noiseFree (Session.messages base) →
  noiseFree (Session.messages (buffer now message slot base)).
Proof.
  intros Hnoise Hbase. unfold noiseFree, buffer. cbn [Session.messages].
  apply Forall_app. split; [done|]. by apply Forall_singleton.
Qed.

Lemma noiseFree_filter (P : Buffered.t → Prop) `{∀ x, Decision (P x)} l :
  noiseFree l → noiseFree (filter P l).
Proof.
  unfold noiseFree. rewrite !Forall_forall.
  intros Hall m [_ Hm]%list_elem_of_filter. by apply Hall.
Qed.

Lemma step_tidy e c :
  wellFormed c → tidySessions c → tidySessions (step e c).
Proof.
  intros Hwf Htidy k s Hin.
  assert (Hne : Session.messages s ≠ [])
    by apply (wf_messages _ (wellFormed_step e c Hwf) k s Hin).
  assert (Hpos : (0 < length (Session.messages s))%nat)
    by (destruct (Session.messages s); [done|cbn; lia]).
  destruct (step_evolves e c k s Hin)
    as [s Hs|messageId s _ Hs|now message base _ Hk Hnoise Hbase Hlen].
  - by apply Htidy.
  - destruct (Htidy k s Hs) as (Hsender & [_ Hlimit] & Hfree).
    split; [done|]. split; [|by apply noiseFree_filter].
    split; [done|]. cbn [withoutMessage Session.messages] in *.
    eapply Nat.le_lt_trans; [apply length_filter|done].
  - rewrite Hk in *.
    assert (Hsender : Session.senderId base = Message.senderId message
                      ∧ noiseFree (Session.messages base)).
    { destruct Hbase as [->|Hbase]; [split; [done|apply Forall_nil_2]|].
      destruct (Htidy _ _ Hbase) as (? & _ & ?). by split. }
    destruct Hsender as [Hsender Hfree].
    split; [done|]. split; [|by apply noiseFree_buffer].
    split; [done|]. unfold buffer. cbn [Session.messages].
    rewrite length_app. cbn [length]. lia.
Qed.

(** X6: in every state that a history of messages, revokes, timers and
    flushes leads to, each session of the table is filed under its own
    sender, holds at least one message and fewer than ten, and holds no
    greeting: a session that reaches the limit is finalized at once. *)
Theorem reachable_sessions_tidy c k s :
  reachable c →
  OMap.get k (sessions c) = Some s →
  Session.senderId s = k
  ∧ (1 ≤ length (Session.messages s) ≤ 9)%nat
  ∧ noiseFree (Session.messages s).
Proof.
  intros Hreach Hget.
  assert (Htidy : tidySessions c).
  { clear k s Hget. induction Hreach as [timeoutSeconds|e c Hreach IH].
    - intros k s Hin. by apply elem_of_nil in Hin.
    - apply step_tidy; [by apply reachable_wellFormed|done]. }
  destruct (Htidy k s (OMap_get_Some _ _ _ Hget)) as (Hsender & [Hpos Hlimit] & Hfree).
  split; [done|]. split; [|done].
  change maxMessages with 10%nat in Hlimit. lia.
Qed.

Lemma reachable_sessions_tidy_witness :
  let c :=
    replay 120
      [AddMessage 1000 (sampleMessage "A1" "a@s.whatsapp.net" "Rahul Sharma");
       AddMessage 1500 (sampleMessage "A2" "a@s.whatsapp.net" "hello");
       AddMessage 2000 (sampleMessage "A3" "a@s.whatsapp.net" "9876543210")] in
  ∃ s, OMap.get "a@s.whatsapp.net" (sessions c) = Some s
       ∧ length (Session.messages s) = 2%nat
       ∧ noiseFree (Session.messages s).
Proof.
  intros c. eexists. split; [reflexivity|]. split; [reflexivity|].
  eapply (reachable_sessions_tidy c "a@s.whatsapp.net").
  - apply reachable_replay.
  - reflexivity.
Defined.

(** ** The payloads emitted *)





(** ** The two caches *)

Lemma OSet_deletes_NoDup (xs s : list string) :
  NoDup s → NoDup (foldl (λ acc x, OSet.delete x acc) s xs).
Proof.
  revert s. induction xs as [|x xs IH]; intros s Hs; [done|].
  cbn [foldl]. apply IH. unfold OSet.delete. by apply NoDup_filter.
Qed.

Lemma OSet_deletes_length (xs s : list string) :
  (length (foldl (λ acc x, OSet.delete x acc) s xs) ≤ length s)%nat.
Proof.
  revert s. induction xs as [|x xs IH]; intros s; [done|].
  cbn [foldl]. etrans; [apply IH|]. apply length_filter.
Qed.

Lemma OSet_evictOldest_shrinks (n : nat) (s : list string) :
  (0 < n)%nat → s ≠ [] → (length (OSet.evictOldest n s) < length s)%nat.
Proof.
  intros Hn Hs. unfold OSet.evictOldest.
  destruct s as [|x s]; [done|]. destruct n as [|n]; [lia|].
  cbn [take foldl].
  eapply Nat.le_lt_trans; [apply OSet_deletes_length|].
  unfold OSet.delete. apply (length_filter_lt _ _ x); [apply list_elem_of_here|].
  by intros ?.
Qed.

Lemma OSet_add_NoDup (x : string) (s : list string) :
  NoDup s → NoDup (OSet.add x s).
Proof.
  intros Hs. unfold OSet.add. destruct (OSet.has x s) eqn:Hhas; [done|].
  apply OSet_has_false in Hhas. apply NoDup_app. split; [done|].
  split; [|apply NoDup_singleton].
  intros y Hy ->%list_elem_of_singleton. done.
Qed.

Lemma OSet_addBounded_bounded (ceiling batch : nat) (x : string) (s : list string) :
  (0 < batch)%nat →
  NoDup s ∧ (length s ≤ ceiling)%nat →
  NoDup (OSet.addBounded ceiling batch x s)
  ∧ (length (OSet.addBounded ceiling batch x s) ≤ ceiling)%nat.
Proof.
  intros Hbatch [Hnodup Hlen]. unfold OSet.addBounded.
  pose proof (OSet_add_NoDup x s Hnodup) as Hadd.
  assert (Hgrow : (length (OSet.add x s) ≤ S (length s))%nat).
  { unfold OSet.add. destruct (OSet.has x s); [lia|].
    rewrite length_app. cbn [length]. lia. }
  destruct (ceiling <? length (OSet.add x s))%nat eqn:Hfull.
  - apply Nat.ltb_lt in Hfull. split; [by apply OSet_deletes_NoDup|].
    assert (Hne : OSet.add x s ≠ [])
      by (intros Hnil; rewrite Hnil in Hfull; cbn in Hfull; lia).
    pose proof (OSet_evictOldest_shrinks batch _ Hbatch Hne). lia.
  - apply Nat.ltb_ge in Hfull. by split.
Qed.

Section Caches.
Variables P Q : list string → Prop.
Hypothesis P_add : ∀ x s, P s → P (OSet.addBounded 10000 5000 x s).
Hypothesis Q_add : ∀ x s, Q s → Q (OSet.addBounded 1000 500 x s).

Lemma processSession_processed now k c :
  Q (processedSessions c) → Q (processedSessions (processSession now k c)).
Proof.
  intros Hq.
  destruct (processSession_cases now k c)
    as [[-> _]|[(s & _ & _ & _ & ->)|(s & _ & _ & _ & ->)]]; [done..|].
  cbn [processedSessions withSessions emit]. rewrite clearTimer_processed.
  cbn [processedSessions withProcessedSessions]. by apply Q_add.
Qed.

Lemma flush_processed now (ks : list string) c :
  Q (processedSessions c) →
  Q (processedSessions (foldl (λ c k, processSession now k c) c ks)).
Proof.
  revert c. induction ks as [|k ks IH]; intros c Hq; [done|].
  cbn [foldl]. by apply IH, processSession_processed.
Qed.

Lemma removeMessage_processed senderId messageId c :
  processedSessions (removeMessage senderId messageId c) = processedSessions c.
Proof.
  unfold removeMessage. destruct (OMap.get _ _); [|done].
  destruct (_ <? _)%nat; [|done]. destruct (_ =? _)%nat; [|done].
  by rewrite clearTimer_processed.
Qed.

Lemma addMessage_processed now message c :
  Q (processedSessions c) → Q (processedSessions (addMessage now message c)).
Proof.
  intros Hq. unfold addMessage.
  destruct (intake now message c) as [|c1|c' s1] eqn:Hintake.
  - done.
  - unfold intake in Hintake. destruct (OSet.has _ _); [done|].
    destruct (isNoise _); [|by destruct (openSession _ _ _ _)].
    by injection Hintake as <-.
  - destruct (intake_armed now message c c' s1 Hintake)
      as (c0 & base & Hopen & _ & Hc' & _ & _).
    assert (Hq0 : Q (processedSessions c0)).
    { destruct Hopen as [base Hget Hcol|old Hget Hcol|Hget]; [done| |done].
      by apply processSession_processed. }
    assert (Hq' : Q (processedSessions c')) by (by rewrite Hc').
    destruct (_ <=? _)%nat; [by apply processSession_processed|done].
Qed.

Lemma addMessage_cached now message c :
  P (processedMessageIds c) → P (processedMessageIds (addMessage now message c)).
Proof.
  intros Hp.
  destruct (OSet.has (Message.id message) (processedMessageIds c)) eqn:Hseen.
  - unfold addMessage, intake. by rewrite Hseen.
  - rewrite (addMessage_ids _ _ _ Hseen). by apply P_add.
Qed.

Lemma step_caches e c :
  P (processedMessageIds c) ∧ Q (processedSessions c) →
  P (processedMessageIds (step e c)) ∧ Q (processedSessions (step e c)).
Proof.
  intros [Hp Hq].
  destruct e as [now message|senderId messageId|now h|now]; cbn [step].
  - split; [by apply addMessage_cached|by apply addMessage_processed].
  - by rewrite removeMessage_ids, removeMessage_processed.
  - rewrite fire_ids. split; [done|].
    unfold fire. destruct (List.find _ _); [|done].
    by apply processSession_processed.
  - unfold flushAll. rewrite flush_ids. split; [done|by apply flush_processed].
Qed.

End Caches.

(** X8: the two caches stay bounded.  In every state that a history leads
    to, the cache of message identifiers holds no identifier twice and at
    most 10000 of them, and the cache of session identifiers holds no
    identifier twice and at most 1000 of them. *)
Theorem reachable_caches_bounded c :
  reachable c →
  (NoDup (processedMessageIds c) ∧ (length (processedMessageIds c) ≤ 10000)%nat)
  ∧ (NoDup (processedSessions c) ∧ (length (processedSessions c) ≤ 1000)%nat).
Proof.
  induction 1 as [timeoutSeconds|e c _ IH].
  - cbn. repeat split; try apply NoDup_nil_2; apply Nat.le_0_l.
  - apply (step_caches
             (λ s, NoDup s ∧ (length s ≤ 10000)%nat)
             (λ s, NoDup s ∧ (length s ≤ 1000)%nat)); [| |exact IH].
    + intros x s. apply OSet_addBounded_bounded.
      apply Nat.ltb_lt. vm_compute. reflexivity.
    + intros x s. apply OSet_addBounded_bounded.
      apply Nat.ltb_lt. vm_compute. reflexivity.
Qed.

Lemma reachable_caches_bounded_witness :
  let c :=
    replay 120
      [AddMessage 1000 (sampleMessage "A1" "a@s.whatsapp.net" "Rahul Sharma");
       AddMessage 1500 (sampleMessage "A1" "a@s.whatsapp.net" "Rahul Sharma");
       AddMessage 2000 (sampleMessage "A2" "a@s.whatsapp.net" "hello");
       FlushAll 3000] in
  processedMessageIds c = ["A1"; "A2"]
  ∧ processedSessions c = ["a@s.whatsapp.net_1000"]
  ∧ NoDup (processedMessageIds c)
  ∧ NoDup (processedSessions c).
Proof.
  intros c.
  destruct (reachable_caches_bounded c (reachable_replay _ _))
    as [[Hids _] [Hsessions _]].
  split; [reflexivity|]. split; [reflexivity|]. by split.
Defined.

(** ** No session without a timer *)

Lemma live_untouched k c c' :
  wellFormed c' →
  untouched k c c' →
  (∀ s, (k, s) ∈ sessions c → ∃ t, timersOf k c = [t]) →
  ∀ s, (k, s) ∈ sessions c' → ∃ t, timersOf k c' = [t].
Proof.
  intros Hwf' (Hsessions & _ & Htimers) Hlive s Hin.
  apply (OMap_elem_get _ _ _ (wf_keys c' Hwf')) in Hin.
  rewrite Hsessions in Hin. rewrite Htimers.
  by apply (Hlive s), OMap_get_Some.
Qed.

Lemma timersOf_resetTimer k timeout c :
  wellFormed c →
  timersOf k (resetTimer k timeout c) = [Timer.mk (nextHandle c) k timeout].
Proof.
  intros Hwf. unfold timersOf, resetTimer. cbn [pending].
  rewrite filter_app, filter_cons. cbn [Timer.sender].
  rewrite decide_True by done. rewrite filter_nil.
  rewrite (filter_none _ _); [done|].
  intros t Hin Hsender.
  destruct (timers c !! k) as [h|] eqn:Hk.
  - apply elem_of_clearTimeout in Hin as [Hin Hne].
    apply Hne. pose proof (proj2 (wf_timers c Hwf t Hin k) (eq_sym Hsender)).
    congruence.
  - pose proof (proj2 (wf_timers c Hwf t Hin k) (eq_sym Hsender)). congruence.
Qed.

Lemma processSession_closes now k c s :
  wellFormed c → (k, s) ∉ sessions (processSession now k c).
Proof.
  intros Hwf Hin.
  pose proof (processSession_sessions _ _ _ _ Hin) as Hold.
  pose proof (wf_messages c Hwf k s Hold) as Hne.
  apply (OMap_elem_get _ _ _ (wf_keys c Hwf)) in Hold.
  destruct (processSession_spec now k c s Hold Hne) as [Hdelete _].
  rewrite Hdelete in Hin. by apply OMap_elem_delete in Hin as [_ ?].
Qed.

Lemma live_processSession now k c :
  wellFormed c → live c → live (processSession now k c).
Proof.
  intros Hwf Hlive k' s Hin.
  destruct (decide (k = k')) as [<-|Hne].
  - exfalso. by apply (processSession_closes now k c s Hwf).
  - eapply (live_untouched k' c);
      [by apply wellFormed_processSession|by apply processSession_untouched|
        exact (Hlive k')|done].
Qed.

Lemma live_flush now (ks : list string) c :
  wellFormed c → live c → live (foldl (λ c k, processSession now k c) c ks).
Proof.
  revert c. induction ks as [|k ks IH]; intros c Hwf Hlive; [done|].
  cbn [foldl]. apply IH; [by apply wellFormed_processSession|].
  by apply live_processSession.
Qed.

Lemma live_addMessage now message c :
  wellFormed c → live c → live (addMessage now message c).
Proof.
  intros Hwf Hlive k s Hin.
  destruct (decide (Message.senderId message = k)) as [<-|Hne].
  - revert Hin. unfold addMessage.
    destruct (intake now message c) as [|c1|c' s1] eqn:Hintake.
    + apply Hlive.
    + unfold intake in Hintake. destruct (OSet.has _ _); [done|].
      destruct (isNoise _); [|by destruct (openSession _ _ _ _)].
      injection Hintake as <-. apply Hlive.
    + pose proof (wellFormed_intake now message c c' s1 Hwf Hintake) as Hwf'.
      destruct (intake_armed now message c c' s1 Hintake)
        as (c0 & base & Hopen & Hs1 & Hc' & _ & Hnoise).
      destruct (wellFormed_opening now message _ c0 base
                  (wellFormed_recorded message c Hwf) Hopen) as (Hwf0 & Hbase & _).
      assert (Hwf1 : wellFormed
                       (withSessions
                          (OMap.set (Message.senderId message) s1 (sessions c0)) c0)).
      { apply wellFormed_buffered; [done| |].
        - rewrite Hs1. unfold buffer. cbn [Session.messages].
          by intros [? ?]%app_eq_nil.
        - rewrite Hs1. by apply slotsFilled_buffer. }
      destruct (_ <=? _)%nat.
      * intros Hin. exfalso.
        by apply (processSession_closes now (Message.senderId message) c' s Hwf').
      * intros _. rewrite Hc'. eexists. by apply timersOf_resetTimer.
  - eapply (live_untouched k c);
      [by apply wellFormed_addMessage|by apply addMessage_untouched|
        exact (Hlive k)|done].
Qed.

Lemma live_removeMessage senderId messageId c :
  wellFormed c → live c → live (removeMessage senderId messageId c).
Proof.
  intros Hwf Hlive k s Hin.
  destruct (decide (senderId = k)) as [<-|Hne].
  - revert Hin.
    destruct (OMap.get senderId (sessions c)) as [s0|] eqn:Hget.
    + rewrite (removeMessage_withoutMessage _ _ _ s0 Hget).
      destruct (_ && _).
      * rewrite clearTimer_sessions. cbn [sessions withSessions].
        by intros [_ ?]%OMap_elem_delete.
      * intros _. apply (Hlive senderId s0). by apply OMap_get_Some.
    + unfold removeMessage. rewrite Hget. apply Hlive.
  - eapply (live_untouched k c);
      [by apply wellFormed_removeMessage|by apply removeMessage_untouched|
        exact (Hlive k)|done].
Qed.

Lemma live_fire now h c : wellFormed c → live c → live (fire now h c).
Proof.
  intros Hwf Hlive. unfold fire.
  destruct (List.find _ _) as [t|] eqn:Hfind; [|done].
  apply find_some in Hfind as [Hin Hhandle].
  apply list_elem_of_In in Hin. apply Nat.eqb_eq in Hhandle.
  set (c1 := mkCorrelator _ _ _ _ _ _ _ _).
  assert (Hwf1 : wellFormed c1).
  { destruct Hwf as [Hkeys Hmessages Hslots Htimers Hhandles].
    constructor; cbn; try done.
    intros t' [Hin' _]%elem_of_clearTimeout. by apply Htimers. }
  intros k s Hk.
  destruct (decide (Timer.sender t = k)) as [<-|Hne].
  - exfalso. by apply (processSession_closes now (Timer.sender t) c1 s Hwf1).
  - eapply (live_untouched k c1);
      [by apply wellFormed_processSession|by apply processSession_untouched| |done].
    intros s' Hin'. destruct (Hlive k s' Hin') as [t' Ht']. exists t'.
    rewrite <- Ht'. unfold timersOf, c1. cbn [pending].
    apply filter_filter_implied. intros x Hx Hsender Hsame.
    apply Hne. rewrite <- Hsender. symmetry.
    apply (wf_timers c Hwf t Hin). rewrite Hhandle, <- Hsame.
    by apply (wf_timers c Hwf x Hx).
Qed.

Lemma live_step e c : wellFormed c → live c → live (step e c).
Proof.
  intros Hwf Hlive.
  destruct e as [now message|senderId messageId|now h|now]; cbn [step].
  - by apply live_addMessage.
  - by apply live_removeMessage.
  - by apply live_fire.
  - by apply live_flush.
Qed.

(** X9: no session is left without a timer.  In every state that a history
    leads to, each session of the table has exactly one pending timer, the
    one whose handle the timer table holds for its sender: once that timer
    fires the session is finalized, so a buffered message cannot wait for
    ever. *)
Theorem reachable_session_has_timer c k s :
  reachable c →
  OMap.get k (sessions c) = Some s →
  ∃ t, timersOf k c = [t]
       ∧ timers c !! k = Some (Timer.handle t)
       ∧ ∀ now, OMap.get k (sessions (fire now (Timer.handle t) c)) = None.
Proof.
  intros Hreach Hget.
  pose proof (reachable_wellFormed c Hreach) as Hwf.
  assert (Hlive : live c).
  { clear k s Hget Hwf. induction Hreach as [timeoutSeconds|e c Hreach IH].
    - intros k s Hin. by apply elem_of_nil in Hin.
    - apply live_step; [by apply reachable_wellFormed|done]. }
  destruct (Hlive k s (OMap_get_Some _ _ _ Hget)) as [t Ht]. exists t.
  assert (Hin : Timer.sender t = k ∧ t ∈ pending c).
  { apply (list_elem_of_filter (λ t, Timer.sender t = k)).
    fold (timersOf k c). rewrite Ht. apply list_elem_of_here. }
  destruct Hin as [Hsender Hin].
  split; [done|]. split; [by apply (wf_timers c Hwf t Hin)|].
  intros now. unfold fire.
  destruct (List.find _ _) as [t'|] eqn:Hfind.
  - apply find_some in Hfind as [Hin' Hhandle].
    apply list_elem_of_In in Hin'. apply Nat.eqb_eq in Hhandle.
    assert (Hsame : Timer.sender t' = k).
    { symmetry. apply (wf_timers c Hwf t' Hin'). rewrite Hhandle.
      by apply (wf_timers c Hwf t Hin). }
    rewrite Hsame.
    set (c1 := mkCorrelator _ _ _ _ _ _ _ _).
    destruct (processSession_spec now k c1 s Hget) as [Hdelete _].
    + by apply (wf_messages c Hwf k), OMap_get_Some.
    + rewrite Hdelete. apply OMap_get_delete.
  - apply list_elem_of_In in Hin.
    pose proof (find_none _ _ Hfind t Hin) as Hno. cbn beta in Hno.
    by rewrite Nat.eqb_refl in Hno.
Qed.

Lemma reachable_session_has_timer_witness :
  let c :=
    replay 120
      [AddMessage 1000 (sampleMessage "A1" "a@s.whatsapp.net" "Rahul Sharma");
       AddMessage 2000 (sampleMessage "A2" "a@s.whatsapp.net" "9876543210");
       RemoveMessage "a@s.whatsapp.net" "A1"] in
  timersOf "a@s.whatsapp.net" c = [Timer.mk 1 "a@s.whatsapp.net" 10000]
  ∧ ∃ t, timersOf "a@s.whatsapp.net" c = [t]
         ∧ timers c !! "a@s.whatsapp.net" = Some (Timer.handle t).
Proof.
  intros c. split; [reflexivity|].
  destruct (reachable_session_has_timer c "a@s.whatsapp.net"
              (Session.mk "a@s.whatsapp.net" "919876543210" "Rahul"
                 [Buffered.mk "A2" "9876543210" 1700000000000 2000]
                 (Slots.mk (Some "Rahul Sharma") (Some "9876543210") None)
                 1000 2000) (reachable_replay _ _) eq_refl)
    as (t & Ht & Htable & _).
  exists t. split; [exact Ht|exact Htable].
Defined.

(** ** Shutdown *)

Lemma empty_quiet_step e c :
  sessions c = [] → quiet e →
  sessions (step e c) = [] ∧ emitted (step e c) = emitted c.
Proof.
  intros Hempty Hquiet.
  destruct e as [now message|senderId messageId|now h|now]; cbn [step]; [done|..].
  - unfold removeMessage. by rewrite Hempty.
  - unfold fire. destruct (List.find _ _) as [t|]; [|done].
    unfold processSession. cbn [sessions]. by rewrite Hempty.
  - unfold flushAll. by rewrite Hempty.
Qed.

(** X10: after the flush of a shutdown nothing more comes out.  The table is
    empty, a second flush changes nothing, and whatever timers still fire and
    whatever revokes still arrive, the output stays as the flush left it
    until a new message comes in. *)
Theorem flushAll_quiescent now c (events : list Event) :
  wellFormed c →
  Forall quiet events →
  let c' := flushAll now c in
  sessions c' = []
  ∧ (∀ now', flushAll now' c' = c')
  ∧ sessions (foldl (λ c e, step e c) c' events) = []
  ∧ emitted (foldl (λ c e, step e c) c' events) = emitted c'.
Proof.
  intros Hwf Hquiet c'.
  assert (Hempty : sessions c' = []).
  { destruct (flush_spec now (sessions c) c eq_refl (wf_keys c Hwf) (wf_messages c Hwf))
      as [Hnone _]. exact Hnone. }
  split; [done|]. split; [intros now'; unfold flushAll; by rewrite Hempty|].
  clearbody c'. clear Hwf.
  revert c' Hempty. induction Hquiet as [|e events He _ IH]; intros c' Hempty; [done|].
  cbn [foldl]. destruct (empty_quiet_step e c' Hempty He) as [Hsessions Hemitted].
  destruct (IH (step e c') Hsessions) as [Hs He']. split; [done|congruence].
Qed.

Lemma flushAll_quiescent_witness :
  let c :=
    replay 120
      [AddMessage 1000 (sampleMessage "A1" "a@s.whatsapp.net" "Rahul Sharma");
       AddMessage 1500 (sampleMessage "B1" "b@s.whatsapp.net" "12 MG Road")] in
  let c' := flushAll 3000 c in
  length (emitted c') = 2%nat
  ∧ emitted (foldl (λ c e, step e c) c'
               [TimerFires 31000 0; TimerFires 31500 1;
                RemoveMessage "a@s.whatsapp.net" "A1"; FlushAll 40000])
    = emitted c'.
Proof.
  intros c c'. split; [reflexivity|].
  destruct (flushAll_quiescent 3000 c
              [TimerFires 31000 0; TimerFires 31500 1;
               RemoveMessage "a@s.whatsapp.net" "A1"; FlushAll 40000])
    as (_ & _ & _ & Hemitted).
  - apply reachable_wellFormed, reachable_replay.
  - by repeat constructor.
  - exact Hemitted.
Defined.

(** ** [destroy] *)

Lemma elem_of_clearTimeouts (t : Timer.t) (hs : list nat) (l : list Timer.t) :
  t ∈ foldl (λ l h, clearTimeout h l) l hs ↔ t ∈ l ∧ Timer.handle t ∉ hs.
Proof.
  revert l. induction hs as [|h hs IH]; intros l; cbn [foldl].
  - split; [intros ?; split; [done|apply not_elem_of_nil]|by intros [? _]].
  - rewrite IH, elem_of_clearTimeout, not_elem_of_cons. tauto.
Qed.

(** X11: [destroy] drops what is buffered without a word.  It leaves no
    session, no entry in the timer table and no pending timer, and emits
    nothing; the two caches stay, so a message that was buffered is refused
    as a duplicate if it is delivered again, and a flush afterwards has
    nothing to emit. *)
Theorem destroy_spec c :
  wellFormed c →
  let c' := destroy c in
  sessions c' = [] ∧ timers c' = ∅ ∧ pending c' = []
  ∧ emitted c' = emitted c
  ∧ wellFormed c'
  ∧ (∀ now, flushAll now c' = c')
  ∧ (∀ now message,
       Message.id message ∈ processedMessageIds c →
       addMessage now message c' = c').
Proof.
  intros Hwf c'.
  assert (Hpending : pending c' = []).
  { apply elem_of_nil_inv. intros t. unfold c', destroy. cbn [pending].
    rewrite elem_of_clearTimeouts. intros [Hin Hkept]. apply Hkept.
    apply list_elem_of_fmap. exists (Timer.sender t, Timer.handle t).
    split; [done|]. apply elem_of_map_to_list.
    by apply (wf_timers c Hwf t Hin). }
  split; [done|]. split; [done|]. split; [done|]. split; [done|].
  split; [|split].
  - constructor.
    + apply NoDup_nil_2.
    + intros k s Hin. by apply elem_of_nil in Hin.
    + intros k s Hin. by apply elem_of_nil in Hin.
    + rewrite Hpending. intros t Hin. by apply elem_of_nil in Hin.
    + intros k h Hk. unfold c', destroy in Hk. cbn [timers] in Hk.
      by rewrite lookup_empty in Hk.
  - done.
  - intros now message Hseen%OSet_has_true.
    unfold addMessage, intake. cbn [processedMessageIds c' destroy].
    by rewrite Hseen.
Qed.

Lemma destroy_spec_witness :
  let c :=
    replay 120
      [AddMessage 1000 (sampleMessage "A1" "a@s.whatsapp.net" "Rahul Sharma");
       AddMessage 1500 (sampleMessage "B1" "b@s.whatsapp.net" "12 MG Road")] in
  length (sessions c) = 2%nat
  ∧ pending (destroy c) = []
  ∧ emitted (destroy c) = []
  ∧ addMessage 5000 (sampleMessage "A1" "a@s.whatsapp.net" "Rahul Sharma") (destroy c)
    = destroy c.
Proof.
  intros c.
  destruct (destroy_spec c (reachable_wellFormed c (reachable_replay _ _)))
    as (_ & _ & Hpending & Hemitted & _ & _ & Hduplicate).
  split; [reflexivity|]. split; [exact Hpending|]. split; [exact Hemitted|].
  apply Hduplicate. apply OSet_has_true. reflexivity.
Defined.

(** ** The message limit *)

Lemma opening_joins now message c c0 base s :
  Opening now message c c0 base →
  OMap.get (Message.senderId message) (sessions c) = Some s →
  collides (identifySlot (Message.text message)) s = false →
  c0 = c ∧ base = s.
Proof.
  intros [base' Hget' _|old Hget' Hcol|Hget'] Hget Hfree.
  - split; [done|congruence].
  - rewrite Hget in Hget'. injection Hget' as <-. congruence.
  - congruence.
Qed.

(** X12: the message that fills a session finalizes it at once.  When a
    sender's session holds nine messages and a tenth joins it, the session
    leaves the table within the same call and its timer is cancelled; the
    payload emitted holds all ten messages, the tenth last.  If the
    identifier of the session is already in the cache of processed sessions
    the ten messages are dropped and nothing is emitted. *)
Theorem message_limit_finalizes now message c s :
  wellFormed c →
  Message.id message ∉ processedMessageIds c →
  isNoise (Message.text message) = false →
  OMap.get (Message.senderId message) (sessions c) = Some s →
  collides (identifySlot (Message.text message)) s = false →
  (maxMessages ≤ S (length (Session.messages s)))%nat →
  let k := Message.senderId message in
  let full := buffer now message (identifySlot (Message.text message)) s in
  let c' := addMessage now message c in
  OMap.get k (sessions c') = None
  ∧ if OSet.has (sessionIdOf k s) (processedSessions c)
    then emitted c' = emitted c
    else emitted c' = emitted c ++ [sessionDataOf now k full]
         ∧ timers c' !! k = None
         ∧ timersOf k c' = [].
Proof.
  intros Hwf Hfresh Hnoise Hget Hfree Hlimit k full c'.
  destruct (intake_fresh now message c Hfresh Hnoise) as (c1 & s1 & Hintake).
  pose proof (wellFormed_intake now message c c1 s1 Hwf Hintake) as Hwf1.
  destruct (intake_armed now message c c1 s1 Hintake)
    as (c0 & base & Hopen & Hs1 & Hc1 & _ & _).
  destruct (opening_joins now message _ c0 base s Hopen Hget Hfree) as [-> ->].
  fold full in Hs1. subst s1.
  assert (Hfull : length (Session.messages full) = S (length (Session.messages s))).
  { unfold full, buffer. cbn [Session.messages]. rewrite length_app. cbn [length]. lia. }
  assert (Hc' : c' = processSession now k c1).
  { unfold c', addMessage. rewrite Hintake.
    by rewrite (proj2 (Nat.leb_le _ _)) by (rewrite Hfull; exact Hlimit). }
  assert (Hget1 : OMap.get k (sessions c1) = Some full).
  { rewrite Hc1. cbn [sessions resetTimer withSessions]. apply OMap_get_set_eq. }
  assert (Hne : Session.messages full ≠ [])
    by (intros Hnil; rewrite Hnil in Hfull; discriminate Hfull).
  assert (Hprocessed : processedSessions c1 = processedSessions c) by (by rewrite Hc1).
  assert (Hemitted : emitted c1 = emitted c) by (by rewrite Hc1).
  assert (Hid : sessionIdOf k full = sessionIdOf k s) by done.
  rewrite Hc'.
  destruct (processSession_cases now k c1)
    as [[_ [Hnone|(s2 & Hget2 & Hnil)]]
       |[(s2 & Hget2 & _ & Hseen & ->)|(s2 & Hget2 & _ & Hseen & ->)]].
  - congruence.
  - rewrite Hget1 in Hget2. injection Hget2 as <-. done.
  - rewrite Hget1 in Hget2. injection Hget2 as <-.
    rewrite Hid, Hprocessed in Hseen. rewrite Hseen.
    cbn [sessions emitted withSessions]. split; [apply OMap_get_delete|done].
  - rewrite Hget1 in Hget2. injection Hget2 as <-.
    rewrite Hid, Hprocessed in Hseen. rewrite Hseen.
    cbn [sessions emitted timers withSessions emit]. split; [apply OMap_get_delete|].
    rewrite clearTimer_emitted. cbn [emitted withProcessedSessions].
    rewrite Hemitted. split; [done|].
    assert (Hmarked : wellFormed
                        (withProcessedSessions
                           (OSet.addBounded 1000 500 (sessionIdOf k full)
                              (processedSessions c1)) c1))
      by (destruct Hwf1; by constructor).
    destruct (timersOf_cleared k _ Hmarked) as [Hnone Htable].
    split; [exact Htable|exact Hnone].
Qed.

Lemma message_limit_finalizes_witness :
  let c :=
    replay 120
      [AddMessage 1000 (sampleMessage "A1" "a@s.whatsapp.net" "blue door one");
       AddMessage 1100 (sampleMessage "A2" "a@s.whatsapp.net" "blue door two");
       AddMessage 1200 (sampleMessage "A3" "a@s.whatsapp.net" "blue door three");
       AddMessage 1300 (sampleMessage "A4" "a@s.whatsapp.net" "blue door four");
       AddMessage 1400 (sampleMessage "A5" "a@s.whatsapp.net" "blue door five");
       AddMessage 1500 (sampleMessage "A6" "a@s.whatsapp.net" "blue door six");
       AddMessage 1600 (sampleMessage "A7" "a@s.whatsapp.net" "blue door seven");
       AddMessage 1700 (sampleMessage "A8" "a@s.whatsapp.net" "blue door eight");
       AddMessage 1800 (sampleMessage "A9" "a@s.whatsapp.net" "blue door nine")] in
  let c' := addMessage 1900 (sampleMessage "A10" "a@s.whatsapp.net" "blue door ten") c in
  (length ∘ Session.messages <$> OMap.get "a@s.whatsapp.net" (sessions c)) = Some 9%nat
  ∧ emitted c = []
  ∧ OMap.get "a@s.whatsapp.net" (sessions c') = None
  ∧ (SessionData.messageCount <$> emitted c') = [10%nat].
Proof.
  intros c c'.
  split; [vm_compute; reflexivity|]. split; [vm_compute; reflexivity|].
  split; [|vm_compute; reflexivity].
  eassert (Hget : OMap.get "a@s.whatsapp.net" (sessions c) = Some _)
    by (vm_compute; reflexivity).
  edestruct (message_limit_finalizes 1900
               (sampleMessage "A10" "a@s.whatsapp.net" "blue door ten") c)
    as [Hnone _].
  - apply reachable_wellFormed, reachable_replay.
  - apply OSet_has_false. vm_compute. reflexivity.
  - vm_compute. reflexivity.
  - exact Hget.
  - vm_compute. reflexivity.
  - apply Nat.leb_le. vm_compute. reflexivity.
  - exact Hnone.
Defined.

(** ** [getStats] *)

(** X13: what [getStats] reports.  In every state that a history leads to,
    the report lists each sender that has a session exactly once, in the
    order in which the sessions were opened; the number of active sessions
    is the number of entries; and each entry counts between one and nine
    messages. *)
Theorem getStats_spec now c :
  reachable c →
  let stats := getStats now c in
  Stats.activeSessions stats = length (Stats.sessions stats)
  ∧ (Stats.senderId <$> Stats.sessions stats) = OMap.keys (sessions c)
  ∧ NoDup (Stats.senderId <$> Stats.sessions stats)
  ∧ Forall (λ e, (1 ≤ Stats.messageCount e ≤ 9)%nat) (Stats.sessions stats).
Proof.
  intros Hreach stats.
  pose proof (reachable_wellFormed c Hreach) as Hwf.
  assert (Htidy : tidySessions c).
  { clear Hwf stats. induction Hreach as [timeoutSeconds|e c Hreach IH].
    - intros k s Hin. by apply elem_of_nil in Hin.
    - apply step_tidy; [by apply reachable_wellFormed|done]. }
  assert (Hsenders : (Stats.senderId <$> Stats.sessions stats) = OMap.keys (sessions c)).
  { unfold stats, getStats, OMap.keys. cbn [Stats.sessions].
    induction (sessions c) as [|[k s] l IH]; [done|]. cbn. by rewrite IH. }
  split; [unfold stats, getStats; cbn; by rewrite length_map|].
  split; [done|]. split; [rewrite Hsenders; apply (wf_keys c Hwf)|].
  unfold stats, getStats. cbn [Stats.sessions].
  apply Forall_forall. intros e Hin.
  apply list_elem_of_In, in_map_iff in Hin as ([k s] & <- & Hin).
  apply list_elem_of_In in Hin. cbn [Stats.messageCount snd].
  destruct (Htidy k s Hin) as (_ & [Hpos Hlimit] & _).
  change maxMessages with 10%nat in Hlimit. lia.
Qed.

Lemma getStats_spec_witness :
  let c :=
    replay 120
      [AddMessage 1000 (sampleMessage "A1" "a@s.whatsapp.net" "Rahul Sharma");
       AddMessage 1500 (sampleMessage "B1" "b@s.whatsapp.net" "12 MG Road");
       AddMessage 2000 (sampleMessage "A2" "a@s.whatsapp.net" "9876543210")] in
  getStats 2500 c
  = Stats.mk 2 [Stats.mkEntry "a@s.whatsapp.net" "919876543210" 2 1500;
                Stats.mkEntry "b@s.whatsapp.net" "919876543210" 1 1000]
  ∧ NoDup (Stats.senderId <$> Stats.sessions (getStats 2500 c)).
Proof.
  intros c. split; [reflexivity|].
  destruct (getStats_spec 2500 c (reachable_replay _ _)) as (_ & _ & Hnodup & _).
  exact Hnodup.
Defined.

(** ** Phone numbers, continued *)

Lemma keptOf_phoneChars (phone : string) :
  forallb isPhoneChar (JS.chars (keptOf phone)) = true.
Proof.
  unfold keptOf. rewrite chars_str.
  assert (Hall : forallb isPhoneChar
                   (List.filter (λ c, JS.isDigit c || isPlus c) (JS.chars phone)) = true).
  { apply forallb_forall. by intros c [_ Hc]%filter_In. }
  destruct (List.filter _ (JS.chars phone)) as [|c rest]; [done|].
  destruct (isPlus c); [|exact Hall].
  cbn [forallb] in Hall. by apply andb_true_iff in Hall as [_ Hrest].
Qed.

Lemma normalizePhoneNumber_cases (phone : string) :
  phone ≠ EmptyString →
  normalizePhoneNumber (Some phone)
  = Some (if (String.length (keptOf phone) <? 10)%nat
             || (15 <? String.length (keptOf phone))%nat
          then phone else keptOf phone).
Proof.
  intros Hne. unfold normalizePhoneNumber.
  apply truthy_true in Hne. rewrite Hne. cbn [negb].
  rewrite normalized_keptOf.
  by destruct ((String.length (keptOf phone) <? 10)%nat
               || (15 <? String.length (keptOf phone))%nat).
Qed.

(** X14: what phone normalization can answer.  The answer is [null] exactly
    when the input is [null] or empty, and it is never the empty string.
    An answer that differs from the input has between 10 and 15 characters,
    each a digit or a plus sign. *)
Theorem normalizePhoneNumber_result (phone : option string) :
  (normalizePhoneNumber phone = None ↔ JS.truthyOpt phone = false)
  ∧ ∀ r, normalizePhoneNumber phone = Some r →
         r ≠ EmptyString
         ∧ (phone = Some r
            ∨ ((10 ≤ String.length r ≤ 15)%nat
               ∧ forallb isPhoneChar (JS.chars r) = true)).
Proof.
  destruct phone as [phone|]; [|by split].
  destruct (decide (phone = EmptyString)) as [->|Hne]; [by split|].
  rewrite (normalizePhoneNumber_cases phone Hne). cbn [JS.truthyOpt].
  split; [split; [done|]; intros Hfalse; by apply truthy_false in Hfalse|].
  intros r [= <-].
  destruct (String.length (keptOf phone) <? 10)%nat eqn:Hlow; cbn [orb].
  - split; [done|by left].
  - destruct (15 <? String.length (keptOf phone))%nat eqn:Hhigh.
    + split; [done|by left].
    + apply Nat.ltb_ge in Hlow, Hhigh. split.
      * intros Hempty. rewrite Hempty in Hlow. cbn in Hlow. lia.
      * right. split; [lia|apply keptOf_phoneChars].
Qed.

Lemma filter_isDigit_all (l : list ascii) :
  List.filter JS.isDigit (List.filter JS.isDigit l) = List.filter JS.isDigit l.
Proof.
  induction l as [|c l IH]; [done|]. cbn [List.filter].
  destruct (JS.isDigit c) eqn:Hc; [|done]. cbn [List.filter]. by rewrite Hc, IH.
Qed.

Lemma plusOnlyInFrontOf_digits (l : list ascii) :
  plusOnlyInFrontOf (List.filter JS.isDigit l) = true.
Proof.
  assert (Hnone : ∀ l, forallb (λ c, negb (isPlus c)) (List.filter JS.isDigit l) = true).
  { intros l'. apply forallb_forall. intros c [_ Hc]%filter_In.
    by rewrite (isDigit_not_plus c Hc). }
  destruct (List.filter JS.isDigit l) as [|c rest] eqn:Hfilter; [done|].
  cbn [plusOnlyInFrontOf].
  assert (Hc : JS.isDigit c = true).
  { assert (Hin : In c (List.filter JS.isDigit l)) by (rewrite Hfilter; by left).
    by apply filter_In in Hin as [_ ?]. }
  rewrite Hc. cbn [orb].
  specialize (Hnone l). rewrite Hfilter in Hnone. cbn [forallb] in Hnone.
  by apply andb_true_iff in Hnone as [_ ?].
Qed.

Lemma digitsOf_fixed (phone : string) : digitsOf (digitsOf phone) = digitsOf phone.
Proof. unfold digitsOf. by rewrite chars_str, filter_isDigit_all. Qed.

(** X15: normalizing twice is normalizing once, for the numbers written with
    no plus sign after their first digit or plus sign; a stored number can be
    normalized again without harm.  With a second plus sign the property
    fails: "++919876543210" loses one plus sign at each pass. *)
Theorem normalizePhoneNumber_idempotent (phone : string) :
  plusOnlyInFront phone = true →
  normalizePhoneNumber (normalizePhoneNumber (Some phone))
  = normalizePhoneNumber (Some phone)
  ∧ normalizePhoneNumber (normalizePhoneNumber (Some "++919876543210"))
    ≠ normalizePhoneNumber (Some "++919876543210").
Proof.
  intros Hfront. split; [|vm_compute; discriminate].
  destruct (decide (phone = EmptyString)) as [->|Hne]; [done|].
  rewrite (normalizePhoneNumber_cases phone Hne).
  rewrite (keptOf_digits phone Hfront).
  destruct ((String.length (digitsOf phone) <? 10)%nat
            || (15 <? String.length (digitsOf phone))%nat) eqn:Hrange.
  - rewrite (normalizePhoneNumber_cases phone Hne).
    by rewrite (keptOf_digits phone Hfront), Hrange.
  - assert (Hdigits : digitsOf phone ≠ EmptyString).
    { intros Hempty. rewrite Hempty in Hrange. discriminate Hrange. }
    rewrite (normalizePhoneNumber_cases _ Hdigits).
    assert (Hfront' : plusOnlyInFront (digitsOf phone) = true).
    { unfold plusOnlyInFront, digitsOf. rewrite chars_str.
      apply plusOnlyInFrontOf_digits. }
    by rewrite (keptOf_digits _ Hfront'), digitsOf_fixed, Hrange.
Qed.

Lemma normalizePhoneNumber_idempotent_witness :
  normalizePhoneNumber (Some "+91 98765-43210") = Some "919876543210"
  ∧ normalizePhoneNumber (normalizePhoneNumber (Some "+91 98765-43210"))
    = normalizePhoneNumber (Some "+91 98765-43210").
Proof.
  split; [reflexivity|].
  destruct (normalizePhoneNumber_idempotent "+91 98765-43210" eq_refl) as [Hsame _].
  exact Hsame.
Defined.

(** ** The extraction loop *)

(** X16: the schedule of the extraction loop.  The attempts are made in
    order and stop at the first response, which makes the result; before the
    second attempt the loop waits 2000 ms and before the third 4000 ms, and
    it never waits after its last attempt.  When the third attempt fails too
    the result is the failed one, with the message of that last error. *)
Theorem extractContactInfo_schedule llm now session :
  ∃ n,
    (n < maxRetries)%nat
    ∧ (∀ j data, (1 ≤ j ≤ n)%nat → llm j ≠ Responds data)
    ∧ (extractContactInfo llm now session).2 = take n [2000; 4000]%Z
    ∧ match llm (S n) with
      | Responds data =>
          (extractContactInfo llm now session).1 = succeeded now session data
      | failure =>
          n = 2%nat
          ∧ (extractContactInfo llm now session).1
            = exhausted now session (Some (errorMessage failure))
      end.
Proof.
  unfold extractContactInfo, maxRetries. cbn [attemptsFrom].
  destruct (llm 1) as [m1| |d1] eqn:H1.
  3: { exists 0%nat. rewrite H1. split; [lia|]. split; [intros j data Hj; lia|done]. }
  all: destruct (llm 2) as [m2| |d2] eqn:H2.
  3, 6: exists 1%nat; rewrite H2; split; [lia|]; split; [|done];
        intros j data Hj; assert (j = 1%nat) as -> by lia; by rewrite H1.
  all: exists 2%nat; split; [lia|]; split;
        [intros j data Hj;
         assert (j = 1%nat ∨ j = 2%nat) as [-> | ->] by lia;
         [by rewrite H1|by rewrite H2]|];
        destruct (llm 3) as [m3| |d3] eqn:H3; done.
Qed.

(** ** The outcomes of [process] *)

Lemma healthy_faultOf w : healthy w ↔ faultOf w = None.
Proof.
  unfold healthy, faultOf.
  destruct (dbFault w); [split; [by intros [? _]|done]|].
  destruct (isProducerConnected w); cbn [negb]; [|split; [by intros (_ & ? & _)|done]].
  split; [by intros (_ & _ & ?)|done].
Qed.

(** X17: [process] returns exactly when the store and the queue are in
    order.  Then it returns the extraction result with its status set and
    has forwarded it; otherwise it throws the first fault it meets (of the
    store, of the producer not being connected, of the broker) and the
    parsed-messages topic is left as it was. *)
Theorem process_outcome now llm session w :
  let p := (extractContactInfo llm now session).1 in
  let r := ParsedData.withStatus (classify p) p in
  let w' := (process now llm session w).1 in
  match faultOf w with
  | None =>
      (process now llm session w).2 = inl r
      ∧ parsedMessages w' = parsedMessages w ++ [r]
  | Some e =>
      (process now llm session w).2 = inr e
      ∧ parsedMessages w' = parsedMessages w
  end
  ∧ slept w' = slept w ++ (extractContactInfo llm now session).2.
Proof.
  destruct (extractContactInfo llm now session) as [p delays] eqn:Hextract.
  destruct w as [cs rid pm dlq bs sl db conn bf].
  unfold faultOf, process, tryCatch, bind. rewrite Hextract.
  unfold sleep, saveContact, sendParsedMessage, sendToDeadLetter, sendGuard,
    broadcast, ret, throw, tryCatch, bind.
  cbn [dbFault isProducerConnected brokerFault negb lastInsertRowid contacts
       parsedMessages deadLetterQueue broadcasts slept fst snd].
  destruct db as [m|]; [done|].
  cbn [dbFault isProducerConnected brokerFault negb lastInsertRowid contacts
       parsedMessages deadLetterQueue broadcasts slept fst snd].
  destruct conn; cbn [negb].
  - destruct (bf ParsedMessages) as [e|] eqn:Hparsed; [|done].
    cbn [dbFault isProducerConnected brokerFault negb lastInsertRowid contacts
         parsedMessages deadLetterQueue broadcasts slept fst snd].
    by destruct (bf DeadLetterQueue).
  - done.
Qed.

Lemma find_app_None {A} (f : A → bool) (l : list A) (x : A) :
  List.find f l = None → f x = true → List.find f (l ++ [x]) = Some x.
Proof.
  induction l as [|y l IH]; cbn [List.find app]; [by intros _ ->|].
  destruct (f y); [done|]. apply IH.
Qed.

Lemma find_filter_ne (sessionId : string) (l : list Contact.t) :
  List.find (λ r, bool_decide (Contact.session_id r = sessionId))
    (filter (λ r, Contact.session_id r ≠ sessionId) l) = None.
Proof.
  induction l as [|r l IH]; [done|].
  rewrite filter_cons. destruct (decide (Contact.session_id r ≠ sessionId)) as [Hne|_];
    [|done].
  cbn [List.find]. by rewrite bool_decide_eq_false_2.
Qed.

(** X18: when the store refuses every statement, a session that is processed
    leaves no trace.  [process] throws the error of the store; the handler's
    own attempt to save a failed entry throws again, so nothing is sent to the
    dead-letter queue and nothing is broadcast: apart from the back-off
    delays slept through, the world is as it was. *)
Theorem process_store_down now llm session w e :
  dbFault w = Some e →
  let w' := (process now llm session w).1 in
  (process now llm session w).2 = inr e
  ∧ contacts w' = contacts w
  ∧ parsedMessages w' = parsedMessages w
  ∧ deadLetterQueue w' = deadLetterQueue w
  ∧ broadcasts w' = broadcasts w.
Proof.
  intros Hdb.
  destruct (extractContactInfo llm now session) as [p delays] eqn:Hextract.
  destruct w as [cs rid pm dlq bs sl db conn bf]. cbn in Hdb. subst db.
  unfold process, tryCatch, bind. rewrite Hextract.
  unfold sleep, saveContact, bind.
  cbn [dbFault isProducerConnected brokerFault negb lastInsertRowid contacts
       parsedMessages deadLetterQueue broadcasts slept fst snd].
  done.
Qed.

Lemma process_store_down_witness :
  let w := mkWorld [] 0 [] [] [] [] (Some "SQLITE_BUSY") true (λ _, None) in
  process 20000%Z (respondsWith (Some 0.9%float)) rahulSession w = (w, inr "SQLITE_BUSY").
Proof.
  intros w.
  destruct (process_store_down 20000%Z (respondsWith (Some 0.9%float)) rahulSession w
              "SQLITE_BUSY" eq_refl) as (Hthrown & _).
  reflexivity.
Defined.

Lemma replaced_twice (sessionId : string) (cs : list Contact.t) (row1 row2 : Contact.t) :
  Contact.session_id row1 = sessionId →
  filter (λ r, Contact.session_id r ≠ sessionId)
    (filter (λ r, Contact.session_id r ≠ sessionId) cs ++ [row1]) ++ [row2]
  = filter (λ r, Contact.session_id r ≠ sessionId) cs ++ [row2].
Proof.
  intros Hrow. rewrite filter_app, filter_cons, decide_False by (by intros ?).
  rewrite filter_nil, app_nil_r. by rewrite filter_filter_implied.
Qed.

Ltac normalizeRow now :=
  cbn [ParsedData.senderNumber ParsedData.pushName ParsedData.extracted
       ParsedData.status ParsedData.rawMessages ParsedData.combinedText
       ParsedData.processedAt Extracted.name Extracted.address Extracted.mobile
       Extracted.confidence Extracted.notes statusOrProcessed failedData];
  change (truthyNumber 0) with false; cbv iota;
  replace (if bool_decide (now ≠ 0%Z) then now else now) with now
    by (by destruct (bool_decide (now ≠ 0%Z))).

(** X19: when the store works and the queue does not take the result, the
    session ends as a failed entry.  [process] throws the error of the
    queue; the row that was saved for the session a moment before is
    replaced by a failed one, which is the row that a lookup by session
    identifier finds; the session goes to the dead-letter queue if that
    queue takes it, and the failure is broadcast. *)
Theorem process_queue_down now llm session w e :
  dbFault w = None →
  faultOf w = Some e →
  let w' := (process now llm session w).1 in
  let row := failedRow (S (S (lastInsertRowid w))) now session e in
  (process now llm session w).2 = inr e
  ∧ contacts w'
    = filter (λ r, Contact.session_id r ≠ SessionData.sessionId session) (contacts w)
      ++ [row]
  ∧ getContactBySessionId (SessionData.sessionId session) w' = Some row
  ∧ deadLetterQueue w'
    = deadLetterQueue w
      ++ (if deadLetterOpen w then [DeadLetter.mk session e now] else [])
  ∧ broadcasts w'
    = broadcasts w
      ++ [StatusUpdate
            ("Failed to process message from " +:+ SessionData.senderNumber session)
            "error"].
Proof.
  intros Hdb Hfault.
  assert (Hid : ParsedData.sessionId (extractContactInfo llm now session).1
                = SessionData.sessionId session).
  { destruct (firstResponse llm) as [data|] eqn:Hfirst.
    - by destruct (extractContactInfo_responded llm now session data Hfirst)
        as [delays ->].
    - by rewrite (extractContactInfo_exhausted llm now session Hfirst). }
  destruct (extractContactInfo llm now session) as [p delays] eqn:Hextract.
  cbn [fst] in Hid.
  destruct w as [cs rid pm dlq bs sl db conn bf]. cbn in Hdb. subst db.
  unfold faultOf in Hfault. cbn [dbFault isProducerConnected brokerFault] in Hfault.
  assert (Hfound : ∀ row,
            Contact.session_id row = SessionData.sessionId session →
            List.find (λ r, bool_decide (Contact.session_id r = SessionData.sessionId session))
              (filter (λ r, Contact.session_id r ≠ SessionData.sessionId session) cs
               ++ [row]) = Some row).
  { intros row Hrow. apply find_app_None; [apply find_filter_ne|].
    by apply bool_decide_eq_true. }
  unfold getContactBySessionId, deadLetterOpen, failedRow.
  unfold process, tryCatch, bind. rewrite Hextract.
  unfold sleep, saveContact, sendParsedMessage, sendToDeadLetter, sendGuard,
    broadcast, ret, throw, tryCatch, bind.
  cbn [dbFault isProducerConnected brokerFault negb lastInsertRowid contacts
       parsedMessages deadLetterQueue broadcasts slept fst snd].
  destruct conn; cbn [negb andb] in *.
  - rewrite Hfault.
    cbn [dbFault isProducerConnected brokerFault negb lastInsertRowid contacts
         parsedMessages deadLetterQueue broadcasts slept fst snd].
    destruct (bf DeadLetterQueue) as [e'|] eqn:Hdead;
      cbn [dbFault isProducerConnected brokerFault negb lastInsertRowid contacts
           parsedMessages deadLetterQueue broadcasts slept fst snd
           ParsedData.sessionId ParsedData.withStatus failedData];
      rewrite !Hid, replaced_twice by done; normalizeRow now;
      (split; [done|]); (split; [done|]); (split; [by apply Hfound|]);
      (split; [|done]).
    + by rewrite bool_decide_eq_false_2, app_nil_r.
    + by rewrite bool_decide_eq_true_2.
  - injection Hfault as <-.
    cbn [dbFault isProducerConnected brokerFault negb lastInsertRowid contacts
         parsedMessages deadLetterQueue broadcasts slept fst snd
         ParsedData.sessionId ParsedData.withStatus failedData].
    rewrite !Hid, replaced_twice by done. normalizeRow now.
    split; [done|]. split; [done|]. split; [by apply Hfound|].
    split; [by rewrite app_nil_r|done].
Qed.

Lemma process_queue_down_witness :
  let w := mkWorld [] 0 [] [] [] [] None false (λ _, None) in
  let w' := (process 20000%Z (respondsWith (Some 0.9%float)) rahulSession w).1 in
  (process 20000%Z (respondsWith (Some 0.9%float)) rahulSession w).2
  = inr "Kafka producer not connected"
  ∧ (Contact.status <$> contacts w') = [Failed]
  ∧ deadLetterQueue w' = [].
Proof.
  intros w w'.
  destruct (process_queue_down 20000%Z (respondsWith (Some 0.9%float)) rahulSession w
              "Kafka producer not connected" eq_refl eq_refl)
    as (Hthrown & Hcontacts & _ & Hdead & _).
  fold w' in Hcontacts, Hdead.
  split; [exact Hthrown|]. split; [by rewrite Hcontacts|exact Hdead].
Defined.

(** ** A message revoked at once *)




(** ** The WhatsApp client *)

Lemma prefix_at (pattern s : string) (c : ascii) :
  c ≠ "@"%char → String.prefix (String "@" pattern) (String c s) = false.
Proof.
  intros Hne. cbn [String.prefix].
  destruct (ascii_dec "@" c) as [Heq|_]; [by symmetry in Heq|done].
Qed.

Lemma replaceFirst_atFree (pattern replacement s : string) :
  atFree s → Str.replaceFirst (String "@" pattern) replacement s = s.
Proof.
  induction s as [|c s IH]; [done|]. intros [Hc Hs].
  cbn [Str.replaceFirst]. rewrite (prefix_at _ _ _ Hc). by rewrite IH.
Qed.

Lemma append_cons (c : ascii) (s t : string) :
  String c s +:+ t = String c (s +:+ t).
Proof. reflexivity. Qed.

Lemma append_nil (t : string) : EmptyString +:+ t = t.
Proof. reflexivity. Qed.

Lemma replaceFirst_suffix (pattern rest s : string) :
  atFree s →
  Str.replaceFirst (String "@" pattern) EmptyString (s +:+ String "@" rest)
  = s +:+ Str.replaceFirst (String "@" pattern) EmptyString (String "@" rest).
Proof.
  induction s as [|c s IH]; [done|]. intros [Hc Hs].
  rewrite !append_cons. cbn [Str.replaceFirst].
  rewrite (prefix_at _ _ _ Hc). by rewrite IH.
Qed.

Lemma endsWith_suffix (suffix rest s : string) :
  atFree s →
  Str.endsWith (String "@" suffix) (s +:+ String "@" rest)
  = Str.endsWith (String "@" suffix) (String "@" rest).
Proof.
  induction s as [|c s IH]; [done|]. intros [Hc Hs].
  rewrite !append_cons. cbn [Str.endsWith String.eqb].
  rewrite (proj2 (Ascii.eqb_neq c "@") Hc). cbn [orb]. by apply IH.
Qed.

Lemma append_empty (s : string) : s +:+ EmptyString = s.
Proof. induction s as [|c s IH]; [done|]. by rewrite append_cons, IH. Qed.

(** X21: the number of a sender is read off its identifier.  For every
    number without an at sign, the identifier of the user chat
    "number@s.whatsapp.net" and that of the group chat "number@g.us" both
    give the number back, and only the second counts as a group. *)
Theorem senderNumberOf_spec (number : string) :
  atFree number →
  senderNumberOf (number +:+ "@s.whatsapp.net") = number
  ∧ senderNumberOf (number +:+ "@g.us") = number
  ∧ Str.endsWith "@g.us" (number +:+ "@s.whatsapp.net") = false
  ∧ Str.endsWith "@g.us" (number +:+ "@g.us") = true.
Proof.
  intros Hfree. unfold senderNumberOf. split; [|split; [|split]].
  - rewrite (replaceFirst_suffix _ _ _ Hfree).
    change (Str.replaceFirst "@s.whatsapp.net" EmptyString "@s.whatsapp.net")
      with EmptyString.
    rewrite append_empty. by apply replaceFirst_atFree.
  - rewrite (replaceFirst_suffix _ _ _ Hfree).
    change (Str.replaceFirst "@s.whatsapp.net" EmptyString "@g.us") with "@g.us".
    rewrite (replaceFirst_suffix _ _ _ Hfree).
    change (Str.replaceFirst "@g.us" EmptyString "@g.us") with EmptyString.
    apply append_empty.
  - by rewrite (endsWith_suffix _ _ _ Hfree).
  - by rewrite (endsWith_suffix _ _ _ Hfree).
Qed.

Lemma senderNumberOf_spec_witness :
  senderNumberOf "919876543210@s.whatsapp.net" = "919876543210"
  ∧ senderNumberOf "120363041234567890@g.us" = "120363041234567890".
Proof.
  split.
  - apply (senderNumberOf_spec "919876543210"). cbn. by repeat split.
  - apply (senderNumberOf_spec "120363041234567890"). cbn. by repeat split.
Defined.

Lemma prefix_empty (s : string) : String.prefix EmptyString s = true.
Proof. by destruct s. Qed.

Lemma prefix_append (pattern s y : string) :
  String.prefix pattern s = true → String.prefix pattern (s +:+ y) = true.
Proof.
  revert s. induction pattern as [|p pattern IH]; intros s; [intros _; apply prefix_empty|].
  destruct s as [|c s]; [done|]. rewrite append_cons. cbn [String.prefix].
  destruct (ascii_dec p c); [apply IH|done].
Qed.

Lemma includes_append (pattern x s y : string) :
  Str.includes pattern s = true → Str.includes pattern (x +:+ s +:+ y) = true.
Proof.
  intros Hin. induction x as [|c x IH].
  - rewrite append_nil. induction s as [|c s IH].
    + cbn [Str.includes] in Hin. rewrite orb_false_r in Hin.
      destruct pattern; [|done]. rewrite append_nil.
      destruct y; cbn [Str.includes]; by rewrite prefix_empty.
    + rewrite append_cons. cbn [Str.includes] in *.
      apply orb_true_iff in Hin as [Hprefix|Hrest].
      * rewrite <- append_cons. by rewrite (prefix_append _ (String c s) y Hprefix).
      * rewrite (IH Hrest). apply orb_true_r.
  - rewrite append_cons. cbn [Str.includes]. rewrite IH. apply orb_true_r.
Qed.

Lemma stripNonDigits_digitsOf (s : string) : stripNonDigits s = digitsOf s.
Proof.
  unfold stripNonDigits, digitsOf. f_equal. apply List.filter_ext. intros c.
  unfold RegExp.classMatches, RegExp.inRanges, JS.isDigit. cbn.
  by destruct (JS.between "0" "9" c).
Qed.

(** X22: the filter on the sender compares digits by inclusion.  A
    configured sender is read as its digits, whatever punctuation it is
    written with; a message passes when those digits occur somewhere in the
    number of its chat, so every longer number that contains them passes
    too; and a configured sender that has no digit lets every message
    through, as if none were configured. *)
Theorem isAllowed_spec (allowed : string) :
  allowed ≠ EmptyString →
  (∀ number, isAllowed (Some allowed) number = Str.includes (digitsOf allowed) number)
  ∧ (∀ number x y,
       isAllowed (Some allowed) number = true →
       isAllowed (Some allowed) (x +:+ number +:+ y) = true)
  ∧ (digitsOf allowed = EmptyString →
     ∀ now message,
       handleIncomingMessage (Some allowed) now message
       = handleIncomingMessage None now message).
Proof.
  intros Hne.
  assert (Hfilter : ∀ number,
            isAllowed (Some allowed) number = Str.includes (digitsOf allowed) number).
  { intros number. unfold isAllowed. cbn [JS.truthyOpt].
    rewrite (proj2 (truthy_true allowed) Hne). by rewrite stripNonDigits_digitsOf. }
  split; [exact Hfilter|]. split.
  - intros number x y. rewrite !Hfilter. apply includes_append.
  - intros Hdigits now message. unfold handleIncomingMessage.
    destruct (Incoming.fromMe message); [done|].
    destruct (if JS.truthyOpt _ then _ else _) as [text|]; [|done].
    destruct (negb (JS.truthy text)); [done|].
    destruct (Incoming.remoteJid message) as [senderId|]; [|done].
    rewrite Hfilter, Hdigits.
    assert (Hall : ∀ s, Str.includes EmptyString s = true)
      by (intros s; destruct s; cbn; by rewrite ?prefix_empty).
    by rewrite Hall.
Qed.

Lemma isAllowed_spec_witness :
  isAllowed (Some "+91 98765-43210") "919876543210" = true
  ∧ isAllowed (Some "98765") "919876543210" = true
  ∧ isAllowed (Some "+91 98765-43210") "918888888888" = false.
Proof.
  assert (Hne : "+91 98765-43210" ≠ EmptyString) by discriminate.
  destruct (isAllowed_spec "+91 98765-43210" Hne) as (Hfilter & _ & _).
  split; [by rewrite Hfilter|]. split; [reflexivity|by rewrite Hfilter].
Defined.

Lemma reconnections_gives_up n a :
  (maxReconnectAttempts ≤ a)%nat → reconnections n a = [].
Proof.
  intros Hle. destruct n as [|n]; [done|].
  cbn [reconnections]. unfold handleReconnect.
  by rewrite (proj2 (Nat.leb_le _ _) Hle).
Qed.

Lemma reconnections_step n a :
  (a < maxReconnectAttempts)%nat →
  reconnections (S n) a
  = Z.min (reconnectInterval * 2 ^ (Z.of_nat (S a) - 1)) 60000
    :: reconnections n (S a).
Proof.
  intros Hlt. cbn [reconnections]. unfold handleReconnect.
  by rewrite (proj2 (Nat.leb_gt _ _) Hlt).
Qed.

(** X23: the schedule of the reconnections.  However many reconnections
    fail in a row after the last successful connection, the client waits
    5, 10, 20 and 40 seconds before the first four attempts, one minute
    before each of the next six, and sets no timer after the tenth: it
    gives up. *)
Theorem reconnections_schedule (n : nat) :
  reconnections n 0
  = take n [5000; 10000; 20000; 40000; 60000; 60000; 60000; 60000; 60000; 60000]%Z
  ∧ (handleReconnect maxReconnectAttempts).2 = None.
Proof.
  split; [|reflexivity].
  do 10 (destruct n as [|n]; [vm_compute; reflexivity|]).
  rewrite !reconnections_step by (apply Nat.ltb_lt; vm_compute; reflexivity).
  rewrite reconnections_gives_up by (apply Nat.leb_le; vm_compute; reflexivity).
  cbn [take]. rewrite take_nil. vm_compute. reflexivity.
Qed.

(** ** A revoke does not free a slot *)

(** X24: a revoke leaves the slots of the session as they are, so a slot
    stays taken after the message that filled it is revoked.  When the
    session survives the revoke and a message arrives for a slot that the
    session had filled, the session is finalized without the revoked
    message, emitted unless its identifier is in the cache of processed
    sessions, and the new message starts a session of its own. *)
Theorem revoke_keeps_slot now messageId message c s :
  wellFormed c →
  OMap.get (Message.senderId message) (sessions c) = Some s →
  Session.messages (withoutMessage messageId s) ≠ [] →
  Message.id message ∉ processedMessageIds c →
  isNoise (Message.text message) = false →
  collides (identifySlot (Message.text message)) s = true →
  let k := Message.senderId message in
  let c' := addMessage now message (removeMessage k messageId c) in
  OMap.get k (sessions c')
  = Some (buffer now message (identifySlot (Message.text message))
            (freshSession now message))
  ∧ emitted c'
    = emitted c
      ++ (if OSet.has (sessionIdOf k s) (processedSessions c) then []
          else [sessionDataOf now k (withoutMessage messageId s)]).
Proof.
  intros Hwf Hget Hkept Hfresh Hnoise Hcol k c'.
  set (s' := withoutMessage messageId s) in *.
  set (c1 := removeMessage k messageId c) in *.
  assert (Hc1 : c1 = withSessions (OMap.set k s' (sessions c)) c).
  { unfold c1. rewrite (removeMessage_withoutMessage _ _ _ s Hget). fold s'.
    by rewrite (bool_decide_eq_false_2 (Session.messages s' = [])). }
  assert (Hget1 : OMap.get k (sessions c1) = Some s').
  { rewrite Hc1. cbn [sessions withSessions]. apply OMap_get_set_eq. }
  assert (Hfresh1 : Message.id message ∉ processedMessageIds c1) by (by rewrite Hc1).
  pose proof (intake_collision now message c1 s' Hfresh1 Hnoise Hget1 Hcol) as Hintake.
  cbv zeta in Hintake. fold k in Hintake.
  set (started := buffer now message (identifySlot (Message.text message))
                    (freshSession now message)) in *.
  set (c0 := processSession now k (recorded message c1)) in *.
  assert (Hc' : c' = resetTimer k (adaptiveTimeoutMs c0 (Session.slots started))
                       (withSessions (OMap.set k started (sessions c0)) c0)).
  { unfold c', addMessage. fold c1. rewrite Hintake. by cbn. }
  split.
  - rewrite Hc'. cbn [sessions resetTimer withSessions]. apply OMap_get_set_eq.
  - rewrite Hc'. cbn [emitted resetTimer withSessions].
    destruct (processSession_spec now k (recorded message c1) s' Hget1 Hkept)
      as [_ Hemitted].
    fold c0 in Hemitted.
    change (processedSessions (recorded message c1)) with (processedSessions c1)
      in Hemitted.
    change (emitted (recorded message c1)) with (emitted c1) in Hemitted.
    change (sessionIdOf k s') with (sessionIdOf k s) in Hemitted.
    rewrite Hc1 in Hemitted. cbn [processedSessions emitted withSessions] in Hemitted.
    destruct (OSet.has (sessionIdOf k s) (processedSessions c)).
    + destruct Hemitted as [-> _]. by rewrite app_nil_r.
    + by destruct Hemitted as [-> _].
Qed.

Lemma revoke_keeps_slot_witness :
  let c :=
    replay 120
      [AddMessage 1000 (sampleMessage "A1" "a@s.whatsapp.net" "Rahul Sharma");
       AddMessage 2000 (sampleMessage "A2" "a@s.whatsapp.net" "9876543210")] in
  let c' :=
    addMessage 3000 (sampleMessage "A3" "a@s.whatsapp.net" "9123456780")
      (removeMessage "a@s.whatsapp.net" "A2" c) in
  (SessionData.combinedText <$> emitted c') = ["Rahul Sharma"]
  ∧ (Session.messages <$> OMap.get "a@s.whatsapp.net" (sessions c'))
    = Some [Buffered.mk "A3" "9123456780" 1700000000000 3000].
Proof.
  intros c c'.
  edestruct (revoke_keeps_slot 3000 "A2"
               (sampleMessage "A3" "a@s.whatsapp.net" "9123456780") c)
    as [Hget Hemitted].
  - apply reachable_wellFormed, reachable_replay.
  - vm_compute. reflexivity.
  - vm_compute. discriminate.
  - apply OSet_has_false. vm_compute. reflexivity.
  - vm_compute. reflexivity.
  - vm_compute. reflexivity.
  - split; [vm_compute; reflexivity|].
    etrans; [exact (f_equal (fmap Session.messages) Hget)|reflexivity].
Defined.

(** ** The session store *)

Lemma safeChar_class (c : ascii) :
  RegExp.classMatches false true
    [("a", "z"); ("A", "Z"); ("0", "9"); ("_", "_"); ("-", "-")]%char c
  = negb (isSafeChar c).
Proof.
  unfold RegExp.classMatches, RegExp.inRanges, isSafeChar, JS.isLower, JS.isUpper,
    JS.isDigit.
  cbn [existsb fst snd andb orb xorb]. rewrite !between_same, !orb_false_r.
  by destruct (JS.between "a" "z" c), (JS.between "A" "Z" c),
    (JS.between "0" "9" c), (Ascii.eqb c "_"), (Ascii.eqb c "-").
Qed.

Lemma safeKeyOf_map (key : string) :
  safeKeyOf key
  = JS.str (map (λ c, if isSafeChar c then c else "_"%char) (JS.chars key)).
Proof.
  unfold safeKeyOf. f_equal. apply map_ext. intros c.
  rewrite safeChar_class. by destruct (isSafeChar c).
Qed.

(** X25: the file name that [getFilePath] makes of a key.  It has the length
    of the key and only letters, digits, underscores and hyphens, so it has
    no separator and no dot and names a file of the session directory
    itself; a key of such characters is kept as it is, and sanitizing twice
    changes nothing more.  Keys that differ only in characters outside that
    set share a file. *)
Theorem safeKeyOf_spec (key : string) :
  String.length (safeKeyOf key) = String.length key
  ∧ forallb isSafeChar (JS.chars (safeKeyOf key)) = true
  ∧ safeKeyOf (safeKeyOf key) = safeKeyOf key
  ∧ (forallb isSafeChar (JS.chars key) = true → safeKeyOf key = key)
  ∧ fileNameOf "creds/../x" = fileNameOf "creds____x".
Proof.
  assert (Hsafe : ∀ l, forallb isSafeChar
                         (map (λ c, if isSafeChar c then c else "_"%char) l) = true).
  { induction l as [|c l IH]; [done|]. cbn [map forallb]. rewrite IH, andb_true_r.
    by destruct (isSafeChar c) eqn:Hc. }
  assert (Hfixed : ∀ l, forallb isSafeChar l = true →
                        map (λ c, if isSafeChar c then c else "_"%char) l = l).
  { induction l as [|c l IH]; [done|]. cbn [map forallb].
    intros [Hc Hl]%andb_true_iff. by rewrite Hc, IH. }
  rewrite !safeKeyOf_map, chars_str.
  split; [by rewrite length_str, length_map, length_chars|].
  split; [apply Hsafe|]. split; [by rewrite (Hfixed _ (Hsafe _))|].
  split; [|vm_compute; reflexivity].
  intros Hkey. by rewrite (Hfixed _ Hkey), str_chars.
Qed.



